(** * GitWrite: offline write durability and the sync queue

    A shallow embedding of the parts of [app.js], [services/github.js] and the
    UTF-8 safe variant of the GitHub service that decide how notes are
    published, queued while offline, drained and purged, followed by the
    properties proved about them.

    Layout: Part I holds every definition, Part II every lemma and theorem. *)

From stdpp Require Import gmap strings list fin_maps sorting.
From Stdlib Require Import NArith ZArith Lia Ascii DecimalString.
From Stdlib Require String.

Ltac Zify.zify_post_hook ::= Z.to_euclidean_division_equations.

Set Warnings "-register-all".

Local Open Scope N_scope.

(* ================================================================== *)
(** * Part I. Definitions *)
(* ================================================================== *)

(** ** JavaScript values *)

(** A JavaScript string is a sequence of UTF-16 code units; a code unit is an
    [N] below [65536]. *)
Abbreviation jsstr := (list N).

(** An ASCII literal of the source as a JavaScript string. *)
Definition lit (s : string) : jsstr :=
  (fun a => N_of_ascii a) <$> String.list_ascii_of_string s.

Definition isCodeUnit (c : N) : Prop := c < 65536.
Definition isJsString (s : jsstr) : Prop := Forall isCodeUnit s.

Definition jsstr_eqb (a b : jsstr) : bool := bool_decide (a = b).

(** The values that job records, settings objects and parsed JSON bodies
    hold.  [undefined] is the absence of a value ([None] in an [option JsVal]).
    Numbers are integers: no number read by the modelled code is fractional. *)
Inductive JsVal : Type :=
  | VNull
  | VBool (b : bool)
  | VNum (n : Z)
  | VStr (s : jsstr)
  | VArr (items : list JsVal)
  | VObj (fields : list (string * JsVal)).

(** A top-level object (a job record, [this.github], a request payload):
    property name to value. *)
Abbreviation JsObj := (gmap string JsVal).

(** ** Exceptions *)

Inductive ErrorName : Type :=
  | ErrorE                  (* new Error(...) *)
  | TypeError
  | URIError
  | ReferenceError
  | SyntaxError
  | InvalidCharacterError   (* DOMException of btoa / atob *)
  | DataError.              (* DOMException of IndexedDB *)

Record JsError : Type := mkError { err_name : ErrorName; err_message : jsstr }.

(** The outcome of evaluating an expression or awaiting a promise: a value, or
    a thrown exception (a rejected promise). *)
Inductive Completion (A : Type) : Type :=
  | Normal (a : A)
  | Throw (e : JsError).
Arguments Normal {A} a.
Arguments Throw {A} e.

Definition cbind {A B} (c : Completion A) (k : A -> Completion B) : Completion B :=
  match c with
  | Normal a => k a
  | Throw e => Throw e
  end.

Definition cmap {A B} (f : A -> B) (c : Completion A) : Completion B :=
  cbind c (fun a => Normal (f a)).

(** Messages of built-in exceptions are engine text; the wording below is
    V8's.  Nothing proved depends on the wording. *)
Definition uriMalformed : JsError := mkError URIError (lit "URI malformed").
Definition invalidCharacter : JsError :=
  mkError InvalidCharacterError (lit "The string to be encoded contains characters outside of the Latin1 range.").
Definition invalidBase64 : JsError :=
  mkError InvalidCharacterError (lit "The string to be decoded is not correctly encoded.").

(** ** Platform string functions used by [utf8ToBase64] and [base64ToUtf8] *)

Module Encoding.

Definition inRange (lo hi c : N) : bool := (lo <=? c) && (c <=? hi).
Definition isAlpha (c : N) : bool := inRange 65 90 c || inRange 97 122 c.
Definition isDigit (c : N) : bool := inRange 48 57 c.
Definition oneOf (set : string) (c : N) : bool := existsb (N.eqb c) (lit set).

Definition isLead (c : N) : bool := inRange 0xD800 0xDBFF c.
Definition isTrail (c : N) : bool := inRange 0xDC00 0xDFFF c.

(** Upper-case hexadecimal digit of a value below 16. *)
Definition hexDigit (n : N) : N := if n <? 10 then 48 + n else 55 + n.

Definition hexVal (c : N) : option N :=
  if isDigit c then Some (c - 48)
  else if inRange 65 70 c then Some (c - 55)
  else if inRange 97 102 c then Some (c - 87)
  else None.

Definition hex2 (h1 h2 : N) : option N :=
  match hexVal h1, hexVal h2 with
  | Some x, Some y => Some (16 * x + y)
  | _, _ => None
  end.

Definition hex4 (h1 h2 h3 h4 : N) : option N :=
  match hex2 h1 h2, hex2 h3 h4 with
  | Some x, Some y => Some (256 * x + y)
  | _, _ => None
  end.

(** "%XX" *)
Definition pctEncode (b : N) : jsstr := [37; hexDigit (b / 16); hexDigit (b mod 16)].

(** UTF-8 octets of a code point. *)
Definition utf8Encode (cp : N) : list N :=
  if cp <? 0x80 then [cp]
  else if cp <? 0x800 then [0xC0 + cp / 64; 0x80 + cp mod 64]
  else if cp <? 0x10000 then
    [0xE0 + cp / 4096; 0x80 + (cp / 64) mod 64; 0x80 + cp mod 64]
  else
    [0xF0 + cp / 262144; 0x80 + (cp / 4096) mod 64;
     0x80 + (cp / 64) mod 64; 0x80 + cp mod 64].

Definition pairCodePoint (lead trail : N) : N :=
  (lead - 0xD800) * 0x400 + (trail - 0xDC00) + 0x10000.

(** A Unicode scalar value: a code point that is not a surrogate. *)
Definition isScalar (cp : N) : Prop := cp < 0x110000 /\ ~ (0xD800 <= cp <= 0xDFFF).

Definition utf16Encode (cp : N) : jsstr :=
  if cp <? 0x10000 then [cp]
  else [0xD800 + (cp - 0x10000) / 0x400; 0xDC00 + (cp - 0x10000) mod 0x400].

(** [encodeURIComponent]: the characters of uriUnescaped stay, every other
    code point becomes the "%XX" escapes of its UTF-8 octets; a lone
    surrogate throws URIError. *)
Definition uriUnescaped (c : N) : bool :=
  isAlpha c || isDigit c || oneOf "-_.!~*'()" c.

Fixpoint encodeURIComponent (s : jsstr) : Completion jsstr :=
  match s with
  | [] => Normal []
  | c :: rest =>
    if uriUnescaped c then cmap (cons c) (encodeURIComponent rest)
    else if isTrail c then Throw uriMalformed
    else if isLead c then
      match rest with
      | d :: rest' =>
        if isTrail d
        then cmap (app (flat_map pctEncode (utf8Encode (pairCodePoint c d))))
                  (encodeURIComponent rest')
        else Throw uriMalformed
      | [] => Throw uriMalformed
      end
    else cmap (app (flat_map pctEncode (utf8Encode c))) (encodeURIComponent rest)
  end.

(** [unescape] (Annex B): "%uXXXX" and "%XX" become the code unit they name,
    everything else is copied. *)
Fixpoint unescape (s : jsstr) : jsstr :=
  match s with
  | [] => []
  | c :: rest =>
    if negb (c =? 37) then c :: unescape rest
    else
      match rest with
      | h1 :: h2 :: r2 =>
        let two :=
          match hex2 h1 h2 with
          | Some v => v :: unescape r2
          | None => c :: unescape rest
          end in
        if h1 =? 117 then
          match r2 with
          | h3 :: h4 :: h5 :: r5 =>
            match hex4 h2 h3 h4 h5 with
            | Some v => v :: unescape r5
            | None => two
            end
          | _ => two
          end
        else two
      | _ => c :: unescape rest
      end
  end.

(** [escape] (Annex B). *)
Definition escapeUnescaped (c : N) : bool :=
  isAlpha c || isDigit c || oneOf "@*_+-./" c.

Definition escapeUnit (c : N) : jsstr :=
  if escapeUnescaped c then [c]
  else if c <? 256 then pctEncode c
  else [37; 117; hexDigit (c / 4096); hexDigit ((c / 256) mod 16);
        hexDigit ((c / 16) mod 16); hexDigit (c mod 16)].

Definition escape (s : jsstr) : jsstr := flat_map escapeUnit s.

(** Number of leading one bits of an octet, capped at 5. *)
Definition leadingOnes (b : N) : nat :=
  if b <? 0x80 then 0%nat
  else if b <? 0xC0 then 1%nat
  else if b <? 0xE0 then 2%nat
  else if b <? 0xF0 then 3%nat
  else if b <? 0xF8 then 4%nat
  else 5%nat.

Definition isCont (b : N) : bool := inRange 0x80 0xBF b.

(** The code point of a multi-octet UTF-8 sequence, when the sequence is a
    valid encoding: continuation octets, shortest form, no surrogate, at
    most U+10FFFF. *)
Definition utf8Decode (octets : list N) : option N :=
  match octets with
  | [b1; b2] =>
    let v := (b1 mod 32) * 64 + b2 mod 64 in
    if isCont b2 && (0x80 <=? v) then Some v else None
  | [b1; b2; b3] =>
    let v := ((b1 mod 16) * 64 + b2 mod 64) * 64 + b3 mod 64 in
    if isCont b2 && isCont b3 && (0x800 <=? v) && negb (inRange 0xD800 0xDFFF v)
    then Some v else None
  | [b1; b2; b3; b4] =>
    let v := (((b1 mod 8) * 64 + b2 mod 64) * 64 + b3 mod 64) * 64 + b4 mod 64 in
    if isCont b2 && isCont b3 && isCont b4 && (0x10000 <=? v) && (v <=? 0x10FFFF)
    then Some v else None
  | _ => None
  end.

(** "%XX" read as an octet. *)
Definition pctOctet (p h1 h2 : N) : option N :=
  if p =? 37 then hex2 h1 h2 else None.

Definition decodeSeq (octets : list (option N)) (k : Completion jsstr) : Completion jsstr :=
  match mapM id octets with
  | Some bs =>
    match utf8Decode bs with
    | Some v => cmap (app (utf16Encode v)) k
    | None => Throw uriMalformed
    end
  | None => Throw uriMalformed
  end.

(** [decodeURIComponent]: "%XX" runs are read as UTF-8; a malformed escape
    or an invalid UTF-8 sequence throws URIError. *)
Fixpoint decodeURIComponent (s : jsstr) : Completion jsstr :=
  match s with
  | [] => Normal []
  | c :: rest =>
    if negb (c =? 37) then cmap (cons c) (decodeURIComponent rest)
    else
      match rest with
      | h1 :: h2 :: r1 =>
        match hex2 h1 h2 with
        | None => Throw uriMalformed
        | Some b =>
          match leadingOnes b with
          | 0%nat => cmap (cons b) (decodeURIComponent r1)
          | 2%nat =>
            match r1 with
            | p1 :: h3 :: h4 :: r2 =>
              decodeSeq [Some b; pctOctet p1 h3 h4] (decodeURIComponent r2)
            | _ => Throw uriMalformed
            end
          | 3%nat =>
            match r1 with
            | p1 :: h3 :: h4 :: p2 :: h5 :: h6 :: r3 =>
              decodeSeq [Some b; pctOctet p1 h3 h4; pctOctet p2 h5 h6]
                        (decodeURIComponent r3)
            | _ => Throw uriMalformed
            end
          | 4%nat =>
            match r1 with
            | p1 :: h3 :: h4 :: p2 :: h5 :: h6 :: p3 :: h7 :: h8 :: r4 =>
              decodeSeq [Some b; pctOctet p1 h3 h4; pctOctet p2 h5 h6; pctOctet p3 h7 h8]
                        (decodeURIComponent r4)
            | _ => Throw uriMalformed
            end
          | _ => Throw uriMalformed
          end
        end
      | _ => Throw uriMalformed
      end
  end.

(** Base64 alphabet. *)
Definition b64Char (i : N) : N :=
  if i <? 26 then 65 + i
  else if i <? 52 then 97 + (i - 26)
  else if i <? 62 then 48 + (i - 52)
  else if i =? 62 then 43
  else 47.

Definition b64Val (c : N) : option N :=
  if inRange 65 90 c then Some (c - 65)
  else if inRange 97 122 c then Some (c - 97 + 26)
  else if isDigit c then Some (c - 48 + 52)
  else if c =? 43 then Some 62
  else if c =? 47 then Some 63
  else None.

Fixpoint b64enc (bs : list N) : jsstr :=
  match bs with
  | [] => []
  | [x] => [b64Char (x / 4); b64Char ((x mod 4) * 16); 61; 61]
  | [x; y] =>
    [b64Char (x / 4); b64Char ((x mod 4) * 16 + y / 16); b64Char ((y mod 16) * 4); 61]
  | x :: y :: z :: rest =>
    b64Char (x / 4) :: b64Char ((x mod 4) * 16 + y / 16)
      :: b64Char ((y mod 16) * 4 + z / 64) :: b64Char (z mod 64) :: b64enc rest
  end.

(** [btoa]: base64 of a binary string; a code unit above 255 throws
    InvalidCharacterError. *)
Definition btoa (s : jsstr) : Completion jsstr :=
  if forallb (fun c => c <? 256) s then Normal (b64enc s) else Throw invalidCharacter.

Definition isAsciiWhitespace (c : N) : bool :=
  (c =? 9) || (c =? 10) || (c =? 12) || (c =? 13) || (c =? 32).

Definition sextets2 (a b : N) : option (list N) :=
  match b64Val a, b64Val b with
  | Some x, Some y => Some [x * 4 + y / 16]
  | _, _ => None
  end.

Definition sextets3 (a b c : N) : option (list N) :=
  match b64Val a, b64Val b, b64Val c with
  | Some x, Some y, Some z => Some [x * 4 + y / 16; (y mod 16) * 16 + z / 4]
  | _, _, _ => None
  end.

Definition sextets4 (a b c d : N) : option (list N) :=
  match b64Val a, b64Val b, b64Val c, b64Val d with
  | Some x, Some y, Some z, Some w =>
    Some [x * 4 + y / 16; (y mod 16) * 16 + z / 4; (z mod 4) * 64 + w]
  | _, _, _, _ => None
  end.

(** Forgiving base64 decoding of a string without whitespace: padding is
    accepted only as the end of a final group of four, a final group of two
    or three characters may come unpadded, a single left-over character or
    a character outside the alphabet fails. *)
Fixpoint b64dec (s : jsstr) : option (list N) :=
  match s with
  | [] => Some []
  | [a; b] => sextets2 a b
  | [a; b; c] => sextets3 a b c
  | [a; b; c; d] =>
    if (c =? 61) && (d =? 61) then sextets2 a b
    else if d =? 61 then sextets3 a b c
    else sextets4 a b c d
  | a :: b :: c :: d :: rest =>
    match sextets4 a b c d, b64dec rest with
    | Some x, Some y => Some (x ++ y)
    | _, _ => None
    end
  | _ => None
  end.

(** [atob]. *)
Definition atob (s : jsstr) : Completion jsstr :=
  match b64dec (List.filter (fun c => negb (isAsciiWhitespace c)) s) with
  | Some bs => Normal bs
  | None => Throw invalidBase64
  end.

End Encoding.

(** ** UTF-8 safe base64 (the helpers above [GitHubService]) *)

(** [btoa(unescape(encodeURIComponent(str)))] *)
Definition utf8ToBase64 (str : jsstr) : Completion jsstr :=
  cbind (Encoding.encodeURIComponent str) (fun e => Encoding.btoa (Encoding.unescape e)).

(** [decodeURIComponent(escape(atob(str)))] *)
Definition base64ToUtf8 (str : jsstr) : Completion jsstr :=
  cbind (Encoding.atob str) (fun b => Encoding.decodeURIComponent (Encoding.escape b)).

(** "café ☕" as code units. *)
Definition cafe : jsstr := [99; 97; 102; 0xE9; 32; 0x2615].

(** [String.prototype.isWellFormed]: no lone surrogate. *)
Fixpoint isWellFormed (s : jsstr) : bool :=
  match s with
  | [] => true
  | c :: rest =>
    if Encoding.isTrail c then false
    else if Encoding.isLead c then
      match rest with
      | d :: rest' => Encoding.isTrail d && isWellFormed rest'
      | [] => false
      end
    else isWellFormed rest
  end.

(** ** Reading JavaScript values *)

(** ToBoolean. *)
Definition truthy (v : option JsVal) : bool :=
  match v with
  | None | Some VNull => false
  | Some (VBool b) => b
  | Some (VNum n) => negb (n =? 0)%Z
  | Some (VStr s) => match s with [] => false | _ :: _ => true end
  | Some (VArr _) | Some (VObj _) => true
  end.

(** [v === 'literal'] *)
Definition strictEq (v : option JsVal) (s : string) : bool :=
  match v with
  | Some (VStr x) => jsstr_eqb x (lit s)
  | _ => false
  end.

Definition typeError (msg : string) : JsError := mkError TypeError (lit msg).

(** ToString of a value.  An array joins its elements with commas, [null]
    elements giving the empty string; a parsed object prints as
    "[object Object]" unless an own "toString" property shadows the inherited
    method, in which case no primitive can be obtained and TypeError is
    thrown. *)
Fixpoint toStringV (v : JsVal) : Completion jsstr :=
  match v with
  | VNull => Normal (lit "null")
  | VBool b => Normal (lit (if b then "true" else "false"))
  | VNum n => Normal (lit (NilZero.string_of_int (Z.to_int n)))
  | VStr s => Normal s
  | VArr items =>
    (fix join (l : list JsVal) : Completion jsstr :=
       match l with
       | [] => Normal []
       | x :: rest =>
         cbind (match x with VNull => Normal [] | _ => toStringV x end) (fun sx =>
         match rest with
         | [] => Normal sx
         | _ :: _ => cmap (fun sr => sx ++ 44 :: sr) (join rest)
         end)
       end) items
  | VObj fields =>
    if existsb (fun kv => String.eqb (fst kv) "toString") fields
    then Throw (typeError "Cannot convert object to primitive value")
    else Normal (lit "[object Object]")
  end.

(** ToString of a possibly undefined value, as in a template literal. *)
Definition toStr (v : option JsVal) : Completion jsstr :=
  match v with
  | None => Normal (lit "undefined")
  | Some x => toStringV x
  end.

(** [v.k] for a parsed JSON value [v]: reading a property of [null] throws,
    a primitive or an array has none of the properties the code reads. *)
Definition getProp (v : JsVal) (k : string) : Completion (option JsVal) :=
  match v with
  | VNull => Throw (typeError "Cannot read properties of null")
  | VObj fields => Normal (snd <$> List.find (fun kv => String.eqb (fst kv) k) fields)
  | _ => Normal None
  end.

(** [obj.k = v] in an object literal: an undefined value leaves no trace in
    the JSON text or the stored record. *)
Definition setField (k : string) (v : option JsVal) (o : JsObj) : JsObj :=
  match v with
  | Some x => <[k := x]> o
  | None => o
  end.

(** [Object.assign(target, updates)] and [{...target, ...updates}]. *)
Definition assign (target updates : JsObj) : JsObj := updates ∪ target.

(** Decimal text of a number such as [response.status]. *)
Definition decimal (n : N) : jsstr := lit (NilZero.string_of_uint (N.to_uint n)).

(** White space and line terminators, as removed by [trim]. *)
Definition isJsWhitespace (c : N) : bool :=
  Encoding.inRange 9 13 c || (c =? 32) || (c =? 0xA0) || (c =? 0x1680)
  || Encoding.inRange 0x2000 0x200A c || (c =? 0x2028) || (c =? 0x2029)
  || (c =? 0x202F) || (c =? 0x205F) || (c =? 0x3000) || (c =? 0xFEFF).

(** [!content.trim()] *)
Definition isBlank (s : jsstr) : bool := forallb isJsWhitespace s.

(** [s.replace(/pat/g, rep)] for a literal, non-empty pattern and a
    replacement without "$". [skip] counts the characters of a match still to
    be dropped. *)
Fixpoint startsWith (pat s : jsstr) : bool :=
  match pat, s with
  | [], _ => true
  | p :: pat', c :: s' => (p =? c) && startsWith pat' s'
  | _ :: _, [] => false
  end.

Fixpoint replaceAllFrom (pat rep : jsstr) (skip : nat) (s : jsstr) : jsstr :=
  match s with
  | [] => []
  | c :: rest =>
    match skip with
    | S k => replaceAllFrom pat rep k rest
    | O =>
      if startsWith pat s then rep ++ replaceAllFrom pat rep (length pat - 1)%nat rest
      else c :: replaceAllFrom pat rep 0 rest
    end
  end.

Definition replaceAll (pat rep s : jsstr) : jsstr := replaceAllFrom pat rep 0 s.

(** [iso.split('T')[0]] *)
Fixpoint beforeT (iso : jsstr) : jsstr :=
  match iso with
  | [] => []
  | c :: rest => if c =? 84 then [] else c :: beforeT rest
  end.

(** ** The network *)

Record Request : Type := mkRequest {
  req_method : string;
  req_url : jsstr;
  req_headers : list (string * jsstr);
  req_body : option JsObj   (* the object given to JSON.stringify *)
}.

Record Response : Type := mkResponse {
  resp_ok : bool;
  resp_status : N;
  resp_json : Completion JsVal   (* what [await response.json()] gives *)
}.

Inductive FetchOutcome : Type :=
  | FetchRejected (e : JsError)
  | FetchResolved (r : Response).

(** The repository has two scripts that declare [class GitHubService]:
    [services/github.js], and a variant that begins with the UTF-8 safe base64
    helpers [utf8ToBase64] and [base64ToUtf8].  Both are top-level class
    declarations of the same name, so a page runs exactly one of them. *)
Inductive ServiceFile : Type := ServicesGithubJs | Utf8Variant.

(** What [app.js] runs on: the script that declared [GitHubService], and the
    remote side, a state and the answer to each request in that state. *)
Class Platform : Type := {
  script : ServiceFile;
  World : Type;
  fetch : World -> Request -> World * FetchOutcome
}.

(** ** IndexedDB object store with key path 'id' and no key generator *)

(** Keys of the modelled store are strings, the kind [generateId] makes. *)
Module Idb.

Definition validKey (v : option JsVal) : option jsstr :=
  match v with
  | Some (VStr k) => Some k
  | _ => None
  end.

Definition keyOf (record : JsObj) : option jsstr := validKey (record !! "id").

Definition dataError : JsError :=
  mkError DataError (lit "Evaluating the object store's key path did not yield a value.").

(** [store.put(value)]: the key is read from the value at the key path; a
    value without one throws DataError. *)
Definition put (store : gmap jsstr JsObj) (value : JsObj) : Completion (gmap jsstr JsObj) :=
  match keyOf value with
  | Some k => Normal (<[k := value]> store)
  | None => Throw dataError
  end.

(** Code-unit order of keys. *)
Fixpoint keyLeb (a b : jsstr) : bool :=
  match a, b with
  | [], _ => true
  | _ :: _, [] => false
  | x :: a', y :: b' => if x <? y then true else if y <? x then false else keyLeb a' b'
  end.

(** [store.getAll()]: every record, in ascending key order. *)
Definition getAll (store : gmap jsstr JsObj) : list JsObj :=
  snd <$> merge_sort (fun x y => Is_true (keyLeb (fst x) (fst y))) (map_to_list store).

(** [store.index(field).getAll(value)] for a string [value]. *)
Definition indexGetAll (field value : string) (store : gmap jsstr JsObj) : list JsObj :=
  List.filter (fun r => strictEq (r !! field) value) (getAll store).

(** Every record sits under the key its 'id' holds. *)
Definition wf (store : gmap jsstr JsObj) : Prop :=
  forall k r, store !! k = Some r -> keyOf r = Some k.

End Idb.

(** ** Application state *)

Record GitHubForm : Type := mkForm {
  f_token : jsstr;      (* #github-token *)
  f_owner : jsstr;      (* #github-owner *)
  f_repo : jsstr;       (* #github-repo *)
  f_branch : jsstr;     (* #github-branch *)
  f_path : jsstr;       (* #github-path *)
  f_message : jsstr;    (* #commit-message *)
  f_remember : bool     (* #remember-token *)
}.

(** IndexedDB success events waiting to be dispatched. *)
Inductive Callback : Type :=
  | CbReload (result : list JsObj)   (* [request.onsuccess] of loadSyncQueue *)
  | CbPurged.                        (* [request.onsuccess] of clearCompletedJobs *)

(** What [commitToGitHub] returns. *)
Record CommitResult : Type := mkResult {
  success : bool;
  data : option JsVal;
  error : option jsstr
}.

Section Model.
Context `{Platform}.

Record App : Type := mkApp {
  world : World;  (* the remote side, as far as [fetch] sees it *)
  now : jsstr;  (* [new Date().toISOString()] *)
  onLine : bool;  (* [navigator.onLine] *)
  editorValue : jsstr;  (* [this.editor.value] *)
  form : GitHubForm;  (* inputs of the GitHub settings dialog *)
  modal : option string;  (* the dialog opened by [openModal] *)
  github : JsObj;  (* [this.github] *)
  queueStore : gmap jsstr JsObj;  (* IndexedDB object store 'queue' *)
  localStorage : gmap string JsObj;  (* [localStorage]: key to the object whose JSON text is stored *)
  sessionStorage : gmap string JsObj;  (* [sessionStorage] *)
  syncQueue : list JsObj;  (* [this.syncQueue] *)
  isSyncing : bool;  (* [this.isSyncing] *)
  syncIndicator : jsstr;  (* status shown by [updateSyncIndicator] *)
  notifications : list (jsstr * jsstr);  (* messages shown by [showNotification], oldest first *)
  callbacks : list Callback;  (* IndexedDB success events not yet dispatched *)
  commitLog : list JsObj  (* ghost: jobs handed to [commitToGitHub] by the drain, oldest first *)
}.

Definition set_world (v : World) (s : App) : App :=
  {| world := v; now := now s; onLine := onLine s; editorValue := editorValue s;
     form := form s; modal := modal s; github := github s;
     queueStore := queueStore s; localStorage := localStorage s;
     sessionStorage := sessionStorage s; syncQueue := syncQueue s;
     isSyncing := isSyncing s; syncIndicator := syncIndicator s;
     notifications := notifications s; callbacks := callbacks s;
     commitLog := commitLog s |}.

Definition set_now (v : jsstr) (s : App) : App :=
  {| world := world s; now := v; onLine := onLine s; editorValue := editorValue s;
     form := form s; modal := modal s; github := github s;
     queueStore := queueStore s; localStorage := localStorage s;
     sessionStorage := sessionStorage s; syncQueue := syncQueue s;
     isSyncing := isSyncing s; syncIndicator := syncIndicator s;
     notifications := notifications s; callbacks := callbacks s;
     commitLog := commitLog s |}.

Definition set_onLine (v : bool) (s : App) : App :=
  {| world := world s; now := now s; onLine := v; editorValue := editorValue s;
     form := form s; modal := modal s; github := github s;
     queueStore := queueStore s; localStorage := localStorage s;
     sessionStorage := sessionStorage s; syncQueue := syncQueue s;
     isSyncing := isSyncing s; syncIndicator := syncIndicator s;
     notifications := notifications s; callbacks := callbacks s;
     commitLog := commitLog s |}.

Definition set_editorValue (v : jsstr) (s : App) : App :=
  {| world := world s; now := now s; onLine := onLine s; editorValue := v;
     form := form s; modal := modal s; github := github s;
     queueStore := queueStore s; localStorage := localStorage s;
     sessionStorage := sessionStorage s; syncQueue := syncQueue s;
     isSyncing := isSyncing s; syncIndicator := syncIndicator s;
     notifications := notifications s; callbacks := callbacks s;
     commitLog := commitLog s |}.

Definition set_form (v : GitHubForm) (s : App) : App :=
  {| world := world s; now := now s; onLine := onLine s;
     editorValue := editorValue s; form := v; modal := modal s; github := github s;
     queueStore := queueStore s; localStorage := localStorage s;
     sessionStorage := sessionStorage s; syncQueue := syncQueue s;
     isSyncing := isSyncing s; syncIndicator := syncIndicator s;
     notifications := notifications s; callbacks := callbacks s;
     commitLog := commitLog s |}.

Definition set_modal (v : option string) (s : App) : App :=
  {| world := world s; now := now s; onLine := onLine s;
     editorValue := editorValue s; form := form s; modal := v; github := github s;
     queueStore := queueStore s; localStorage := localStorage s;
     sessionStorage := sessionStorage s; syncQueue := syncQueue s;
     isSyncing := isSyncing s; syncIndicator := syncIndicator s;
     notifications := notifications s; callbacks := callbacks s;
     commitLog := commitLog s |}.

Definition set_github (v : JsObj) (s : App) : App :=
  {| world := world s; now := now s; onLine := onLine s;
     editorValue := editorValue s; form := form s; modal := modal s; github := v;
     queueStore := queueStore s; localStorage := localStorage s;
     sessionStorage := sessionStorage s; syncQueue := syncQueue s;
     isSyncing := isSyncing s; syncIndicator := syncIndicator s;
     notifications := notifications s; callbacks := callbacks s;
     commitLog := commitLog s |}.

Definition set_queueStore (v : gmap jsstr JsObj) (s : App) : App :=
  {| world := world s; now := now s; onLine := onLine s;
     editorValue := editorValue s; form := form s; modal := modal s;
     github := github s; queueStore := v; localStorage := localStorage s;
     sessionStorage := sessionStorage s; syncQueue := syncQueue s;
     isSyncing := isSyncing s; syncIndicator := syncIndicator s;
     notifications := notifications s; callbacks := callbacks s;
     commitLog := commitLog s |}.

Definition set_localStorage (v : gmap string JsObj) (s : App) : App :=
  {| world := world s; now := now s; onLine := onLine s;
     editorValue := editorValue s; form := form s; modal := modal s;
     github := github s; queueStore := queueStore s; localStorage := v;
     sessionStorage := sessionStorage s; syncQueue := syncQueue s;
     isSyncing := isSyncing s; syncIndicator := syncIndicator s;
     notifications := notifications s; callbacks := callbacks s;
     commitLog := commitLog s |}.

Definition set_sessionStorage (v : gmap string JsObj) (s : App) : App :=
  {| world := world s; now := now s; onLine := onLine s;
     editorValue := editorValue s; form := form s; modal := modal s;
     github := github s; queueStore := queueStore s; localStorage := localStorage s;
     sessionStorage := v; syncQueue := syncQueue s; isSyncing := isSyncing s;
     syncIndicator := syncIndicator s; notifications := notifications s;
     callbacks := callbacks s; commitLog := commitLog s |}.

Definition set_syncQueue (v : list JsObj) (s : App) : App :=
  {| world := world s; now := now s; onLine := onLine s;
     editorValue := editorValue s; form := form s; modal := modal s;
     github := github s; queueStore := queueStore s; localStorage := localStorage s;
     sessionStorage := sessionStorage s; syncQueue := v; isSyncing := isSyncing s;
     syncIndicator := syncIndicator s; notifications := notifications s;
     callbacks := callbacks s; commitLog := commitLog s |}.

Definition set_isSyncing (v : bool) (s : App) : App :=
  {| world := world s; now := now s; onLine := onLine s;
     editorValue := editorValue s; form := form s; modal := modal s;
     github := github s; queueStore := queueStore s; localStorage := localStorage s;
     sessionStorage := sessionStorage s; syncQueue := syncQueue s; isSyncing := v;
     syncIndicator := syncIndicator s; notifications := notifications s;
     callbacks := callbacks s; commitLog := commitLog s |}.

Definition set_syncIndicator (v : jsstr) (s : App) : App :=
  {| world := world s; now := now s; onLine := onLine s;
     editorValue := editorValue s; form := form s; modal := modal s;
     github := github s; queueStore := queueStore s; localStorage := localStorage s;
     sessionStorage := sessionStorage s; syncQueue := syncQueue s;
     isSyncing := isSyncing s; syncIndicator := v; notifications := notifications s;
     callbacks := callbacks s; commitLog := commitLog s |}.

Definition set_notifications (v : list (jsstr * jsstr)) (s : App) : App :=
  {| world := world s; now := now s; onLine := onLine s;
     editorValue := editorValue s; form := form s; modal := modal s;
     github := github s; queueStore := queueStore s; localStorage := localStorage s;
     sessionStorage := sessionStorage s; syncQueue := syncQueue s;
     isSyncing := isSyncing s; syncIndicator := syncIndicator s; notifications := v;
     callbacks := callbacks s; commitLog := commitLog s |}.

Definition set_callbacks (v : list Callback) (s : App) : App :=
  {| world := world s; now := now s; onLine := onLine s;
     editorValue := editorValue s; form := form s; modal := modal s;
     github := github s; queueStore := queueStore s; localStorage := localStorage s;
     sessionStorage := sessionStorage s; syncQueue := syncQueue s;
     isSyncing := isSyncing s; syncIndicator := syncIndicator s;
     notifications := notifications s; callbacks := v; commitLog := commitLog s |}.

Definition set_commitLog (v : list JsObj) (s : App) : App :=
  {| world := world s; now := now s; onLine := onLine s;
     editorValue := editorValue s; form := form s; modal := modal s;
     github := github s; queueStore := queueStore s; localStorage := localStorage s;
     sessionStorage := sessionStorage s; syncQueue := syncQueue s;
     isSyncing := isSyncing s; syncIndicator := syncIndicator s;
     notifications := notifications s; callbacks := callbacks s; commitLog := v |}.

(** ** Asynchronous code *)

(** An async function body: reads and writes of the application state, and
    suspension points.  What follows [Await] runs in a later turn of the event
    loop; an [await] of a promise that is already settled resumes in the same
    turn and is not a suspension point here. *)
Inductive Proc (A : Type) : Type :=
  | Done (c : Completion A)
  | Get (k : App -> Proc A)
  | Put (s : App) (p : Proc A)
  | Await (p : Proc A).
Arguments Done {A} c.
Arguments Get {A} k.
Arguments Put {A} s p.
Arguments Await {A} p.

Fixpoint pbind {A B} (p : Proc A) (k : A -> Proc B) : Proc B :=
  match p with
  | Done (Normal a) => k a
  | Done (Throw e) => Done (Throw e)
  | Get f => Get (fun s => pbind (f s) k)
  | Put s q => Put s (pbind q k)
  | Await q => Await (pbind q k)
  end.

#[global] Instance proc_ret : MRet Proc := fun A a => Done (Normal a).
#[global] Instance proc_bind : MBind Proc := fun A B k p => pbind p k.

Definition throw {A} (e : JsError) : Proc A := Done (Throw e).
Definition liftC {A} (c : Completion A) : Proc A := Done c.
Definition gets {A} (f : App -> A) : Proc A := Get (fun s => mret (f s)).
Definition modify (f : App -> App) : Proc unit := Get (fun s => Put (f s) (mret tt)).

(** [try { p } catch (e) { h e }] *)
Fixpoint tryCatch {A} (p : Proc A) (h : JsError -> Proc A) : Proc A :=
  match p with
  | Done (Normal a) => Done (Normal a)
  | Done (Throw e) => h e
  | Get f => Get (fun s => tryCatch (f s) h)
  | Put s q => Put s (tryCatch q h)
  | Await q => Await (tryCatch q h)
  end.

(** [for (const x of xs) { body x }] *)
Fixpoint forOf {A} (xs : list A) (body : A -> Proc unit) : Proc unit :=
  match xs with
  | [] => mret tt
  | x :: rest => body x ;; forOf rest body
  end.

(** Uninterrupted execution: the body runs to its end with no other event
    handled at its suspension points. *)
Fixpoint run {A} (p : Proc A) (s : App) : App * Completion A :=
  match p with
  | Done c => (s, c)
  | Get k => run (k s) s
  | Put s' q => run q s'
  | Await q => run q s
  end.

(** One turn: execution up to the next suspension point. *)
Fixpoint advance {A} (p : Proc A) (s : App) : App * (Completion A + Proc A) :=
  match p with
  | Done c => (s, inl c)
  | Get k => advance (k s) s
  | Put s' q => advance q s'
  | Await q => (s, inr q)
  end.

(** [await fetch(url, options)] *)
Definition awaitFetch (req : Request) : Proc Response :=
  Await (Get (fun s =>
    let '(w, out) := fetch (world s) req in
    Put (set_world w s)
      match out with
      | FetchRejected e => throw e
      | FetchResolved r => mret r
      end)).

(** [await response.json()] *)
Definition awaitJson (r : Response) : Proc JsVal := Await (liftC (resp_json r)).

(** ** GitHubService *)

Definition apiBase : jsstr := lit "https://api.github.com".

(** [`${this.baseUrl}/repos/${owner}/${repo}/contents/${path}`] *)
Definition contentsUrl (owner repo path : option JsVal) : Completion jsstr :=
  cbind (toStr owner) (fun o =>
  cbind (toStr repo) (fun r =>
  cbind (toStr path) (fun p =>
  Normal (apiBase ++ lit "/repos/" ++ o ++ lit "/" ++ r ++ lit "/contents/" ++ p)))).

(** [`token ${token}`] *)
Definition tokenHeader (token : option JsVal) : Completion jsstr :=
  cmap (fun t => lit "token " ++ t) (toStr token).

(** A parameter with the default value ['main']. *)
Definition orMain (branch : option JsVal) : option JsVal :=
  match branch with
  | None => Some (VStr (lit "main"))
  | Some b => Some b
  end.

(** [data.content.replace(/\n/g, '')] *)
Definition stripNewlines (v : JsVal) : Completion jsstr :=
  match v with
  | VStr s => Normal (List.filter (fun c => negb (c =? 10)) s)
  | _ => Throw (typeError "data.content.replace is not a function")
  end.

(** [data.decodedContent = d] *)
Definition setDecodedContent (d : jsstr) (data : JsVal) : JsVal :=
  match data with
  | VObj fields =>
    VObj (("decodedContent"%string, VStr d)
            :: List.filter (fun kv => negb (String.eqb (fst kv) "decodedContent")) fields)
  | other => other
  end.

Definition getFile (svc : ServiceFile) (token owner repo path branch : option JsVal)
  : Proc JsVal :=
  url ← liftC (contentsUrl owner repo path);
  ref ← liftC (toStr (orMain branch));
  auth ← liftC (tokenHeader token);
  response ← awaitFetch
    (mkRequest "GET" (url ++ lit "?ref=" ++ ref) [("Authorization"%string, auth)] None);
  if negb (resp_ok response) then throw (mkError ErrorE (lit "File not found"))
  else
    data ← awaitJson response;
    match svc with
    | ServicesGithubJs => mret data
    | Utf8Variant =>
      content ← liftC (getProp data "content");
      if truthy content then
        match content with
        | Some c =>
          stripped ← liftC (stripNewlines c);
          decoded ← liftC (base64ToUtf8 stripped);
          mret (setDecodedContent decoded data)
        | None => mret data
        end
      else mret data
    end.

(** The base64 text put in the request: [btoa(content)] in
    [services/github.js], [utf8ToBase64(content)] in the other file. *)
Definition encodeContent (svc : ServiceFile) (content : jsstr) : Completion jsstr :=
  match svc with
  | ServicesGithubJs => Encoding.btoa content
  | Utf8Variant => utf8ToBase64 content
  end.

(** [new Error(v)]: an undefined argument gives the empty message. *)
Definition newError (v : option JsVal) : Completion JsError :=
  match v with
  | None => Normal (mkError ErrorE [])
  | Some x => cmap (mkError ErrorE) (toStringV x)
  end.

Definition createOrUpdateFile (svc : ServiceFile)
    (token owner repo path : option JsVal) (content : jsstr)
    (message branch : option JsVal) : Proc JsVal :=
  let branch := orMain branch in
  tryCatch
    (sha ← tryCatch
             (existing ← getFile svc token owner repo path branch;
              liftC (getProp existing "sha"))
             (fun _ => mret None);
     url ← liftC (contentsUrl owner repo path);
     auth ← liftC (tokenHeader token);
     encoded ← liftC (encodeContent svc content);
     response ← awaitFetch
       (mkRequest "PUT" url
          [("Authorization"%string, auth); ("Content-Type"%string, lit "application/json")]
          (Some (setField "message" message
                  (setField "content" (Some (VStr encoded))
                    (setField "branch" branch
                      (setField "sha" sha ∅))))));
     if negb (resp_ok response) then
       error ← awaitJson response;
       m ← liftC (getProp error "message");
       e ← liftC (newError m);
       throw e
     else awaitJson response)
    (fun error => throw error).

(** ** Notifications and indicator *)

Definition showNotification (message : jsstr) (type : string) : Proc unit :=
  modify (fun s => set_notifications (notifications s ++ [(message, lit type)]) s).

Definition updateSyncIndicator (status : string) : Proc unit :=
  modify (set_syncIndicator (lit status)).

(** ** commitToGitHub *)

Definition apiHeaders (auth : jsstr) : list (string * jsstr) :=
  [("Authorization"%string, auth); ("Accept"%string, lit "application/vnd.github.v3+json")].

(** [`https://api.github.com/repos/${job.owner}/${job.repo}`] *)
Definition repoUrl (job : JsObj) : Completion jsstr :=
  cbind (toStr (job !! "owner")) (fun o =>
  cbind (toStr (job !! "repo")) (fun r =>
  Normal (apiBase ++ lit "/repos/" ++ o ++ lit "/" ++ r))).

(** [utf8ToBase64(v)] as [app.js] calls it.  The function is a global that
    only the variant script declares: with [services/github.js] loaded the
    name is unbound and the call throws a ReferenceError. *)
Definition callUtf8ToBase64 (v : option JsVal) : Completion jsstr :=
  match script with
  | Utf8Variant => cbind (toStr v) utf8ToBase64
  | ServicesGithubJs =>
    Throw (mkError ReferenceError (lit "utf8ToBase64 is not defined"))
  end.

Definition commitToGitHub (job : JsObj) : Proc CommitResult :=
  tryCatch
    (branch ←
       (if negb (truthy (job !! "branch")) then
          url ← liftC (repoUrl job);
          auth ← liftC (tokenHeader (job !! "token"));
          repoResponse ← awaitFetch (mkRequest "GET" url (apiHeaders auth) None);
          if resp_ok repoResponse then
            repoData ← awaitJson repoResponse;
            liftC (getProp repoData "default_branch")
          else mret (job !! "branch")
        else mret (job !! "branch"));
     base ← liftC (repoUrl job);
     path ← liftC (toStr (job !! "path"));
     ref ← liftC (toStr branch);
     auth ← liftC (tokenHeader (job !! "token"));
     fileResponse ← awaitFetch
       (mkRequest "GET" (base ++ lit "/contents/" ++ path ++ lit "?ref=" ++ ref)
          (apiHeaders auth) None);
     sha ←
       (if resp_ok fileResponse then
          fileData ← awaitJson fileResponse;
          liftC (getProp fileData "sha")
        else mret (Some VNull));
     content ← liftC (callUtf8ToBase64 (job !! "content"));
     let payload :=
       setField "message" (job !! "commitMessage")
         (setField "content" (Some (VStr content))
           (setField "branch" branch ∅)) in
     let payload := if truthy sha then setField "sha" sha payload else payload in
     base ← liftC (repoUrl job);
     path ← liftC (toStr (job !! "path"));
     auth ← liftC (tokenHeader (job !! "token"));
     commitResponse ← awaitFetch
       (mkRequest "PUT" (base ++ lit "/contents/" ++ path)
          (apiHeaders auth ++ [("Content-Type"%string, lit "application/json")])
          (Some payload));
     if resp_ok commitResponse then
       result ← awaitJson commitResponse;
       mret (mkResult true (Some result) None)
     else
       error ← awaitJson commitResponse;
       m ← liftC (getProp error "message");
       msg ← liftC (if truthy m then toStr m
                     else Normal (lit "HTTP " ++ decimal (resp_status commitResponse)));
       throw (mkError ErrorE msg))
    (fun error => mret (mkResult false None (Some (err_message error)))).

(** ** Sync queue management *)

(** [loadSyncQueue]: the request is made now, its success handler, which
    assigns [this.syncQueue], runs on a later turn.  The async function itself
    returns at once. *)
Definition loadSyncQueue : Proc unit :=
  modify (fun s => set_callbacks (callbacks s ++ [CbReload (Idb.getAll (queueStore s))]) s).

(** [addToSyncQueue(job)]: [store.put] throws inside the promise executor when
    the job yields no key, which rejects the promise; otherwise the promise
    resolves in the success handler, after [loadSyncQueue()]. *)
Definition addToSyncQueue (job : JsObj) : Proc unit :=
  Get (fun s =>
    match Idb.put (queueStore s) job with
    | Throw e => throw e
    | Normal store' => Put (set_queueStore store' s) (Await loadSyncQueue)
    end).

Definition jobNotFound : JsError := mkError ErrorE (lit "Job not found").

(** [updateQueueJob(jobId, updates)]: one read-write transaction, serialised
    with the other transactions on the store in creation order; its promise
    settles on a later turn. *)
Definition updateQueueJob (jobId : option JsVal) (updates : JsObj) : Proc unit :=
  Get (fun s =>
    match Idb.validKey jobId with
    | None => throw Idb.dataError
    | Some k =>
      match queueStore s !! k with
      | Some job =>
        match Idb.put (queueStore s) (assign job updates) with
        | Normal store' => Put (set_queueStore store' s) (Await (mret tt))
        | Throw e => Await (throw e)
        end
      | None => Await (throw jobNotFound)
      end
    end).

Definition isPending (job : JsObj) : bool := strictEq (job !! "status") "pending".

(** Ghost step: record that the drain hands [job] to [commitToGitHub]. *)
Definition logCommit (job : JsObj) : Proc unit :=
  modify (fun s => set_commitLog (commitLog s ++ [job]) s).

Definition syncOne (job : JsObj) : Proc unit :=
  logCommit job ;;
  result ← commitToGitHub job;
  if success result then
    updateQueueJob (job !! "id") {[ "status"%string := VStr (lit "completed") ]} ;;
    showNotification (lit "Note synced to GitHub") "success"
  else
    updateQueueJob (job !! "id")
      (setField "error" (VStr <$> error result)
         {[ "status"%string := VStr (lit "failed") ]}) ;;
    msg ← liftC (toStr (VStr <$> error result));
    showNotification (lit "Sync failed: " ++ msg) "error".

Definition processSyncQueue : Proc unit :=
  Get (fun s =>
    if isSyncing s || negb (onLine s) then mret tt
    else
      let pendingJobs := List.filter isPending (syncQueue s) in
      if (length pendingJobs =? 0)%nat then mret tt
      else
        modify (set_isSyncing true) ;;
        updateSyncIndicator "syncing" ;;
        forOf pendingJobs syncOne ;;
        loadSyncQueue ;;
        modify (set_isSyncing false) ;;
        Get (fun s' => updateSyncIndicator (if onLine s' then "online" else "offline"))).

Definition isCompleted (job : JsObj) : bool := strictEq (job !! "status") "completed".

(** [store.delete(key)] *)
Definition deleteJob (store : gmap jsstr JsObj) (job : JsObj) : gmap jsstr JsObj :=
  match Idb.keyOf job with
  | Some k => delete k store
  | None => store
  end.

(** [clearCompletedJobs]: one read-write transaction reads the completed jobs
    through the status index and deletes each by its id; the success handler
    then calls [loadSyncQueue]. *)
Definition clearCompletedJobs : Proc unit :=
  modify (fun s =>
    set_callbacks (callbacks s ++ [CbPurged])
      (set_queueStore
         (foldl deleteJob (queueStore s) (Idb.indexGetAll "status" "completed" (queueStore s)))
         s)).

(** ** Dialogs and settings *)

(** [input.value = v] *)
Definition inputValue (v : option JsVal) : Completion jsstr :=
  match v with
  | Some VNull => Normal []
  | _ => toStr v
  end.

Definition setInput (upd : jsstr -> GitHubForm -> GitHubForm) (v : option JsVal) : Proc unit :=
  text ← liftC (inputValue v);
  modify (fun s => set_form (upd text (form s)) s).

Definition loadGitHubSettings : Proc unit :=
  g ← gets github;
  setInput (fun v f => mkForm v (f_owner f) (f_repo f) (f_branch f) (f_path f) (f_message f)
                         (f_remember f)) (g !! "token") ;;
  setInput (fun v f => mkForm (f_token f) v (f_repo f) (f_branch f) (f_path f) (f_message f)
                         (f_remember f)) (g !! "owner") ;;
  setInput (fun v f => mkForm (f_token f) (f_owner f) v (f_branch f) (f_path f) (f_message f)
                         (f_remember f)) (g !! "repo") ;;
  setInput (fun v f => mkForm (f_token f) (f_owner f) (f_repo f) v (f_path f) (f_message f)
                         (f_remember f)) (g !! "branch") ;;
  setInput (fun v f => mkForm (f_token f) (f_owner f) (f_repo f) (f_branch f) v (f_message f)
                         (f_remember f)) (g !! "pathTemplate") ;;
  setInput (fun v f => mkForm (f_token f) (f_owner f) (f_repo f) (f_branch f) (f_path f) v
                         (f_remember f)) (g !! "commitMessage") ;;
  modify (fun s =>
    let f := form s in
    set_form (mkForm (f_token f) (f_owner f) (f_repo f) (f_branch f) (f_path f) (f_message f)
                (truthy (g !! "rememberToken"))) s).

Definition openModal (modalId : string) : Proc unit :=
  (if String.eqb modalId "github-modal" then loadGitHubSettings else mret tt) ;;
  modify (set_modal (Some modalId)).

Definition closeModal (modalId : string) : Proc unit := modify (set_modal None).

(** [a || 'fallback'] for strings *)
Definition orElse (a : jsstr) (fallback : string) : jsstr :=
  match a with
  | [] => lit fallback
  | _ :: _ => a
  end.

Definition saveGitHubSettings : Proc unit :=
  f ← gets form;
  let token := f_token f in
  let owner := f_owner f in
  let repo := f_repo f in
  let branch := orElse (f_branch f) "main" in
  let pathTemplate := f_path f in
  let commitMessage := f_message f in
  if negb (truthy (Some (VStr token))) || negb (truthy (Some (VStr owner)))
     || negb (truthy (Some (VStr repo)))
  then showNotification (lit "Please fill in required GitHub settings") "error"
  else
    tryCatch
      ((* Test connection before saving *)
       tryCatch
         (getFile script (Some (VStr token)) (Some (VStr owner)) (Some (VStr repo))
            (Some (VStr (lit "README.md"))) (Some (VStr branch)) ;; mret tt)
         (fun _ => mret tt) ;;
       modify (set_github
         (list_to_map
            [("token"%string, VStr token); ("owner"%string, VStr owner);
             ("repo"%string, VStr repo); ("branch"%string, VStr branch);
             ("pathTemplate"%string, VStr (orElse pathTemplate "notes/{{date}}.md"));
             ("commitMessage"%string, VStr (orElse commitMessage "Add note {{date}}"))])) ;;
       g ← gets github;
       modify (fun s =>
         set_localStorage
           (<["github-settings"%string :=
                assign g {[ "token"%string :=
                  VStr (if truthy (g !! "rememberToken") then token else []) ]}]>
              (localStorage s)) s) ;;
       closeModal "github-modal" ;;
       showNotification (lit "GitHub settings saved") "success")
      (fun _ => showNotification (lit "Invalid GitHub settings") "error").

(** [forgetToken], the user having confirmed. *)
Definition forgetToken : Proc unit :=
  modify (fun s => set_github (<["token"%string := VStr []]> (github s)) s) ;;
  modify (fun s => set_localStorage (delete "gitwrite-github"%string (localStorage s)) s) ;;
  modify (fun s => set_sessionStorage (delete "gitwrite-github"%string (sessionStorage s)) s) ;;
  modify (set_queueStore ∅) ;;
  loadGitHubSettings ;;
  loadSyncQueue ;;
  showNotification (lit "GitHub token forgotten") "success".

(** ** Saving to GitHub *)

(** [processTemplate(template)] *)
Definition processTemplate (iso : jsstr) (template : option JsVal) : Completion jsstr :=
  match template with
  | Some (VStr t) =>
    let date := beforeT iso in
    let timestamp := (fun c => if (c =? 58) || (c =? 46) then 45 else c) <$> iso in
    Normal (replaceAll (lit "{{timestamp}}") timestamp (replaceAll (lit "{{date}}") date t))
  | _ => Throw (typeError "template.replace is not a function")
  end.

Definition saveToGitHub : Proc unit :=
  tryCatch
    (s ← gets id;
     if negb (truthy (github s !! "token")) then openModal "github-modal"
     else
       let content := editorValue s in
       if isBlank content then showNotification (lit "Cannot save empty note") "error"
       else
         (* Process templates *)
         path ← liftC (processTemplate (now s) (github s !! "pathTemplate"));
         message ← liftC (processTemplate (now s) (github s !! "commitMessage"));
         showNotification (lit "Saving to GitHub...") "info" ;;
         createOrUpdateFile script (github s !! "token") (github s !! "owner")
           (github s !! "repo") (Some (VStr path)) content (Some (VStr message))
           (github s !! "branch") ;;
         showNotification (lit "Saved to GitHub successfully") "success")
    (fun error =>
       showNotification (lit "GitHub save failed: " ++ err_message error) "error" ;;
       (* Add to sync queue if offline *)
       s ← gets id;
       if negb (onLine s) then
         addToSyncQueue
           (list_to_map
              [("type"%string, VStr (lit "github"));
               ("content"%string, VStr (editorValue s));
               ("timestamp"%string, VStr (now s))]) ;;
         showNotification (lit "Added to sync queue") "warning"
       else mret tt).

(** ** Event handlers *)

Definition handleOnline : Proc unit :=
  updateSyncIndicator "online" ;; processSyncQueue.

Definition handleOffline : Proc unit := updateSyncIndicator "offline".

Definition syncNow : Proc unit :=
  s ← gets id;
  if negb (onLine s) then showNotification (lit "No internet connection") "error"
  else processSyncQueue.

(** The success handlers of IndexedDB requests. *)
Definition runCallback (cb : Callback) : Proc unit :=
  match cb with
  | CbReload result => modify (set_syncQueue result)
  | CbPurged => loadSyncQueue
  end.

(** ** Start of the page *)

Definition defaultGithub : JsObj :=
  list_to_map
    [("token"%string, VStr []); ("owner"%string, VStr []); ("repo"%string, VStr []);
     ("branch"%string, VStr []);
     ("pathTemplate"%string, VStr (lit "notes/{{date}}.md"));
     ("commitMessage"%string, VStr (lit "Add note {{date}}"));
     ("rememberToken"%string, VBool false)].

(** [restoreNote]: the settings are read under the key 'gitwrite-github'. *)
Definition restoreNote : Proc unit :=
  s ← gets id;
  match
    (match localStorage s !! "gitwrite-github"%string with
     | Some o => Some o
     | None => sessionStorage s !! "gitwrite-github"%string
     end)
  with
  | Some githubSettings => modify (set_github (assign (github s) githubSettings))
  | None => mret tt
  end.

Definition checkOnlineStatus : Proc unit :=
  s ← gets id;
  updateSyncIndicator (if onLine s then "online" else "offline").

(** The state [initializeProperties] sets up in a fresh page: what the page
    holds is reset, what the browser keeps (the stores, the remote side) is
    taken over from [s]. *)
Definition initializeProperties (s : App) : App :=
  {| world := world s; now := now s; onLine := onLine s; editorValue := [];
     form := mkForm [] [] [] [] [] [] false; modal := None; github := defaultGithub;
     queueStore := queueStore s; localStorage := localStorage s;
     sessionStorage := sessionStorage s; syncQueue := []; isSyncing := false;
     syncIndicator := []; notifications := []; callbacks := [];
     commitLog := commitLog s |}.

(** [new GitWrite()], as far as the queue and the GitHub settings go.  Opening
    the database succeeds and its handler calls [loadSyncQueue]. *)
Definition startPage (s : App) : App :=
  fst (run (loadSyncQueue ;; checkOnlineStatus ;; restoreNote) (initializeProperties s)).

(** A restart of the browser: the session storage is gone. *)
Definition restart (s : App) : App := startPage (set_sessionStorage ∅ s).

(** ** The event loop *)

(** The page between two turns: its state, the suspended drain passes and
    the suspended saves (of a note or of the settings). *)
Record Sys : Type := mkSys {
  state : App;
  drains : list (Proc unit);
  saves : list (Proc unit)
}.

Inductive Event : Type :=
  | EvOnline                   (* window 'online' *)
  | EvOffline                  (* window 'offline' *)
  | EvSyncNow                  (* click on #sync-now *)
  | EvStartupTimer             (* the timer of startAutosave: a bare processSyncQueue() *)
  | EvResumeDrain (i : nat)    (* what drain [i] awaits has settled *)
  | EvSaveGitHub               (* click on #save-github *)
  | EvResumeSave (i : nat)     (* what save [i] awaits has settled *)
  | EvCallback (i : nat)       (* a success event of IndexedDB is dispatched *)
  | EvPurgeTimer               (* the interval of startAutosave *)
  | EvForgetToken              (* click on #forget-token, confirmed *)
  | EvSaveSettings             (* click on #save-github-settings *)
  | EvForm (f : GitHubForm)    (* typing in the settings dialog *)
  | EvEdit (text : jsstr)      (* typing in the editor *)
  | EvClock (iso : jsstr)      (* time passes *)
  | EvWorld (w : World).       (* the remote side changes *)

(** Run the first turn of a handler; what it leaves suspended is parked. *)
Definition startDrain (p : Proc unit) (sys : Sys) : Sys :=
  match advance p (state sys) with
  | (s, inl _) => mkSys s (drains sys) (saves sys)
  | (s, inr q) => mkSys s (drains sys ++ [q]) (saves sys)
  end.

Definition startSave (p : Proc unit) (sys : Sys) : Sys :=
  match advance p (state sys) with
  | (s, inl _) => mkSys s (drains sys) (saves sys)
  | (s, inr q) => mkSys s (drains sys) (saves sys ++ [q])
  end.

(** Run a handler that never suspends. *)
Definition runNow (p : Proc unit) (sys : Sys) : Sys :=
  mkSys (fst (run p (state sys))) (drains sys) (saves sys).

Definition updApp (f : App -> App) (sys : Sys) : Sys :=
  mkSys (f (state sys)) (drains sys) (saves sys).

Definition step (ev : Event) (sys : Sys) : option Sys :=
  match ev with
  | EvOnline => Some (startDrain handleOnline (updApp (set_onLine true) sys))
  | EvOffline => Some (runNow handleOffline (updApp (set_onLine false) sys))
  | EvSyncNow => Some (startDrain syncNow sys)
  | EvStartupTimer => Some (startDrain processSyncQueue sys)
  | EvResumeDrain i =>
    match drains sys !! i with
    | Some p =>
      match advance p (state sys) with
      | (s, inl _) => Some (mkSys s (delete i (drains sys)) (saves sys))
      | (s, inr q) => Some (mkSys s (<[i := q]> (drains sys)) (saves sys))
      end
    | None => None
    end
  | EvSaveGitHub => Some (startSave saveToGitHub sys)
  | EvResumeSave i =>
    match saves sys !! i with
    | Some p =>
      match advance p (state sys) with
      | (s, inl _) => Some (mkSys s (drains sys) (delete i (saves sys)))
      | (s, inr q) => Some (mkSys s (drains sys) (<[i := q]> (saves sys)))
      end
    | None => None
    end
  | EvCallback i =>
    match callbacks (state sys) !! i with
    | Some cb =>
      Some (runNow (runCallback cb)
              (updApp (fun s => set_callbacks (delete i (callbacks s)) s) sys))
    | None => None
    end
  | EvPurgeTimer => Some (runNow clearCompletedJobs sys)
  | EvForgetToken => Some (runNow forgetToken sys)
  | EvSaveSettings => Some (startSave saveGitHubSettings sys)
  | EvForm f => Some (updApp (set_form f) sys)
  | EvEdit text => Some (updApp (set_editorValue text) sys)
  | EvClock iso => Some (updApp (set_now iso) sys)
  | EvWorld w => Some (updApp (set_world w) sys)
  end.

(** The page right after it was loaded over the stores of [s]. *)
Definition loaded (s : App) : Sys := mkSys (startPage s) [] [].

Inductive reachable : Sys -> Prop :=
  | reach_loaded s : reachable (loaded s)
  | reach_step sys ev sys' : reachable sys -> step ev sys = Some sys' -> reachable sys'.

(** Events handled one after the other. *)
Fixpoint steps (evs : list Event) (sys : Sys) : option Sys :=
  match evs with
  | [] => Some sys
  | ev :: rest =>
    match step ev sys with
    | Some sys' => steps rest sys'
    | None => None
    end
  end.

End Model.

Arguments Done {H A} c.
Arguments Get {H A} k.
Arguments Put {H A} s p.
Arguments Await {H A} p.

(** ** Predicates used to state the properties *)

Section Predicates.
Context `{Platform}.

(** [always Q p]: whatever states [p] reads along the way, in whatever turns
    it runs, it ends in a completion that satisfies [Q]. *)
Fixpoint always {A} (Q : Completion A -> Prop) (p : Proc A) : Prop :=
  match p with
  | Done c => Q c
  | Get k => forall s, always Q (k s)
  | Put _ q => always Q q
  | Await q => always Q q
  end.

(** [stepsIn R p s0]: started in [s0], every state [p] writes is related by
    [R] to the state before it; across a suspension point the state may have
    changed in any way.  [Safe R p]: this holds from every state. *)
Fixpoint stepsIn (R : relation App) {A} (p : Proc A) (s0 : App) : Prop :=
  match p with
  | Done _ => True
  | Get k => stepsIn R (k s0) s0
  | Put s' q => R s0 s' /\ stepsIn R q s'
  | Await q => forall s1, stepsIn R q s1
  end.

Definition Safe (R : relation App) {A} (p : Proc A) : Prop := forall s, stepsIn R p s.

(** The shape of what [commitToGitHub] returns: [{ success: true, data }] or
    [{ success: false, error }]. *)
Definition isResultRecord (r : CommitResult) : Prop :=
  (success r = true /\ is_Some (data r) /\ error r = None) \/
  (success r = false /\ is_Some (error r) /\ data r = None).

(** [r] is a result the publisher can give for [job]. *)
Definition publishes (job : JsObj) (r : CommitResult) : Prop :=
  exists s0, snd (run (commitToGitHub job) s0) = Normal r.

(** Only the remote side differs. *)
Definition worldOnly (s s' : App) : Prop := exists w, s' = set_world w s.

(** The guard flag is left alone. *)
Definition sameFlag (s s' : App) : Prop := isSyncing s' = isSyncing s.

(** Neither the store nor the flag nor the ghost log is touched. *)
Definition sameQueue (s s' : App) : Prop :=
  queueStore s' = queueStore s /\ syncQueue s' = syncQueue s /\
  isSyncing s' = isSyncing s /\ commitLog s' = commitLog s /\
  callbacks s' = callbacks s /\ onLine s' = onLine s.

(** The store is left alone. *)
Definition sameStore (s s' : App) : Prop := queueStore s' = queueStore s.

(** The storage entry that [restoreNote] reads is left alone. *)
Definition sameSettingsKey (s s' : App) : Prop :=
  localStorage s' !! "gitwrite-github"%string = localStorage s !! "gitwrite-github"%string /\
  sessionStorage s' = sessionStorage s.

(** The in-memory queue is what the store holds. *)
Definition coherent (s : App) : Prop :=
  Idb.wf (queueStore s) /\ syncQueue s = Idb.getAll (queueStore s).

(** The record a job becomes once [updateQueueJob] has applied the outcome. *)
Definition settle (r : CommitResult) (job : JsObj) : JsObj :=
  if success r then assign job {[ "status"%string := VStr (lit "completed") ]}
  else assign job (setField "error" (VStr <$> error r)
                     {[ "status"%string := VStr (lit "failed") ]}).

End Predicates.

Section DrainGuard.
Context `{Platform}.

(** [released p s0]: the flag is down in [s0], and [p] runs to its end in
    this turn without raising it. *)
Fixpoint released {A} (p : Proc A) (s0 : App) : Prop :=
  match p with
  | Done _ => True
  | Get k => released (k s0) s0
  | Put s' q => isSyncing s' = false /\ released q s'
  | Await _ => False
  end.

(** [holding p s0]: the flag is up in [s0]; [p] keeps it up across every
    suspension point, resumes only with the flag still up, and once it lowers
    the flag it ends in the same turn. *)
Fixpoint holding {A} (p : Proc A) (s0 : App) : Prop :=
  match p with
  | Done _ => True
  | Get k => holding (k s0) s0
  | Put s' q => if isSyncing s' then holding q s' else released q s'
  | Await q => forall s1, isSyncing s1 = true -> holding q s1
  end.

Definition Holding {A} (p : Proc A) : Prop := forall s, isSyncing s = true -> holding p s.

(** What holds between any two turns: a suspended save never touches the
    flag, and a suspended drain pass is alone and holds the flag. *)
Definition guarded (sys : Sys) : Prop :=
  Forall (Safe sameFlag) (saves sys) /\
  (drains sys = [] \/
   exists q, drains sys = [q] /\ isSyncing (state sys) = true /\ Holding q).

End DrainGuard.

(** ** Sample remote sides, jobs and states *)

Definition okResponse : Response := mkResponse true 200 (Normal (VObj [])).

(** A remote side that accepts every request. *)
Definition accepting (svc : ServiceFile) : Platform :=
  {| script := svc; World := unit; fetch := fun w _ => (w, FetchResolved okResponse) |}.

(** No network path: every request fails. *)
Definition failedToFetch : JsError := typeError "Failed to fetch".

Definition unreachable (svc : ServiceFile) : Platform :=
  {| script := svc; World := unit; fetch := fun w _ => (w, FetchRejected failedToFetch) |}.

(** A remote side that accepts and keeps every request, newest first. *)
Definition recording (svc : ServiceFile) : Platform :=
  {| script := svc; World := list Request;
     fetch := fun w req => (req :: w, FetchResolved okResponse) |}.

(** A remote side that answers a PUT at [url] with 409 and the message
    "Conflict", and accepts everything else. *)
Definition conflictResponse : Response :=
  mkResponse false 409 (Normal (VObj [("message"%string, VStr (lit "Conflict"))])).

Definition conflictAt (svc : ServiceFile) (url : string) : Platform :=
  {| script := svc; World := unit;
     fetch := fun w req =>
       if String.eqb (req_method req) "PUT" && jsstr_eqb (req_url req) (lit url)
       then (w, FetchResolved conflictResponse)
       else (w, FetchResolved okResponse) |}.

(** A complete job record. *)
Definition sampleJob (id path content status : string) : JsObj :=
  list_to_map
    [("id"%string, VStr (lit id)); ("owner"%string, VStr (lit "o"));
     ("repo"%string, VStr (lit "r")); ("branch"%string, VStr (lit "main"));
     ("path"%string, VStr (lit path)); ("content"%string, VStr (lit content));
     ("commitMessage"%string, VStr (lit "Add note")); ("token"%string, VStr (lit "t"));
     ("status"%string, VStr (lit status));
     ("createdAt"%string, VStr (lit "2025-01-01T00:00:00.000Z"))].

Definition jobA : JsObj := sampleJob "a" "notes/a.md" "first" "pending".
Definition jobB : JsObj := sampleJob "b" "notes/b.md" "second" "pending".
Definition jobF : JsObj := sampleJob "f" "notes/f.md" "old" "failed".
Definition jobC : JsObj := sampleJob "c" "notes/c.md" "done" "completed".

Definition storeOf (jobs : list JsObj) : gmap jsstr JsObj :=
  foldr (fun job store => match Idb.keyOf job with
                          | Some k => <[k := job]> store
                          | None => store
                          end) ∅ jobs.

Definition sampleGithub : JsObj :=
  list_to_map
    [("token"%string, VStr (lit "t")); ("owner"%string, VStr (lit "o"));
     ("repo"%string, VStr (lit "r")); ("branch"%string, VStr (lit "main"));
     ("pathTemplate"%string, VStr (lit "notes/{{date}}.md"));
     ("commitMessage"%string, VStr (lit "Add note {{date}}"));
     ("rememberToken"%string, VBool false)].

(** A page that is online and idle, with GitHub configured, [text] in the
    editor and [jobs] in the store and in memory. *)
Definition pageWith (P : Platform) (w : @World P) (online : bool) (text : string)
    (jobs : list JsObj) : @App P :=
  {| world := w; now := lit "2025-01-02T03:04:05.678Z"; onLine := online;
     editorValue := lit text; form := mkForm [] [] [] [] [] [] false; modal := None;
     github := sampleGithub; queueStore := storeOf jobs;
     localStorage := ∅; sessionStorage := ∅; syncQueue := Idb.getAll (storeOf jobs);
     isSyncing := false; syncIndicator := lit (if online then "online" else "offline");
     notifications := []; callbacks := []; commitLog := [] |}.

(** The settings dialog filled in, with "remember" ticked. *)
Definition filledForm : GitHubForm :=
  mkForm (lit "t0k3n") (lit "alice") (lit "notes") (lit "main")
         (lit "journal/{{date}}.md") (lit "Journal {{date}}") true.

(** ** Sample pages and observations *)

(** Offline, "draft" in the editor, an empty queue. *)
Definition offlineDraft (svc : ServiceFile) : @App (unreachable svc) :=
  pageWith (unreachable svc) tt false "draft" [].

(** Online, the remote side refusing the note of the day. *)
Definition noteUrl : string := "https://api.github.com/repos/o/r/contents/notes/2025-01-02.md".

Definition conflictDraft (svc : ServiceFile) : @App (conflictAt svc noteUrl) :=
  pageWith (conflictAt svc noteUrl) tt true "draft" [].

Definition recordingPage (svc : ServiceFile) : @App (recording svc) :=
  pageWith (recording svc) [] true "" [].

(** The 'content' field of the newest request. *)
Definition putContent (w : list Request) : option JsVal :=
  req ← head w; body ← req_body req; body !! "content"%string.

(** An interactive publish of [content] on a page that loaded [svc]. *)
Definition publishTo (svc : ServiceFile) (content : jsstr) : @Proc (recording svc) JsVal :=
  createOrUpdateFile (@script (recording svc)) (Some (VStr (lit "t"))) (Some (VStr (lit "o")))
    (Some (VStr (lit "r"))) (Some (VStr (lit "notes/a.md"))) content
    (Some (VStr (lit "Add note"))) (Some (VStr (lit "main"))).


Definition pageAB : @App (accepting Utf8Variant) := pageWith (accepting Utf8Variant) tt true "" [jobA; jobB; jobF].
Definition pageACF : @App (accepting Utf8Variant) := pageWith (accepting Utf8Variant) tt true "" [jobA; jobC; jobF].

Definition urlA : string := "https://api.github.com/repos/o/r/contents/notes/a.md".

Definition pageConflict : @App (conflictAt Utf8Variant urlA) :=
  pageWith (conflictAt Utf8Variant urlA) tt true "" [jobA; jobB].

(** A page freshly loaded over a store that holds [jobs]. *)
Definition drainOf (P : Platform) (w : @World P) (jobs : list JsObj) : @Sys P :=
  @loaded P (pageWith P w true "" jobs).

(** What is looked at after a run of events: the number of suspended drain
    passes, the flag, the number of pending success events, which in-memory
    and which stored jobs are pending, and how many jobs were handed to the
    publisher. *)
Definition observe {P : Platform} (sys : @Sys P)
  : nat * bool * nat * list bool * list bool * nat :=
  (length (drains sys), isSyncing (state sys), length (callbacks (state sys)),
   isPending <$> syncQueue (state sys),
   isPending <$> Idb.getAll (queueStore (state sys)),
   length (commitLog (state sys))).

(** The queue was loaded, then a drain was started: it is suspended on its
    first request. *)
Definition sysDraining : @Sys (accepting Utf8Variant) :=
  default (drainOf (accepting Utf8Variant) tt [jobA])
          (steps [EvCallback 0; EvStartupTimer] (drainOf (accepting Utf8Variant) tt [jobA])).

Definition settingsFields : list string :=
  ["token"; "owner"; "repo"; "branch"; "pathTemplate"; "commitMessage"]%string.

(** The settings dialog filled in on a page that has no settings yet. *)
Definition settingsPage (svc : ServiceFile) : @App (accepting svc) :=
  set_form filledForm (pageWith (accepting svc) tt true "" []).

(** ** The requests of the GitHub calls, for string arguments *)

Definition fileUrl (owner repo path : jsstr) : jsstr :=
  apiBase ++ lit "/repos/" ++ owner ++ lit "/" ++ repo ++ lit "/contents/" ++ path.

(** The GET of [getFile]. *)
Definition getFileRequest (token owner repo path branch : jsstr) : Request :=
  mkRequest "GET" (fileUrl owner repo path ++ lit "?ref=" ++ branch)
    [("Authorization"%string, lit "token " ++ token)] None.

(** The PUT of [createOrUpdateFile]; [sha] is what the probe found. *)
Definition putFileRequest (token owner repo path encoded message branch : jsstr)
    (sha : option JsVal) : Request :=
  mkRequest "PUT" (fileUrl owner repo path)
    [("Authorization"%string, lit "token " ++ token);
     ("Content-Type"%string, lit "application/json")]
    (Some (setField "message" (Some (VStr message))
            (setField "content" (Some (VStr encoded))
              (setField "branch" (Some (VStr branch))
                (setField "sha" sha ∅))))).

(** A remote side that has no file and refuses every write: 404 with the
    message "Not Found" to every request. *)
Definition notFoundResponse : Response :=
  mkResponse false 404 (Normal (VObj [("message"%string, VStr (lit "Not Found"))])).

Definition missing (svc : ServiceFile) : Platform :=
  {| script := svc; World := unit; fetch := fun w _ => (w, FetchResolved notFoundResponse) |}.

(** A remote side that answers every request with 200 and the JSON [body]. *)
Definition serving (svc : ServiceFile) (body : JsVal) : Platform :=
  {| script := svc; World := unit;
     fetch := fun w _ => (w, FetchResolved (mkResponse true 200 (Normal body))) |}.

(** The requests of [commitToGitHub] for a job whose fields are strings. *)
Definition repoRequest (token owner repo : jsstr) : Request :=
  mkRequest "GET" (apiBase ++ lit "/repos/" ++ owner ++ lit "/" ++ repo)
    (apiHeaders (lit "token " ++ token)) None.

Definition commitProbeRequest (token owner repo path branch : jsstr) : Request :=
  mkRequest "GET"
    ((apiBase ++ lit "/repos/" ++ owner ++ lit "/" ++ repo) ++ lit "/contents/" ++ path
       ++ lit "?ref=" ++ branch)
    (apiHeaders (lit "token " ++ token)) None.

Definition commitPutRequest (token owner repo path encoded message : jsstr)
    (branch : option JsVal) (sha : option JsVal) : Request :=
  mkRequest "PUT"
    ((apiBase ++ lit "/repos/" ++ owner ++ lit "/" ++ repo) ++ lit "/contents/" ++ path)
    (apiHeaders (lit "token " ++ token) ++ [("Content-Type"%string, lit "application/json")])
    (Some (let payload :=
             setField "message" (Some (VStr message))
               (setField "content" (Some (VStr encoded))
                 (setField "branch" branch ∅)) in
           if truthy sha then setField "sha" sha payload else payload)).

(** A job record with the fields [commitToGitHub] reads. *)
Definition hasJobFields (job : JsObj) (token owner repo path content message : jsstr) : Prop :=
  job !! "token"%string = Some (VStr token) /\ job !! "owner"%string = Some (VStr owner) /\
  job !! "repo"%string = Some (VStr repo) /\ job !! "path"%string = Some (VStr path) /\
  job !! "content"%string = Some (VStr content) /\
  job !! "commitMessage"%string = Some (VStr message).

(** ** Readings of the state used to state properties *)

(** [this.github] holds a string under each field of the settings dialog. *)
Definition stringSettings (g : JsObj) (token owner repo branch path message : jsstr) : Prop :=
  g !! "token"%string = Some (VStr token) /\ g !! "owner"%string = Some (VStr owner) /\
  g !! "repo"%string = Some (VStr repo) /\ g !! "branch"%string = Some (VStr branch) /\
  g !! "pathTemplate"%string = Some (VStr path) /\
  g !! "commitMessage"%string = Some (VStr message).

(** The notification a drain pass shows for a job with outcome [r]. *)
Definition syncNotice (r : CommitResult) : jsstr * jsstr :=
  if success r then (lit "Note synced to GitHub", lit "success")
  else (lit "Sync failed: " ++ default (lit "undefined") (error r), lit "error").

Section MoreRelations.
Context `{Platform}.

(** The stores and the settings are left alone. *)
Definition sameStores (s s' : App) : Prop :=
  queueStore s' = queueStore s /\ github s' = github s /\
  localStorage s' = localStorage s /\ sessionStorage s' = sessionStorage s.

End MoreRelations.

(** ** Text of a note: title and word count *)

(** [s.trim()] *)
Fixpoint trimStart (s : jsstr) : jsstr :=
  match s with
  | [] => []
  | c :: rest => if isJsWhitespace c then trimStart rest else s
  end.

Definition trimEnd (s : jsstr) : jsstr := rev (trimStart (rev s)).

Definition trim (s : jsstr) : jsstr := trimEnd (trimStart s).

(** [content.split('\n')[0]] *)
Fixpoint firstLine (s : jsstr) : jsstr :=
  match s with
  | [] => []
  | c :: rest => if c =? 10 then [] else c :: firstLine rest
  end.

(** [generateTitle(content)] *)
Definition generateTitle (content : jsstr) : jsstr :=
  let line := trim (firstLine content) in
  if (50 <? length line)%nat then take 50 line ++ lit "..."
  else match line with
       | [] => lit "Untitled"
       | _ :: _ => line
       end.

(** [s.split(/\s+/)]: the pieces between maximal runs of white space, the
    empty pieces before a leading and after a trailing run included.  [cur] is
    the piece being read, [skipping] says that the last character was white
    space. *)
Fixpoint splitWsFrom (skipping : bool) (cur : jsstr) (s : jsstr) : list jsstr :=
  match s with
  | [] => [cur]
  | c :: rest =>
    if isJsWhitespace c then
      if skipping then splitWsFrom true cur rest
      else cur :: splitWsFrom true [] rest
    else splitWsFrom false (cur ++ [c]) rest
  end.

Definition splitWs (s : jsstr) : list jsstr := splitWsFrom false [] s.

(** [text.trim().split(/\s+/).filter(word => word.length > 0).length] *)
Definition wordCount (text : jsstr) : nat :=
  length (List.filter (fun word => (0 <? length word)%nat) (splitWs (trim text))).

(** The number of maximal runs of characters that are not white space;
    [inWord] says that the last character was not white space. *)
Fixpoint countRuns (inWord : bool) (s : jsstr) : nat :=
  match s with
  | [] => 0%nat
  | c :: rest =>
    if isJsWhitespace c then countRuns false rest
    else ((if inWord then 0 else 1) + countRuns true rest)%nat
  end.

(** The text [updateWordCount] shows. *)
Definition wordCountLabel (text : jsstr) : jsstr :=
  let words := wordCount text in
  if (words =? 1)%nat then lit "1 word" else decimal (N.of_nat words) ++ lit " words".

(** [iso.replace(/[:.]/g, '-')] *)
Definition fileStamp (iso : jsstr) : jsstr :=
  (fun c => if (c =? 58) || (c =? 46) then 45 else c) <$> iso.

(** The value a textarea reports: its newlines are normalised, CR LF and a
    lone CR both reading as LF. *)
Fixpoint normalizeNewlines (s : jsstr) : jsstr :=
  match s with
  | [] => []
  | c :: rest =>
    if c =? 13 then
      10 :: match rest with
            | d :: rest' => if d =? 10 then normalizeNewlines rest' else normalizeNewlines rest
            | [] => []
            end
    else c :: normalizeNewlines rest
  end.

(** ** The writing desk: editor, current note, notes store, timer *)

(** What settles a promise that a success handler resolves: when the handler
    throws before it resolves, the promise stays pending. *)
Inductive Settled (A : Type) : Type :=
  | Fulfilled (a : A)
  | Rejected (e : JsError)
  | StaysPending.
Arguments Fulfilled {A} a.
Arguments Rejected {A} e.
Arguments StaysPending {A}.

Module Desk.

(** The part of the page that the note functions of [app.js] read and write.
    The database is open.  A function that awaits only the completion of a
    request it has already made is run to its end. *)
Record State : Type := mkState {
  editor : jsstr;                      (* [this.editor.value] *)
  currentNote : JsObj;                 (* [this.currentNote] *)
  notes : gmap jsstr JsObj;            (* IndexedDB object store 'notes', key path 'id' *)
  notices : list (jsstr * jsstr);      (* messages of [showNotification], oldest first *)
  sidebarOpen : bool;                  (* class 'open' of the sidebar *)
  isRunning : bool;                    (* [this.timerState.isRunning] *)
  timeLeft : Z;                        (* [this.timerState.timeLeft] *)
  ticking : bool;                      (* the interval of [startTimer] is set *)
  timerDuration : Z;                   (* [this.settings.timerDuration] *)
  timerText : jsstr;                   (* [this.timer.textContent] *)
  downloads : list (jsstr * jsstr)     (* files handed to the browser: name, content *)
}.

Definition set_editor (v : jsstr) (d : State) : State :=
  mkState v (currentNote d) (notes d) (notices d) (sidebarOpen d) (isRunning d) (timeLeft d)
    (ticking d) (timerDuration d) (timerText d) (downloads d).

Definition set_currentNote (v : JsObj) (d : State) : State :=
  mkState (editor d) v (notes d) (notices d) (sidebarOpen d) (isRunning d) (timeLeft d)
    (ticking d) (timerDuration d) (timerText d) (downloads d).

Definition set_notes (v : gmap jsstr JsObj) (d : State) : State :=
  mkState (editor d) (currentNote d) v (notices d) (sidebarOpen d) (isRunning d) (timeLeft d)
    (ticking d) (timerDuration d) (timerText d) (downloads d).

Definition showNotification (message : jsstr) (type : string) (d : State) : State :=
  mkState (editor d) (currentNote d) (notes d) (notices d ++ [(message, lit type)])
    (sidebarOpen d) (isRunning d) (timeLeft d) (ticking d) (timerDuration d) (timerText d)
    (downloads d).

Definition closeSidebar (d : State) : State :=
  mkState (editor d) (currentNote d) (notes d) (notices d) false (isRunning d) (timeLeft d)
    (ticking d) (timerDuration d) (timerText d) (downloads d).

Definition set_timer (running : bool) (left : Z) (tick : bool) (d : State) : State :=
  mkState (editor d) (currentNote d) (notes d) (notices d) (sidebarOpen d) running left tick
    (timerDuration d) (timerText d) (downloads d).

Definition set_timerText (v : jsstr) (d : State) : State :=
  mkState (editor d) (currentNote d) (notes d) (notices d) (sidebarOpen d) (isRunning d)
    (timeLeft d) (ticking d) (timerDuration d) v (downloads d).

Definition addDownload (name content : jsstr) (d : State) : State :=
  mkState (editor d) (currentNote d) (notes d) (notices d) (sidebarOpen d) (isRunning d)
    (timeLeft d) (ticking d) (timerDuration d) (timerText d) (downloads d ++ [(name, content)]).

(** [{ id: null, content: '', timestamp: null, title: '' }] *)
Definition emptyNote : JsObj :=
  list_to_map [("id"%string, VNull); ("content"%string, VStr []);
               ("timestamp"%string, VNull); ("title"%string, VStr [])].

(** [textarea.value = v], then what the textarea reports. *)
Definition setEditorValue (v : option JsVal) (d : State) : Completion State :=
  cmap (fun text => set_editor (normalizeNewlines text) d) (inputValue v).

(** The user has changed the text to [raw]; the input event runs
    [handleEditorInput]. *)
Definition handleEditorInput (raw : jsstr) (d : State) : State :=
  let d1 := set_editor (normalizeNewlines raw) d in
  set_currentNote (<["content"%string := VStr (editor d1)]> (currentNote d1)) d1.

(** [this.currentNote.id || this.generateId()]; [newId] is what
    [generateId()] returns when it is called. *)
Definition noteId (newId : jsstr) (current : JsObj) : JsVal :=
  match current !! "id"%string with
  | Some v => if truthy (Some v) then v else VStr newId
  | None => VStr newId
  end.

(** The object literal of [autosaveNote]. *)
Definition noteRecord (id : JsVal) (content iso : jsstr) : JsObj :=
  list_to_map
    [("id"%string, id); ("content"%string, VStr content); ("timestamp"%string, VStr iso);
     ("title"%string, VStr (generateTitle content));
     ("wordCount"%string, VNum (Z.of_nat (wordCount content)))].

(** [autosaveNote] at the time [iso]. *)
Definition autosaveNote (iso newId : jsstr) (d : State) : State * Completion unit :=
  if isBlank (editor d) then (d, Normal tt)
  else
    let note := noteRecord (noteId newId (currentNote d)) (editor d) iso in
    let d1 := set_currentNote note d in
    match Idb.put (notes d1) note with
    | Normal store => (set_notes store d1, Normal tt)
    | Throw e => (d1, Throw e)
    end.

(** [newNote]: the autosave is started and not awaited. *)
Definition newNote (iso newId : jsstr) (d : State) : State :=
  let d1 := if negb (isBlank (editor d)) then fst (autosaveNote iso newId d) else d in
  showNotification (lit "New note started") "success"
    (set_editor [] (set_currentNote emptyNote d1)).

Definition noteNotFound : JsError := mkError ErrorE (lit "Note not found").

(** [loadNote(noteId)] *)
Definition loadNote (noteId : option JsVal) (d : State) : State * Settled JsObj :=
  match Idb.validKey noteId with
  | None => (d, Rejected Idb.dataError)
  | Some k =>
    match notes d !! k with
    | Some note =>
      let d1 := set_currentNote note d in
      match setEditorValue (note !! "content"%string) d1 with
      | Normal d2 => (closeSidebar d2, Fulfilled note)
      | Throw _ => (d1, StaysPending)
      end
    | None => (d, Rejected noteNotFound)
    end
  end.

(** [deleteNote(noteId)]; [confirmed] is the answer to the question. *)
Definition deleteNote (confirmed : bool) (noteId : option JsVal) (d : State)
  : State * Completion unit :=
  if negb confirmed then (d, Normal tt)
  else
    match Idb.validKey noteId with
    | None => (d, Throw Idb.dataError)
    | Some k =>
      (showNotification (lit "Note deleted") "success" (set_notes (delete k (notes d)) d),
       Normal tt)
    end.

(** [handleBeforeUnload]: whether leaving the page is held up. *)
Definition handleBeforeUnload (d : State) : bool :=
  negb (isBlank (editor d))
  && negb match currentNote d !! "content"%string with
          | Some (VStr c) => jsstr_eqb (editor d) c
          | _ => false
          end.

(** [saveLocal] *)
Definition saveLocal (iso : jsstr) (d : State) : State :=
  let content := trim (editor d) in
  if negb (truthy (Some (VStr content))) then showNotification (lit "Nothing to save") "warning" d
  else
    showNotification (lit "Note downloaded successfully") "success"
      (addDownload (lit "note-" ++ fileStamp iso ++ lit ".md") content d).

(** [padStart(2, '0')] *)
Definition padStart2 (s : jsstr) : jsstr := replicate (2 - length s) 48 ++ s.

(** [updateTimerDisplay]: the text; the division rounds down, the remainder
    has the sign of [timeLeft]. *)
Definition timerDisplay (left : Z) : jsstr :=
  lit (NilZero.string_of_int (Z.to_int (left / 60)%Z)) ++ [58]
  ++ padStart2 (lit (NilZero.string_of_int (Z.to_int (Z.rem left 60)))).

Definition updateTimerDisplay (d : State) : State := set_timerText (timerDisplay (timeLeft d)) d.

Definition startTimer (d : State) : State :=
  updateTimerDisplay (set_timer true (timerDuration d * 60)%Z true d).

Definition stopTimer (d : State) : State := set_timer false (timeLeft d) false d.

Definition toggleTimer (d : State) : State :=
  if isRunning d then stopTimer d else startTimer d.

Definition timerFinished (iso newId : jsstr) (d : State) : State :=
  let d1 := showNotification (lit "Timer finished! Great job writing!") "success" (stopTimer d) in
  if negb (isBlank (editor d1)) then fst (autosaveNote iso newId d1) else d1.

(** One firing of the interval of [startTimer]. *)
Definition tick (iso newId : jsstr) (d : State) : State :=
  let d1 := updateTimerDisplay (set_timer (isRunning d) (timeLeft d - 1)%Z (ticking d) d) in
  if (timeLeft d1 <=? 0)%Z then timerFinished iso newId d1 else d1.

(** The desk of a page that has just been loaded over the notes of [store]. *)
Definition fresh (store : gmap jsstr JsObj) (duration : Z) : State :=
  mkState [] emptyNote store [] false false (15 * 60)%Z false duration [] [].

Inductive Event : Type :=
  | Input (raw : jsstr)                          (* the user edits the text *)
  | Autosave (iso newId : jsstr)                 (* the timeout of scheduleAutosave *)
  | NewNote (iso newId : jsstr)                  (* #new-note, Ctrl+N *)
  | LoadNote (noteId : option JsVal)             (* "Open" in the history *)
  | DeleteNote (confirmed : bool) (noteId : option JsVal)   (* "Delete" in the history *)
  | SaveLocal (iso : jsstr)                      (* #save-local, Ctrl+Shift+S *)
  | ToggleTimer                                  (* #timer-toggle *)
  | Tick (iso newId : jsstr).                    (* the interval fires *)

Definition step (ev : Event) (d : State) : State :=
  match ev with
  | Input raw => handleEditorInput raw d
  | Autosave iso newId => fst (autosaveNote iso newId d)
  | NewNote iso newId => newNote iso newId d
  | LoadNote noteId => fst (loadNote noteId d)
  | DeleteNote confirmed noteId => fst (deleteNote confirmed noteId d)
  | SaveLocal iso => saveLocal iso d
  | ToggleTimer => toggleTimer d
  | Tick iso newId => if ticking d then tick iso newId d else d
  end.

(** A note as [autosaveNote] writes it. *)
Definition savedNote (k : jsstr) (note : JsObj) : Prop :=
  exists content iso,
    note = noteRecord (VStr k) content iso /\
    isBlank content = false /\ normalizeNewlines content = content.

(** A notes store that only [autosaveNote] has written to. *)
Definition savedStore (store : gmap jsstr JsObj) : Prop :=
  forall k note, store !! k = Some note -> savedNote k note.

(** What holds of the desk between two events: the store holds saved notes,
    the editor reports normalised text, and the content of the current note
    is that text. *)
Definition tidy (d : State) : Prop :=
  savedStore (notes d) /\ normalizeNewlines (editor d) = editor d /\
  currentNote d !! "content"%string = Some (VStr (editor d)).

(** [n] firings of the interval. *)
Definition ticks (n : nat) (iso newId : jsstr) (d : State) : State :=
  Nat.iter n (step (Tick iso newId)) d.

Inductive reachable (store : gmap jsstr JsObj) (duration : Z) : State -> Prop :=
  | reach_fresh : reachable store duration (fresh store duration)
  | reach_step d ev : reachable store duration d -> reachable store duration (step ev d).

End Desk.

(** ** Sample inputs of the further properties *)

(** The base64 of "café ☕" as the remote side returns it, broken into
    lines. *)
Definition wrappedCafe : jsstr := lit "Y2Fmw6kg" ++ [10] ++ lit "4piV" ++ [10].

Definition fileBody : JsVal :=
  VObj [("content"%string, VStr wrappedCafe); ("sha"%string, VStr (lit "abc"))].

Definition shaBody : JsVal := VObj [("sha"%string, VStr (lit "abc"))].

Definition repoBody : JsVal := VObj [("default_branch"%string, VStr (lit "trunk"))].

(** An idle, online page with an empty queue on the remote side [P]. *)
Definition idlePage (P : Platform) (w : @World P) : @App P := pageWith P w true "" [].

(** Job "a" without its branch. *)
Definition jobNoBranch : JsObj := delete "branch"%string jobA.

(** A page on which GitHub has not been set up. *)
Definition unconfiguredPage : @App (accepting Utf8Variant) :=
  set_github defaultGithub (pageWith (accepting Utf8Variant) tt true "draft" []).

Definition sampleTime : jsstr := lit "2025-01-02T03:04:05.678Z".

(** A desk on which "Hello world" has been typed, and the same desk after an
    autosave. *)
Definition deskTyped : Desk.State :=
  Desk.handleEditorInput (lit "Hello world") (Desk.fresh ∅ 1).

Definition deskSaved : Desk.State :=
  fst (Desk.autosaveNote sampleTime (lit "m1abc") deskTyped).

(** ** Readings of a drain pass *)

Section PassReadings.
Context `{Platform}.

(** The state a drain pass that started in [s] is in when it takes up the
    [i]-th of the jobs it selected. *)
Definition passState (s : App) (i : nat) : App :=
  fst (run (modify (set_isSyncing true) ;;
            updateSyncIndicator "syncing" ;;
            forOf (take i (List.filter isPending (syncQueue s))) syncOne) s).

(** What [commitToGitHub] returns to that pass for [job], its [i]-th job. *)
Definition attempt (s : App) (i : nat) (job : JsObj) : Completion CommitResult :=
  snd (run (logCommit job ;; commitToGitHub job) (passState s i)).

End PassReadings.

(** ** A remote side that fails once *)

(** A remote side that is out of reach for the first request and accepts
    every later one; its state counts the requests. *)
Definition flaky (svc : ServiceFile) : Platform :=
  {| script := svc; World := nat;
     fetch := fun w _ =>
       (S w, match w with
             | O => FetchRejected failedToFetch
             | S _ => FetchResolved okResponse
             end) |}.

Definition pageFlaky : @App (flaky Utf8Variant) :=
  pageWith (flaky Utf8Variant) 0%nat true "" [jobA; jobB].

(** ** A remote side that notes its exchanges *)

(** [tracing P] answers every request as [P] does and notes the exchange,
    oldest first. *)
Definition tracing (P : Platform) : Platform :=
  {| script := @script P;
     World := (@World P * list (Request * FetchOutcome))%type;
     fetch := fun w req =>
       let '(w', out) := @fetch P (fst w) req in ((w', snd w ++ [(req, out)]), out) |}.

(** The exchanges noted so far. *)
Definition exchanges {P : Platform} (s : @App (tracing P)) : list (Request * FetchOutcome) :=
  snd (@world (tracing P) s).

(** A page of [P] on [tracing P], with nothing noted yet, and back. *)
Definition traced {P : Platform} (s : @App P) : @App (tracing P) :=
  @mkApp (tracing P) (world s, []) (now s) (onLine s) (editorValue s) (form s) (modal s)
    (github s) (queueStore s) (localStorage s) (sessionStorage s) (syncQueue s)
    (isSyncing s) (syncIndicator s) (notifications s) (callbacks s) (commitLog s).

Definition untraced {P : Platform} (s : @App (tracing P)) : @App P :=
  @mkApp P (fst (@world (tracing P) s)) (now s) (onLine s) (editorValue s) (form s) (modal s)
    (github s) (queueStore s) (localStorage s) (sessionStorage s) (syncQueue s)
    (isSyncing s) (syncIndicator s) (notifications s) (callbacks s) (commitLog s).

(** [x] is a PUT that was answered OK with a body that parses to [body]. *)
Definition acceptedPut (x : option (Request * FetchOutcome)) (body : JsVal) : Prop :=
  exists req resp,
    x = Some (req, FetchResolved resp) /\ req_method req = "PUT"%string /\
    resp_ok resp = true /\ resp_json resp = Normal body.

Section Tracing.
Context `{P : Platform}.

(** Only GET exchanges were added to the notes. *)
Definition onlyGets (s s' : @App (tracing P)) : Prop :=
  exists ex, exchanges s' = exchanges s ++ ex /\
             Forall (fun x => req_method (fst x) = "GET"%string) ex.

(** [sim p p']: [p'] is the body [p] on the tracing remote side; the two
    read and write the same page, suspend at the same points and end with
    the same completion. *)
Fixpoint sim {A} (p : @Proc P A) (p' : @Proc (tracing P) A) : Prop :=
  match p, p' with
  | Done c, Done c' => c = c'
  | Get k, Get k' => forall s', sim (k (untraced s')) (k' s')
  | Put s q, Put s' q' => s = untraced s' /\ sim q q'
  | Await q, Await q' => sim q q'
  | _, _ => False
  end.

End Tracing.

(* ================================================================== *)
(** * Part II. Properties *)
(* ================================================================== *)

(** ** The string functions *)

Module EncodingFacts.
Import Encoding.

Lemma N_below_ind (P : N -> Prop) (k : nat) :
  Forall P (N.of_nat <$> seq 0 k) -> forall n, n < N.of_nat k -> P n.
Proof.
  intros HF n Hn. rewrite Forall_forall in HF. apply HF.
  apply list_elem_of_fmap. exists (N.to_nat n). split; [lia|].
  apply elem_of_seq. lia.
Qed.

Ltac below k :=
  let n := fresh "n" in let H := fresh "H" in
  intros n H; revert n H;
  apply (N_below_ind _ k); simpl;
  repeat (constructor; [reflexivity|]); constructor.

Lemma hexVal_hexDigit : forall n, n < 16 -> hexVal (hexDigit n) = Some n.
Proof. below 16%nat. Qed.

Lemma hexDigit_not_u : forall n, n < 16 -> (hexDigit n =? 117) = false.
Proof. below 16%nat. Qed.

Lemma b64Val_b64Char : forall i, i < 64 -> b64Val (b64Char i) = Some i.
Proof. below 64%nat. Qed.

Lemma b64Char_plain : forall i, i < 64 ->
  (b64Char i =? 61) || isAsciiWhitespace (b64Char i) = false.
Proof. below 64%nat. Qed.

Ltac boolp H :=
  repeat first
    [ rewrite orb_true_iff in H | rewrite andb_true_iff in H
    | rewrite N.leb_le in H | rewrite N.eqb_eq in H | rewrite N.ltb_lt in H
    | rewrite negb_true_iff in H | rewrite orb_false_iff in H
    | rewrite andb_false_iff in H | rewrite N.leb_gt in H
    | rewrite N.eqb_neq in H | rewrite N.ltb_ge in H | rewrite negb_false_iff in H ].

Ltac ltb_cases :=
  repeat match goal with
    | |- context [?a <? ?b] => destruct (N.ltb_spec a b)
    | |- context [?a <=? ?b] => destruct (N.leb_spec a b)
    | |- context [?a =? ?b] => destruct (N.eqb_spec a b)
    end.

Lemma escapeUnescaped_ascii c : escapeUnescaped c = true -> c < 128 /\ c <> 37.
Proof.
  unfold escapeUnescaped, isAlpha, isDigit, oneOf, inRange. simpl.
  intros H. boolp H. lia.
Qed.

Lemma uriUnescaped_ascii c : uriUnescaped c = true -> c < 128 /\ c <> 37.
Proof.
  unfold uriUnescaped, isAlpha, isDigit, oneOf, inRange. simpl.
  intros H. boolp H. lia.
Qed.

Lemma hex2_hexDigit b : b < 256 -> hex2 (hexDigit (b / 16)) (hexDigit (b mod 16)) = Some b.
Proof.
  intros Hb. unfold hex2.
  rewrite !hexVal_hexDigit by lia. f_equal. lia.
Qed.

Lemma list_ind2 {A} (P : list A -> Prop) :
  P [] -> (forall x, P [x]) ->
  (forall x y l, P l -> P (y :: l) -> P (x :: y :: l)) ->
  forall l, P l.
Proof.
  intros H0 H1 H2 l. cut (P l /\ forall x, P (x :: l)); [tauto|].
  induction l as [|y l [IHa IHb]]; split; auto.
Qed.

Lemma list_ind3 {A} (P : list A -> Prop) :
  P [] -> (forall x, P [x]) -> (forall x y, P [x; y]) ->
  (forall x y z l, P l -> P (x :: y :: z :: l)) ->
  forall l, P l.
Proof.
  intros H0 H1 H2 H3 l.
  cut (P l /\ (forall x, P (x :: l)) /\ forall x y, P (x :: y :: l)); [tauto|].
  induction l as [|z l (IHa & IHb & IHc)]; repeat split; auto.
Qed.

(** *** unescape after percent-encoding *)

Lemma unescape_plain c rest : c <> 37 -> unescape (c :: rest) = c :: unescape rest.
Proof. intros Hc. simpl. apply N.eqb_neq in Hc. by rewrite Hc. Qed.

Lemma unescape_pct b rest :
  b < 256 -> unescape (pctEncode b ++ rest) = b :: unescape rest.
Proof.
  intros Hb. unfold pctEncode. simpl app.
  cbn [unescape]. change (37 =? 37) with true. cbn [negb].
  rewrite hexDigit_not_u by lia. by rewrite hex2_hexDigit.
Qed.

Lemma unescape_pcts bs rest :
  Forall (fun b => b < 256) bs ->
  unescape (flat_map pctEncode bs ++ rest) = bs ++ unescape rest.
Proof.
  induction 1 as [|b bs Hb _ IH]; [done|].
  cbn [flat_map]. rewrite <- app_assoc, unescape_pct by done. by rewrite IH.
Qed.

Lemma utf8Encode_octets cp : cp < 0x110000 -> Forall (fun b => b < 256) (utf8Encode cp).
Proof.
  intros Hcp. unfold utf8Encode.
  ltb_cases; repeat constructor; lia.
Qed.

Lemma pairCodePoint_scalar c d :
  isLead c = true -> isTrail d = true -> isScalar (pairCodePoint c d) /\ 0x10000 <= pairCodePoint c d.
Proof.
  unfold isLead, isTrail, inRange, isScalar, pairCodePoint. intros H1 H2.
  boolp H1. boolp H2. lia.
Qed.

Lemma utf16Encode_pair c d :
  isLead c = true -> isTrail d = true -> utf16Encode (pairCodePoint c d) = [c; d].
Proof.
  unfold isLead, isTrail, inRange, utf16Encode, pairCodePoint. intros H1 H2.
  boolp H1. boolp H2.
  case_match eqn:E; boolp E; [lia|]. f_equal; [|f_equal]; lia.
Qed.

Lemma utf16Encode_bmp c : c < 0x10000 -> utf16Encode c = [c].
Proof. unfold utf16Encode. intros H. apply N.ltb_lt in H. by rewrite H. Qed.

(** *** decodeURIComponent after escape *)

Lemma decode_plain c X :
  c <> 37 -> decodeURIComponent (c :: X) = cmap (cons c) (decodeURIComponent X).
Proof. intros Hc. simpl. apply N.eqb_neq in Hc. by rewrite Hc. Qed.

Lemma pctOctet_pct b : b < 256 -> pctOctet 37 (hexDigit (b / 16)) (hexDigit (b mod 16)) = Some b.
Proof. intros. unfold pctOctet. change (37 =? 37) with true. by apply hex2_hexDigit. Qed.

Lemma decode_pct1 b X :
  b < 0x80 -> decodeURIComponent (pctEncode b ++ X) = cmap (cons b) (decodeURIComponent X).
Proof.
  intros Hb. unfold pctEncode. cbn [app decodeURIComponent].
  change (37 =? 37) with true. cbn [negb].
  rewrite hex2_hexDigit by lia.
  assert (leadingOnes b = 0%nat) as ->; [|done].
  unfold leadingOnes. ltb_cases; lia || done.
Qed.

Lemma decode_pct2 b1 b2 X :
  b1 < 256 -> b2 < 256 -> leadingOnes b1 = 2%nat ->
  decodeURIComponent (pctEncode b1 ++ pctEncode b2 ++ X) =
  decodeSeq [Some b1; Some b2] (decodeURIComponent X).
Proof.
  intros H1 H2 HL. unfold pctEncode. cbn [app decodeURIComponent].
  change (37 =? 37) with true. cbn [negb].
  rewrite hex2_hexDigit, HL by lia. by rewrite pctOctet_pct.
Qed.

Lemma decode_pct3 b1 b2 b3 X :
  b1 < 256 -> b2 < 256 -> b3 < 256 -> leadingOnes b1 = 3%nat ->
  decodeURIComponent (pctEncode b1 ++ pctEncode b2 ++ pctEncode b3 ++ X) =
  decodeSeq [Some b1; Some b2; Some b3] (decodeURIComponent X).
Proof.
  intros H1 H2 H3 HL. unfold pctEncode. cbn [app decodeURIComponent].
  change (37 =? 37) with true. cbn [negb].
  rewrite hex2_hexDigit, HL by lia. by rewrite !pctOctet_pct.
Qed.

Lemma decode_pct4 b1 b2 b3 b4 X :
  b1 < 256 -> b2 < 256 -> b3 < 256 -> b4 < 256 -> leadingOnes b1 = 4%nat ->
  decodeURIComponent (pctEncode b1 ++ pctEncode b2 ++ pctEncode b3 ++ pctEncode b4 ++ X) =
  decodeSeq [Some b1; Some b2; Some b3; Some b4] (decodeURIComponent X).
Proof.
  intros H1 H2 H3 H4 HL. unfold pctEncode. cbn [app decodeURIComponent].
  change (37 =? 37) with true. cbn [negb].
  rewrite hex2_hexDigit, HL by lia. by rewrite !pctOctet_pct.
Qed.

Lemma escapeUnit_high b : 0x80 <= b < 256 -> escapeUnit b = pctEncode b.
Proof.
  intros Hb. unfold escapeUnit.
  destruct (escapeUnescaped b) eqn:E.
  - apply escapeUnescaped_ascii in E. lia.
  - destruct (N.ltb_spec b 256); [done | lia].
Qed.

Lemma decode_escape_ascii c X :
  c < 0x80 ->
  decodeURIComponent (escapeUnit c ++ X) = cmap (cons c) (decodeURIComponent X).
Proof.
  intros Hc. unfold escapeUnit. destruct (escapeUnescaped c) eqn:E.
  - apply escapeUnescaped_ascii in E. simpl app. apply decode_plain. lia.
  - destruct (N.ltb_spec c 256); [|lia]. by apply decode_pct1.
Qed.

Lemma decode_escape_cp cp X :
  isScalar cp ->
  decodeURIComponent (escape (utf8Encode cp) ++ X) =
  cmap (app (utf16Encode cp)) (decodeURIComponent X).
Proof.
  intros [Hmax Hsur]. unfold utf8Encode, escape.
  destruct (N.ltb_spec cp 0x80) as [H1|H1].
  { cbn [flat_map]. rewrite app_nil_r, decode_escape_ascii by done.
    rewrite utf16Encode_bmp by lia. by destruct (decodeURIComponent X). }
  destruct (N.ltb_spec cp 0x800) as [H2|H2].
  { cbn [flat_map]. rewrite app_nil_r, !escapeUnit_high by lia.
    rewrite <- app_assoc, decode_pct2; [|lia|lia|unfold leadingOnes; ltb_cases; lia || done].
    unfold decodeSeq. cbn [mapM mbind option_bind id mret option_ret utf8Decode].
    unfold isCont, inRange.
    assert ((0xC0 + cp / 64) mod 32 * 64 + (0x80 + cp mod 64) mod 64 = cp) as -> by lia.
    ltb_cases; try lia; cbn [andb negb]; done. }
  destruct (N.ltb_spec cp 0x10000) as [H3|H3].
  { cbn [flat_map]. rewrite app_nil_r, !escapeUnit_high by lia.
    rewrite <- !app_assoc, decode_pct3; [|lia|lia|lia|unfold leadingOnes; ltb_cases; lia || done].
    unfold decodeSeq. cbn [mapM mbind option_bind id mret option_ret utf8Decode].
    unfold isCont, inRange.
    assert (((0xE0 + cp / 4096) mod 16 * 64 + (0x80 + cp / 64 mod 64) mod 64) * 64
            + (0x80 + cp mod 64) mod 64 = cp) as -> by lia.
    ltb_cases; try lia; cbn [andb negb]; done. }
  cbn [flat_map]. rewrite app_nil_r, !escapeUnit_high by lia.
  rewrite <- !app_assoc, decode_pct4; [|lia|lia|lia|lia|unfold leadingOnes; ltb_cases; lia || done].
  unfold decodeSeq. cbn [mapM mbind option_bind id mret option_ret utf8Decode].
  unfold isCont, inRange.
  assert ((((0xF0 + cp / 262144) mod 8 * 64 + (0x80 + cp / 4096 mod 64) mod 64) * 64
           + (0x80 + cp / 64 mod 64) mod 64) * 64 + (0x80 + cp mod 64) mod 64 = cp) as -> by lia.
  ltb_cases; try lia; cbn [andb negb]; done.
Qed.

(** *** encodeURIComponent, unescape, escape, decodeURIComponent compose *)

Lemma escape_app a b : escape (a ++ b) = escape a ++ escape b.
Proof. unfold escape. apply flat_map_app. Qed.

Lemma escape_cons c l : escape (c :: l) = escapeUnit c ++ escape l.
Proof. done. Qed.

Lemma encodeURIComponent_cons c rest :
  encodeURIComponent (c :: rest) =
  if uriUnescaped c then cmap (cons c) (encodeURIComponent rest)
  else if isTrail c then Throw uriMalformed
  else if isLead c then
    match rest with
    | d :: rest' =>
      if isTrail d
      then cmap (app (flat_map pctEncode (utf8Encode (pairCodePoint c d))))
                (encodeURIComponent rest')
      else Throw uriMalformed
    | [] => Throw uriMalformed
    end
  else cmap (app (flat_map pctEncode (utf8Encode c))) (encodeURIComponent rest).
Proof. done. Qed.

Lemma cmap_Normal {A B} (f : A -> B) c b :
  cmap f c = Normal b -> exists a, c = Normal a /\ b = f a.
Proof. destruct c as [a|]; [|done]. intros [= <-]. eauto. Qed.

Lemma uri_roundtrip s :
  isJsString s ->
  forall e, encodeURIComponent s = Normal e ->
    Forall (fun b => b < 256) (unescape e) /\
    decodeURIComponent (escape (unescape e)) = Normal s.
Proof.
  assert (forall c, c < 65536 -> isTrail c = false -> isLead c = false -> isScalar c) as Hbmp.
  { intros c Hc Et El. unfold isScalar, isTrail, isLead, inRange in *.
    boolp Et. boolp El. lia. }
  induction s as [| c | c d rest IH2 IH1] using list_ind2; intros Hs e He.
  - injection He as <-. split; [constructor | done].
  - apply Forall_cons in Hs as [Hc _]. unfold isCodeUnit in Hc.
    rewrite encodeURIComponent_cons in He. cbn [encodeURIComponent cmap cbind] in He.
    destruct (uriUnescaped c) eqn:Eu.
    { injection He as <-. apply uriUnescaped_ascii in Eu as [? ?].
      rewrite unescape_plain by done. split; [repeat constructor; lia|].
      by rewrite escape_cons, decode_escape_ascii by lia. }
    destruct (isTrail c) eqn:Et; [done|]. destruct (isLead c) eqn:El; [done|].
    injection He as <-. pose proof (Hbmp c Hc Et El) as Hsc.
    rewrite (unescape_pcts _ []) by (apply utf8Encode_octets, Hsc).
    rewrite app_nil_r. split; [apply utf8Encode_octets, Hsc|].
    rewrite <- (app_nil_r (escape _)), decode_escape_cp by done.
    by rewrite utf16Encode_bmp.
  - apply Forall_cons in Hs as [Hc Hs]. unfold isCodeUnit in Hc.
    pose proof Hs as Hs'. apply Forall_cons in Hs' as [Hd Hrest]. unfold isCodeUnit in Hd.
    rewrite encodeURIComponent_cons in He.
    destruct (uriUnescaped c) eqn:Eu.
    { apply cmap_Normal in He as (e' & Ee & ->). apply uriUnescaped_ascii in Eu as [? ?].
      destruct (IH1 Hs e' Ee) as [Hb Hdec].
      rewrite unescape_plain by done. split; [constructor; [lia | done]|].
      by rewrite escape_cons, decode_escape_ascii, Hdec by lia. }
    destruct (isTrail c) eqn:Et; [done|]. destruct (isLead c) eqn:El.
    { destruct (isTrail d) eqn:Etd; [|done].
      apply cmap_Normal in He as (e' & Ee & ->).
      destruct (IH2 Hrest e' Ee) as [Hb Hdec].
      destruct (pairCodePoint_scalar c d El Etd) as [Hsc Hbig].
      rewrite unescape_pcts by (apply utf8Encode_octets, Hsc).
      split; [apply Forall_app; split; [apply utf8Encode_octets, Hsc | done]|].
      rewrite escape_app, decode_escape_cp, Hdec by done.
      by rewrite utf16Encode_pair. }
    apply cmap_Normal in He as (e' & Ee & ->).
    destruct (IH1 Hs e' Ee) as [Hb Hdec]. pose proof (Hbmp c Hc Et El) as Hsc.
    rewrite unescape_pcts by (apply utf8Encode_octets, Hsc).
    split; [apply Forall_app; split; [apply utf8Encode_octets, Hsc | done]|].
    rewrite escape_app, decode_escape_cp, Hdec by done.
    by rewrite utf16Encode_bmp.
Qed.

(** *** atob after btoa *)

Lemma b64enc_nil bs : b64enc bs = [] -> bs = [].
Proof. destruct bs as [|x [|y [|z rest]]]; done. Qed.

Lemma b64enc_plain bs :
  Forall (fun b => b < 256) bs ->
  List.filter (fun c => negb (isAsciiWhitespace c)) (b64enc bs) = b64enc bs.
Proof.
  assert (forall i, i < 64 -> negb (isAsciiWhitespace (b64Char i)) = true) as Hp.
  { intros i Hi. pose proof (b64Char_plain i Hi) as H.
    apply orb_false_iff in H as [_ ->]. done. }
  induction bs as [| x | x y | x y z rest IH] using list_ind3; intros Hb.
  - done.
  - apply Forall_cons in Hb as [Hx _]. cbn [b64enc List.filter].
    rewrite !Hp by lia. done.
  - apply Forall_cons in Hb as [Hx Hb]. apply Forall_cons in Hb as [Hy _].
    cbn [b64enc List.filter]. rewrite !Hp by lia. done.
  - apply Forall_cons in Hb as [Hx Hb]. apply Forall_cons in Hb as [Hy Hb].
    apply Forall_cons in Hb as [Hz Hb].
    cbn [b64enc List.filter]. rewrite !Hp by lia. by rewrite IH.
Qed.

Lemma b64Char_not_pad i : i < 64 -> (b64Char i =? 61) = false.
Proof. intros Hi. pose proof (b64Char_plain i Hi) as H. by apply orb_false_iff in H as [-> _]. Qed.

Lemma b64dec_group a b c d e rest :
  b64dec (a :: b :: c :: d :: e :: rest) =
  match sextets4 a b c d, b64dec (e :: rest) with
  | Some x, Some y => Some (x ++ y)
  | _, _ => None
  end.
Proof. done. Qed.

Lemma b64dec_b64enc bs :
  Forall (fun b => b < 256) bs -> b64dec (b64enc bs) = Some bs.
Proof.
  induction bs as [| x | x y | x y z rest IH] using list_ind3; intros Hb.
  - done.
  - apply Forall_cons in Hb as [Hx _]. cbn [b64enc b64dec].
    change (61 =? 61) with true. cbn [andb]. unfold sextets2.
    rewrite !b64Val_b64Char by lia. do 2 f_equal. lia.
  - apply Forall_cons in Hb as [Hx Hb]. apply Forall_cons in Hb as [Hy _].
    cbn [b64enc b64dec]. change (61 =? 61) with true.
    rewrite b64Char_not_pad by lia. cbn [andb]. unfold sextets3.
    rewrite !b64Val_b64Char by lia. f_equal. f_equal; [|f_equal]; lia.
  - apply Forall_cons in Hb as [Hx Hb]. apply Forall_cons in Hb as [Hy Hb].
    apply Forall_cons in Hb as [Hz Hb].
    assert (sextets4 (b64Char (x / 4)) (b64Char (x mod 4 * 16 + y / 16))
              (b64Char (y mod 16 * 4 + z / 64)) (b64Char (z mod 64)) = Some [x; y; z]) as H4.
    { unfold sextets4. rewrite !b64Val_b64Char by lia.
      f_equal. f_equal; [|f_equal; [|f_equal]]; lia. }
    cbn [b64enc]. specialize (IH Hb).
    destruct (b64enc rest) as [|c1 r1] eqn:Er.
    + apply b64enc_nil in Er as ->. cbn [b64dec].
      rewrite !b64Char_not_pad by lia. cbn [andb]. done.
    + by rewrite b64dec_group, H4, IH.
Qed.

Lemma atob_btoa bs :
  Forall (fun b => b < 256) bs -> cbind (btoa bs) atob = Normal bs.
Proof.
  intros Hb. unfold btoa.
  assert (forallb (fun c => c <? 256) bs = true) as ->.
  { apply forallb_forall. intros c Hc. apply N.ltb_lt.
    rewrite Forall_forall in Hb. by apply Hb, list_elem_of_In. }
  cbn [cbind]. unfold atob. by rewrite b64enc_plain, b64dec_b64enc.
Qed.

Lemma encodeURIComponent_total s :
  isWellFormed s = true -> exists e, encodeURIComponent s = Normal e.
Proof.
  assert (forall c, uriUnescaped c = true -> isTrail c = false /\ isLead c = false) as Hu.
  { intros c Hc. apply uriUnescaped_ascii in Hc as [Hc _].
    unfold isTrail, isLead, inRange. split; apply andb_false_iff; left; apply N.leb_gt; lia. }
  induction s as [| c | c d rest IH2 IH1] using list_ind2; intros Hw.
  - by exists [].
  - rewrite encodeURIComponent_cons. cbn [isWellFormed] in Hw.
    destruct (uriUnescaped c) eqn:Eu; [by eexists|].
    destruct (isTrail c); [done|]. destruct (isLead c); [done|]. by eexists.
  - rewrite encodeURIComponent_cons.
    assert (isWellFormed (c :: d :: rest) =
            if isTrail c then false else if isLead c then isTrail d && isWellFormed rest
            else isWellFormed (d :: rest)) as Hw' by done.
    rewrite Hw' in Hw. clear Hw'.
    destruct (uriUnescaped c) eqn:Eu.
    { destruct (Hu c Eu) as [Et El]. rewrite Et, El in Hw.
      destruct (IH1 Hw) as [e ->]. by eexists. }
    destruct (isTrail c); [done|]. destruct (isLead c).
    { apply andb_prop in Hw as [-> Hw]. destruct (IH2 Hw) as [e ->]. by eexists. }
    destruct (IH1 Hw) as [e ->]. by eexists.
Qed.

Lemma encodeURIComponent_throws s e :
  encodeURIComponent s = Throw e -> e = uriMalformed.
Proof.
  revert e. induction s as [| c | c d rest IH2 IH1] using list_ind2; intros e.
  - done.
  - rewrite encodeURIComponent_cons. cbn [encodeURIComponent cmap cbind].
    repeat case_match; congruence.
  - rewrite encodeURIComponent_cons. unfold cmap, cbind.
    repeat case_match; try congruence; intros [= <-]; eauto.
Qed.
End EncodingFacts.

Theorem utf8ToBase64_roundtrip (s b : jsstr) :
  isJsString s -> utf8ToBase64 s = Normal b -> base64ToUtf8 b = Normal s.
Proof.
  intros Hs. unfold utf8ToBase64, base64ToUtf8.
  destruct (Encoding.encodeURIComponent s) as [e|] eqn:Ee; [|done].
  cbn [cbind]. intros Hb.
  destruct (EncodingFacts.uri_roundtrip s Hs e Ee) as [Hoct Hdec].
  pose proof (EncodingFacts.atob_btoa _ Hoct) as Hab.
  rewrite Hb in Hab. cbn [cbind] in Hab. by rewrite Hab.
Qed.

(** ** Running asynchronous code *)

Section ProcFacts.
Context `{Platform}.

Lemma run_bind {A B} (m : Proc A) (k : A -> Proc B) s :
  run (m ≫= k) s =
  match run m s with
  | (s', Normal a) => run (k a) s'
  | (s', Throw e) => (s', Throw e)
  end.
Proof.
  unfold mbind, proc_bind. revert s.
  induction m as [[a|e] | f IH | s0 q IH | q IH]; intros s; simpl; auto.
Qed.

Lemma run_tryCatch {A} (p : Proc A) (h : JsError -> Proc A) s :
  run (tryCatch p h) s =
  match run p s with
  | (s', Normal a) => (s', Normal a)
  | (s', Throw e) => run (h e) s'
  end.
Proof.
  revert s. induction p as [[a|e] | f IH | s0 q IH | q IH]; intros s; simpl; auto.
Qed.

Lemma run_advance {A} (p : Proc A) s :
  run p s =
  match advance p s with
  | (s', inl c) => (s', c)
  | (s', inr q) => run q s'
  end.
Proof. revert s. induction p as [c | f IH | s0 q IH | q IH]; intros s; simpl; auto. Qed.

Lemma run_forOf_cons {A} (x : A) xs body s :
  run (forOf (x :: xs) body) s =
  match run (body x) s with
  | (s', Normal _) => run (forOf xs body) s'
  | (s', Throw e) => (s', Throw e)
  end.
Proof. simpl forOf. by rewrite run_bind. Qed.

Lemma stepsIn_bind R {A B} (m : Proc A) (k : A -> Proc B) s :
  stepsIn R m s -> (forall a, Safe R (k a)) -> stepsIn R (m ≫= k) s.
Proof.
  unfold mbind, proc_bind. intros Hm Hk. revert s Hm.
  induction m as [[a|e] | f IH | s0 q IH | q IH]; intros s Hm; simpl in *; auto.
  - apply Hk.
  - destruct Hm. split; auto.
Qed.

Lemma Safe_bind R {A B} (m : Proc A) (k : A -> Proc B) :
  Safe R m -> (forall a, Safe R (k a)) -> Safe R (m ≫= k).
Proof. intros Hm Hk s. by apply stepsIn_bind. Qed.

Lemma Safe_tryCatch R {A} (p : Proc A) (h : JsError -> Proc A) :
  Safe R p -> (forall e, Safe R (h e)) -> Safe R (tryCatch p h).
Proof.
  intros Hp Hh s. specialize (Hp s). revert s Hp.
  induction p as [[a|e] | f IH | s0 q IH | q IH]; intros s Hp; simpl in *; auto.
  - apply Hh.
  - destruct Hp. split; auto.
Qed.

Lemma stepsIn_tryCatch R {A} (p : Proc A) (h : JsError -> Proc A) s :
  stepsIn R p s -> (forall e, Safe R (h e)) -> stepsIn R (tryCatch p h) s.
Proof.
  intros Hp Hh. revert s Hp.
  induction p as [[a|e] | f IH | s0 q IH | q IH]; intros s Hp; simpl in *; auto.
  - apply Hh.
  - destruct Hp. split; auto.
Qed.

Lemma stepsIn_forOf R {A} (xs : list A) body s :
  (forall x, Safe R (body x)) -> stepsIn R (forOf xs body) s.
Proof.
  intros Hb. revert s. induction xs as [|x xs IH]; intros s; simpl; [done|].
  apply stepsIn_bind; [apply Hb | intros _ s'; apply IH].
Qed.

Lemma Safe_ret R {A} (a : A) : Safe R (mret a).
Proof. by intros s. Qed.

Lemma Safe_throw R {A} e : Safe R (@throw _ A e).
Proof. by intros s. Qed.

Lemma Safe_liftC R {A} (c : Completion A) : Safe R (liftC c).
Proof. by intros s. Qed.

Lemma Safe_gets R {A} (f : App -> A) : Safe R (gets f).
Proof. by intros s. Qed.

Lemma Safe_modify (R : relation App) f : (forall s, R s (f s)) -> Safe R (modify f).
Proof. intros Hf s. simpl. auto. Qed.

Lemma Safe_Get R {A} (k : App -> Proc A) : (forall s, Safe R (k s)) -> Safe R (Get k).
Proof. intros Hk s. simpl. apply Hk. Qed.

Lemma Safe_Await R {A} (p : Proc A) : Safe R p -> Safe R (Await p).
Proof. intros Hp s. simpl. apply Hp. Qed.

Lemma Safe_forOf R {A} (xs : list A) body : (forall x, Safe R (body x)) -> Safe R (forOf xs body).
Proof.
  intros Hb. induction xs as [|x xs IH]; simpl; [apply Safe_ret|].
  apply Safe_bind; auto.
Qed.

Lemma Safe_awaitFetch (R : relation App) req :
  (forall s w, R s (set_world w s)) -> Safe R (awaitFetch req).
Proof.
  intros HR s. simpl. intros s1. destruct (fetch (world s1) req) as [w out].
  simpl. split; [apply HR|]. by destruct out.
Qed.

Lemma Safe_awaitJson R r : Safe R (awaitJson r).
Proof. by intros s. Qed.

(** What a safe body does in one go, and in one turn. *)
Lemma Safe_run (R : relation App) `{!Reflexive R, !Transitive R} {A} (p : Proc A) s :
  stepsIn R p s -> R s (fst (run p s)).
Proof.
  revert s. induction p as [c | f IH | s0 q IH | q IH]; intros s Hp; simpl in *.
  - reflexivity.
  - by apply IH.
  - destruct Hp as [H1 H2]. etrans; [exact H1|]. by apply IH.
  - by apply IH.
Qed.

Lemma Safe_advance (R : relation App) `{!Reflexive R, !Transitive R} {A} (p : Proc A) s :
  stepsIn R p s ->
  R s (fst (advance p s)) /\
  match snd (advance p s) with
  | inl _ => True
  | inr q => Safe R q
  end.
Proof.
  revert s. induction p as [c | f IH | s0 q IH | q IH]; intros s Hp; simpl in *.
  - split; [reflexivity | done].
  - by apply IH.
  - destruct Hp as [H1 H2]. destruct (IH _ H2) as [H3 H4]. split; [|done]. by etrans.
  - split; [reflexivity | done].
Qed.


Lemma always_all {A} (Q : Completion A -> Prop) (p : Proc A) : (forall c, Q c) -> always Q p.
Proof. intros HQ. induction p; simpl; auto. Qed.

Lemma always_mono {A} (Q Q' : Completion A -> Prop) (p : Proc A) :
  (forall c, Q c -> Q' c) -> always Q p -> always Q' p.
Proof. intros HQ. induction p; simpl; auto. Qed.

Lemma always_bind {A B} (Q : Completion B -> Prop) (m : Proc A) (k : A -> Proc B) :
  always (fun c => match c with Normal a => always Q (k a) | Throw e => Q (Throw e) end) m ->
  always Q (m ≫= k).
Proof.
  unfold mbind, proc_bind.
  induction m as [[a|e] | f IH | s0 q IH | q IH]; simpl; auto.
Qed.

Lemma always_bind_any {A B} (Q : Completion B -> Prop) (m : Proc A) (k : A -> Proc B) :
  (forall a, always Q (k a)) -> (forall e, Q (Throw e)) -> always Q (m ≫= k).
Proof. intros Hk He. apply always_bind, always_all. by intros [a|e]. Qed.

Lemma always_tryCatch {A} (Q : Completion A -> Prop) (p : Proc A) h :
  always (fun c => match c with Normal a => Q (Normal a) | Throw e => always Q (h e) end) p ->
  always Q (tryCatch p h).
Proof. induction p as [[a|e] | f IH | s0 q IH | q IH]; simpl; auto. Qed.

Lemma always_run {A} (Q : Completion A -> Prop) (p : Proc A) s :
  always Q p -> Q (snd (run p s)).
Proof. revert s. induction p as [c | f IH | s0 q IH | q IH]; intros s Hp; simpl in *; auto. Qed.

Lemma always_advance {A} (Q : Completion A -> Prop) (p : Proc A) s :
  always Q p ->
  match snd (advance p s) with
  | inl c => Q c
  | inr q => always Q q
  end.
Proof.
  revert s. induction p as [c | f IH | s0 q IH | q IH]; intros s Hp; simpl in *; auto.
  - by apply IH.
  - by apply IH.
Qed.

(** commitToGitHub: every exception is caught *)

Lemma commitToGitHub_always job :
  always (fun c => exists r, c = Normal r /\ isResultRecord r) (commitToGitHub job).
Proof.
  unfold commitToGitHub. apply always_tryCatch.
  set (Q := fun c : Completion CommitResult => match c with Normal a => _ | Throw e => _ end).
  assert (forall e, Q (Throw e)) as HT.
  { intros e. subst Q. simpl. eexists. split; [done|]. right. simpl. eauto. }
  repeat (apply always_bind_any; [intros ?|done]).
  destruct (resp_ok _).
  - apply always_bind_any; [intros d|done]. simpl. eexists. split; [done|]. left. simpl. eauto.
  - repeat (apply always_bind_any; [intros ?|done]). apply HT.
Qed.

(** With [services/github.js] loaded the helper [utf8ToBase64] is unbound:
    no attempt of [commitToGitHub] succeeds, whatever the remote side does. *)
Lemma commitToGitHub_unbound_helper job :
  script = ServicesGithubJs ->
  always (fun c => exists r, c = Normal r /\ success r = false) (commitToGitHub job).
Proof.
  intros Hs. unfold commitToGitHub. apply always_tryCatch.
  set (Q := fun c : Completion CommitResult => match c with Normal a => _ | Throw e => _ end).
  assert (forall e, Q (Throw e)) as HT.
  { intros e. subst Q. simpl. by eexists. }
  do 7 (apply always_bind_any; [intros ?|done]).
  unfold callUtf8ToBase64. rewrite Hs. apply HT.
Qed.

End ProcFacts.

(** ** Bodies that only talk to the network *)

Create HintDb procs.
#[global] Hint Unfold showNotification updateSyncIndicator logCommit loadSyncQueue
  closeModal setInput : procs.

Ltac safe_step :=
  lazymatch goal with
  | |- Safe _ _ => intros ?
  | |- stepsIn _ (Done _) _ => exact I
  | |- stepsIn _ (mret _) _ => exact I
  | |- stepsIn _ (throw _) _ => exact I
  | |- stepsIn _ (liftC _) _ => exact I
  | |- stepsIn _ (gets _) _ => exact I
  | |- stepsIn _ (awaitJson _) _ => exact I
  | |- stepsIn _ (mbind _ _) _ => apply stepsIn_bind; [|intros ?]
  | |- stepsIn _ (tryCatch _ _) _ => apply stepsIn_tryCatch; [|intros ?]
  | |- stepsIn _ (forOf _ _) _ => apply stepsIn_forOf; intros ?
  | |- stepsIn _ (awaitFetch _) _ => apply Safe_awaitFetch; intros ? ?
  | |- stepsIn _ (modify _) _ => apply Safe_modify; intros ?
  | |- stepsIn _ (Get _) _ => cbn [stepsIn]
  | |- stepsIn _ (Put _ _) _ => cbn [stepsIn]; split
  | |- stepsIn _ (Await _) _ => cbn [stepsIn]; intros ?
  | |- stepsIn _ (if ?b then _ else _) _ => destruct b
  | |- stepsIn _ (match ?x with _ => _ end) _ => destruct x
  | |- stepsIn _ _ _ => progress autounfold with procs
  end.

Ltac safe := repeat safe_step.

Section AppFacts.
Context `{Platform}.

#[global] Instance worldOnly_refl : Reflexive worldOnly.
Proof. intros s. exists (world s). by destruct s. Qed.

#[global] Instance worldOnly_trans : Transitive worldOnly.
Proof. intros s1 s2 s3 [w1 ->] [w2 ->]. by exists w2. Qed.

#[global] Instance sameFlag_refl : Reflexive sameFlag.
Proof. by intros s. Qed.

#[global] Instance sameFlag_trans : Transitive sameFlag.
Proof. unfold sameFlag. intros s1 s2 s3 H1 H2. congruence. Qed.

#[global] Instance sameQueue_refl : Reflexive sameQueue.
Proof. by intros s. Qed.

#[global] Instance sameQueue_trans : Transitive sameQueue.
Proof.
  unfold sameQueue. intros s1 s2 s3 (?&?&?&?&?&?) (?&?&?&?&?&?).
  repeat split; congruence.
Qed.

Lemma commitToGitHub_worldOnly job : Safe worldOnly (commitToGitHub job).
Proof. unfold commitToGitHub. safe; by eexists. Qed.

Lemma getFile_worldOnly svc t o r p b : Safe worldOnly (getFile svc t o r p b).
Proof. unfold getFile. safe; by eexists. Qed.

Lemma createOrUpdateFile_worldOnly svc t o r p c m b :
  Safe worldOnly (createOrUpdateFile svc t o r p c m b).
Proof. unfold createOrUpdateFile. safe; try apply getFile_worldOnly; by eexists. Qed.

Lemma worldOnly_sameQueue s s' : worldOnly s s' -> sameQueue s s'.
Proof. by intros [w ->]. Qed.

Lemma worldOnly_sameFlag s s' : worldOnly s s' -> sameFlag s s'.
Proof. by intros [w ->]. Qed.

Lemma Safe_weaken (R R' : relation App) {A} (p : Proc A) :
  (forall s s', R s s' -> R' s s') -> Safe R p -> Safe R' p.
Proof.
  intros HR Hp s. specialize (Hp s). revert s Hp.
  induction p as [c | f IH | s0 q IH | q IH]; intros s Hp; simpl in *; auto.
  destruct Hp; split; auto.
Qed.

Lemma stepsIn_weaken (R R' : relation App) {A} (p : Proc A) s :
  (forall s s', R s s' -> R' s s') -> Safe R p -> stepsIn R' p s.
Proof. intros HR Hp. by apply (Safe_weaken R R'). Qed.

End AppFacts.

(** ** The object store *)

Module IdbFacts.

Lemma elem_of_getAll (store : gmap jsstr JsObj) r :
  r ∈ Idb.getAll store <-> exists k, store !! k = Some r.
Proof.
  unfold Idb.getAll. rewrite merge_sort_Permutation, list_elem_of_fmap. split.
  - intros [[k r'] [-> Hin]]. exists k. by apply elem_of_map_to_list.
  - intros [k Hk]. exists (k, r). split; [done|]. by apply elem_of_map_to_list.
Qed.

Lemma keys_getAll (store : gmap jsstr JsObj) :
  Idb.wf store -> NoDup (Idb.keyOf <$> Idb.getAll store).
Proof.
  intros Hwf. unfold Idb.getAll.
  set (l := merge_sort _ _).
  assert (l ≡ₚ map_to_list store) as Hl by apply merge_sort_Permutation.
  assert (Idb.keyOf <$> (snd <$> l) = Some <$> (fst <$> l)) as ->.
  { rewrite <- !list_fmap_compose. apply Forall_fmap_ext_1, Forall_forall.
    intros [k r] Hin. simpl. apply Hwf. apply elem_of_map_to_list. by rewrite <- Hl. }
  apply (NoDup_fmap_2 Some). rewrite Hl. apply NoDup_fst_map_to_list.
Qed.

Lemma wf_insert (store : gmap jsstr JsObj) k r :
  Idb.wf store -> Idb.keyOf r = Some k -> Idb.wf (<[k := r]> store).
Proof.
  intros Hwf Hk k' r'. rewrite lookup_insert. case_decide as E.
  - intros [= <-]. by subst.
  - apply Hwf.
Qed.

Lemma wf_put (store store' : gmap jsstr JsObj) r :
  Idb.wf store -> Idb.put store r = Normal store' -> Idb.wf store'.
Proof.
  unfold Idb.put. intros Hwf. destruct (Idb.keyOf r) as [k|] eqn:Hk; [|done].
  intros [= <-]. by apply wf_insert.
Qed.

Lemma wf_delete (store : gmap jsstr JsObj) k : Idb.wf store -> Idb.wf (delete k store).
Proof. intros Hwf k' r. rewrite lookup_delete. case_decide; [done | apply Hwf]. Qed.

Lemma wf_empty : Idb.wf ∅.
Proof. intros k r. by rewrite lookup_empty. Qed.

Lemma keyOf_assign (job updates : JsObj) :
  updates !! "id"%string = None -> Idb.keyOf (assign job updates) = Idb.keyOf job.
Proof. intros Hu. unfold Idb.keyOf, assign. by rewrite lookup_union_r. Qed.

Lemma keyOf_settle r job : Idb.keyOf (settle r job) = Idb.keyOf job.
Proof.
  unfold settle. destruct (success r); apply keyOf_assign; [done|].
  destruct (error r); done.
Qed.

End IdbFacts.

Lemma elem_of_filter_bool {A} (f : A -> bool) (l : list A) x :
  x ∈ List.filter f l <-> x ∈ l /\ f x = true.
Proof. rewrite !list_elem_of_In. apply filter_In. Qed.

Lemma NoDup_fmap_filter_bool {A B} (g : A -> B) (f : A -> bool) (l : list A) :
  NoDup (g <$> l) -> NoDup (g <$> List.filter f l).
Proof.
  induction l as [|x l IH]; [done|]. rewrite fmap_cons, NoDup_cons. intros [Hx Hl].
  simpl. destruct (f x); [|by apply IH].
  rewrite fmap_cons, NoDup_cons. split; [|by apply IH].
  intros Hin. apply Hx. apply list_elem_of_fmap in Hin as (y & -> & Hy).
  apply list_elem_of_fmap. exists y. split; [done|]. by apply elem_of_filter_bool in Hy as [? _].
Qed.

Section DrainFacts.
Context `{Platform}.

Lemma run_modify f s : run (modify f) s = (f s, Normal tt).
Proof. done. Qed.

Lemma commitToGitHub_run job s :
  exists w r, run (commitToGitHub job) s = (set_world w s, Normal r) /\ isResultRecord r.
Proof.
  pose proof (Safe_run worldOnly (commitToGitHub job) s (commitToGitHub_worldOnly job s)) as [w Hw].
  pose proof (always_run _ _ s (commitToGitHub_always job)) as (r & Hr & Hshape).
  exists w, r. split; [|done]. destruct (run (commitToGitHub job) s) as [s' c]. simpl in *. by subst.
Qed.

Lemma run_updateQueueJob s v k job0 updates :
  Idb.validKey v = Some k -> queueStore s !! k = Some job0 ->
  Idb.keyOf (assign job0 updates) = Some k ->
  run (updateQueueJob v updates) s =
  (set_queueStore (<[k := assign job0 updates]> (queueStore s)) s, Normal tt).
Proof.
  intros Hv Hk Hkey. unfold updateQueueJob. cbn [run]. rewrite Hv, Hk.
  unfold Idb.put. rewrite Hkey. done.
Qed.

Lemma syncOne_run job k s :
  Idb.keyOf job = Some k -> queueStore s !! k = Some job ->
  exists r s',
    run (syncOne job) s = (s', Normal tt) /\ publishes job r /\
    queueStore s' = <[k := settle r job]> (queueStore s) /\
    commitLog s' = commitLog s ++ [job] /\
    isSyncing s' = isSyncing s /\ onLine s' = onLine s /\
    syncQueue s' = syncQueue s /\ callbacks s' = callbacks s.
Proof.
  intros Hkey Hk. unfold syncOne, logCommit.
  rewrite run_bind, run_modify, run_bind.
  set (s1 := set_commitLog _ s).
  destruct (commitToGitHub_run job s1) as (w & r & Hrun & Hshape).
  rewrite Hrun. exists r.
  assert (publishes job r) as Hpub.
  { exists s1. by rewrite Hrun. }
  assert (Idb.keyOf (settle r job) = Some k) as Hk' by (by rewrite IdbFacts.keyOf_settle).
  unfold settle in Hk'. destruct (success r) eqn:Hs.
  - rewrite run_bind.
    erewrite run_updateQueueJob; [|exact Hkey|exact Hk|exact Hk'].
    unfold showNotification. rewrite run_modify. eexists. split; [done|].
    split; [done|]. unfold settle. rewrite Hs. simpl. done.
  - rewrite run_bind.
    erewrite run_updateQueueJob; [|exact Hkey|exact Hk|exact Hk'].
    rewrite run_bind.
    assert (exists m, toStr (VStr <$> error r) = Normal m) as [m Hm].
    { destruct (error r); simpl; eauto. }
    unfold liftC. rewrite Hm. cbn [run].
    unfold showNotification. rewrite run_modify. eexists. split; [done|].
    split; [done|]. unfold settle. rewrite Hs. simpl. done.
Qed.

Lemma drain_loop jobs : forall s,
  Idb.wf (queueStore s) ->
  NoDup (Idb.keyOf <$> jobs) ->
  (forall job, job ∈ jobs -> exists k, Idb.keyOf job = Some k /\ queueStore s !! k = Some job) ->
  exists s',
    run (forOf jobs syncOne) s = (s', Normal tt) /\
    commitLog s' = commitLog s ++ jobs /\
    Idb.wf (queueStore s') /\
    (forall job k, job ∈ jobs -> Idb.keyOf job = Some k ->
       exists r, publishes job r /\ queueStore s' !! k = Some (settle r job)) /\
    (forall k, (forall job, job ∈ jobs -> Idb.keyOf job <> Some k) ->
       queueStore s' !! k = queueStore s !! k) /\
    isSyncing s' = isSyncing s /\ onLine s' = onLine s /\
    syncQueue s' = syncQueue s /\ callbacks s' = callbacks s.
Proof.
  induction jobs as [|j rest IH]; intros s Hwf Hnd Hin.
  - exists s. simpl. rewrite app_nil_r. repeat split; try done.
    intros job k Hj. by apply elem_of_nil in Hj.
  - rewrite fmap_cons, NoDup_cons in Hnd. destruct Hnd as [Hj Hnd].
    destruct (Hin j) as (k & Hkey & Hk); [left|].
    destruct (syncOne_run j k s Hkey Hk) as (r & s1 & Hrun & Hpub & Hst & Hlog & Hf & Ho & Hq & Hc).
    assert (forall job, job ∈ rest -> Idb.keyOf job <> Some k) as Hne.
    { intros job Hjob E. apply Hj. rewrite Hkey, <- E. apply list_elem_of_fmap. eauto. }
    destruct (IH s1) as (s' & Hrun' & Hlog' & Hwf' & Hdone & Hframe & Hf' & Ho' & Hq' & Hc').
    + rewrite Hst. apply IdbFacts.wf_insert; [done|]. by rewrite IdbFacts.keyOf_settle.
    + done.
    + intros job Hjob. destruct (Hin job) as (k' & Hkey' & Hk'); [by right|].
      exists k'. split; [done|]. rewrite Hst, lookup_insert_ne; [done|].
      intros ->. by apply (Hne job).
    + exists s'. rewrite run_forOf_cons, Hrun. split; [done|].
      split; [by rewrite Hlog', Hlog, <- app_assoc|]. split; [done|].
      split; [|split; [|repeat split; congruence]].
      * intros job k' Hjob Hkey'. apply elem_of_cons in Hjob as [->|Hjob].
        -- assert (k' = k) as -> by congruence. exists r. split; [done|].
           rewrite Hframe by done. by rewrite Hst, lookup_insert_eq.
        -- by apply Hdone.
      * intros k' Hk'. rewrite Hframe.
        -- rewrite Hst, lookup_insert_ne; [done|]. intros ->. apply (Hk' j); [left|done].
        -- intros job Hjob. apply Hk'. by right.
Qed.

End DrainFacts.

(** ** One drain pass *)

Section PassFacts.
Context `{Platform}.

Lemma coherent_jobs s :
  coherent s ->
  NoDup (Idb.keyOf <$> syncQueue s) /\
  (forall job, job ∈ syncQueue s <-> exists k, queueStore s !! k = Some job) /\
  (forall job k, queueStore s !! k = Some job -> Idb.keyOf job = Some k).
Proof.
  intros [Hwf Hq]. rewrite Hq. split; [by apply IdbFacts.keys_getAll|].
  split; [apply IdbFacts.elem_of_getAll | intros job k; apply Hwf].
Qed.

Lemma processSyncQueue_skip s :
  isSyncing s = true \/ onLine s = false \/ List.filter isPending (syncQueue s) = [] ->
  run processSyncQueue s = (s, Normal tt).
Proof.
  intros Hg. unfold processSyncQueue. cbn [run].
  destruct (isSyncing s); [done|]. destruct (onLine s); [|done]. cbn [orb negb].
  destruct Hg as [ ? | [ ? | Hg ] ]; try done. by rewrite Hg.
Qed.

Lemma processSyncQueue_pass s :
  isSyncing s = false -> onLine s = true -> coherent s ->
  List.filter isPending (syncQueue s) <> [] ->
  exists s',
    run processSyncQueue s = (s', Normal tt) /\
    commitLog s' = commitLog s ++ List.filter isPending (syncQueue s) /\
    Idb.wf (queueStore s') /\
    (forall job k, job ∈ List.filter isPending (syncQueue s) -> Idb.keyOf job = Some k ->
       exists r, publishes job r /\ queueStore s' !! k = Some (settle r job)) /\
    (forall k, (forall job, job ∈ List.filter isPending (syncQueue s) -> Idb.keyOf job <> Some k) ->
       queueStore s' !! k = queueStore s !! k) /\
    isSyncing s' = false /\ onLine s' = true /\ syncQueue s' = syncQueue s /\
    callbacks s' = callbacks s ++ [CbReload (Idb.getAll (queueStore s'))].
Proof.
  intros Hf Ho Hco Hne.
  destruct (coherent_jobs s Hco) as (Hnd & Hmem & Hkeys).
  set (jobs := List.filter isPending (syncQueue s)) in *.
  destruct (drain_loop jobs (set_syncIndicator (lit "syncing") (set_isSyncing true s)))
    as (s1 & Hrun & Hlog & Hwf & Hdone & Hframe & Hf1 & Ho1 & Hq1 & Hc1).
  { apply Hco. }
  { by apply NoDup_fmap_filter_bool. }
  { intros job Hjob. apply elem_of_filter_bool in Hjob as [Hjob _].
    apply Hmem in Hjob as [k Hk]. exists k. split; [by apply Hkeys | done]. }
  unfold processSyncQueue. cbn [run]. rewrite Hf, Ho. cbn [orb negb].
  fold jobs. destruct jobs as [|j rest] eqn:Ej; [done|].
  cbn [length Nat.eqb].
  rewrite run_bind, run_modify, run_bind. unfold updateSyncIndicator at 1.
  rewrite run_modify, run_bind, Hrun, run_bind. unfold loadSyncQueue.
  rewrite run_modify, run_bind, run_modify. cbn [run]. unfold updateSyncIndicator.
  rewrite run_modify. eexists. split; [done|]. simpl in *.
  rewrite Hc1, Ho1, Ho, Hq1. repeat split; done.
Qed.

(** A job that a successful pass has settled is completed. *)
Lemma settle_success r job :
  success r = true -> settle r job = <["status"%string := VStr (lit "completed")]> job.
Proof. intros Hr. unfold settle, assign. rewrite Hr. by rewrite <- insert_union_singleton_l. Qed.

Lemma settle_failure r job e :
  success r = false -> error r = Some e ->
  settle r job =
  <["error"%string := VStr e]> (<["status"%string := VStr (lit "failed")]> job).
Proof.
  intros Hr He. unfold settle, assign, setField. rewrite Hr, He. simpl.
  rewrite <- insert_union_l. by rewrite <- insert_union_singleton_l.
Qed.

Lemma isPending_settle r job : isPending (settle r job) = false.
Proof.
  unfold isPending, settle, assign. destruct (success r).
  - by rewrite <- insert_union_singleton_l, lookup_insert_eq.
  - unfold setField. destruct (error r) as [e|]; simpl.
    + rewrite <- insert_union_l, lookup_insert_ne by done.
      by rewrite <- insert_union_singleton_l, lookup_insert_eq.
    + by rewrite <- insert_union_singleton_l, lookup_insert_eq.
Qed.

Lemma no_pending_left s s' :
  coherent s ->
  (forall job k, job ∈ List.filter isPending (syncQueue s) -> Idb.keyOf job = Some k ->
     exists r, publishes job r /\ queueStore s' !! k = Some (settle r job)) ->
  (forall k, (forall job, job ∈ List.filter isPending (syncQueue s) -> Idb.keyOf job <> Some k) ->
     queueStore s' !! k = queueStore s !! k) ->
  forall k r, queueStore s' !! k = Some r -> isPending r = false.
Proof.
  intros Hco Hdone Hframe k r Hk.
  destruct (coherent_jobs s Hco) as (Hnd & Hmem & Hkeys).
  destruct (decide (Some k ∈ Idb.keyOf <$> List.filter isPending (syncQueue s))) as [Hin|Hout].
  - apply list_elem_of_fmap in Hin as (job & Hkey & Hjob).
    destruct (Hdone job k Hjob) as (r' & _ & Hr'); [done|].
    rewrite Hr' in Hk. injection Hk as <-. apply isPending_settle.
  - rewrite Hframe in Hk.
    + destruct (isPending r) eqn:Hp; [|done]. exfalso. apply Hout.
      apply list_elem_of_fmap. exists r. split; [symmetry; by apply Hkeys|].
      apply elem_of_filter_bool. split; [|done]. apply Hmem. eauto.
    + intros job Hjob E. apply Hout. apply list_elem_of_fmap. eauto.
Qed.

End PassFacts.

(** ** The guard flag *)

Section GuardFacts.
Context `{Platform}.

Lemma holding_bind {A B} (m : Proc A) (k : A -> Proc B) s :
  stepsIn sameFlag m s -> isSyncing s = true ->
  (forall a, Holding (k a)) -> holding (m ≫= k) s.
Proof.
  unfold mbind, proc_bind. intros Hm Hs Hk. revert s Hm Hs.
  induction m as [[a|e] | f IH | s0 q IH | q IH]; intros s Hm Hs; simpl in *; auto.
  - by apply Hk.
  - destruct Hm as [Hf Hq]. red in Hf. rewrite Hf, Hs. apply IH; [done | congruence].
Qed.

Lemma Holding_bind {A B} (m : Proc A) (k : A -> Proc B) :
  Safe sameFlag m -> (forall a, Holding (k a)) -> Holding (m ≫= k).
Proof. intros Hm Hk s Hs. by apply holding_bind. Qed.

Lemma released_advance {A} (p : Proc A) s :
  released p s ->
  match snd (advance p s) with
  | inl _ => True
  | inr _ => False
  end.
Proof.
  revert s. induction p as [c | f IH | s0 q IH | q IH]; intros s Hp; simpl in *; auto.
  - by apply IH.
  - destruct Hp. by apply IH.
Qed.

Lemma holding_advance {A} (p : Proc A) s :
  holding p s -> isSyncing s = true ->
  match snd (advance p s) with
  | inl _ => True
  | inr q => isSyncing (fst (advance p s)) = true /\ Holding q
  end.
Proof.
  revert s. induction p as [c | f IH | s0 q IH | q IH]; intros s Hp Hs; simpl in *; auto.
  - by apply IH.
  - destruct (isSyncing s0) eqn:E.
    + by apply IH.
    + pose proof (released_advance q s0 Hp) as Hr. revert Hr.
      destruct (advance q s0) as [s' [c|q']]; simpl; [done | intros []].
Qed.

(** *** The bodies that leave the flag alone *)

Lemma updateQueueJob_sameFlag v u : Safe sameFlag (updateQueueJob v u).
Proof. unfold updateQueueJob. safe; done. Qed.

Lemma commitToGitHub_sameFlag job : Safe sameFlag (commitToGitHub job).
Proof. eapply Safe_weaken; [apply worldOnly_sameFlag | apply commitToGitHub_worldOnly]. Qed.

Lemma syncOne_sameFlag job : Safe sameFlag (syncOne job).
Proof.
  unfold syncOne. safe;
    try apply commitToGitHub_sameFlag; try apply updateQueueJob_sameFlag; done.
Qed.

Lemma createOrUpdateFile_sameFlag svc t o r p c m b :
  Safe sameFlag (createOrUpdateFile svc t o r p c m b).
Proof. eapply Safe_weaken; [apply worldOnly_sameFlag | apply createOrUpdateFile_worldOnly]. Qed.

Lemma loadGitHubSettings_sameFlag : Safe sameFlag loadGitHubSettings.
Proof. unfold loadGitHubSettings. safe; done. Qed.

Lemma addToSyncQueue_sameFlag job : Safe sameFlag (addToSyncQueue job).
Proof. unfold addToSyncQueue. safe; done. Qed.

Lemma saveToGitHub_sameFlag : Safe sameFlag saveToGitHub.
Proof.
  unfold saveToGitHub, openModal. safe;
    try apply createOrUpdateFile_sameFlag; try apply loadGitHubSettings_sameFlag;
    try apply addToSyncQueue_sameFlag; done.
Qed.

Lemma forgetToken_sameFlag : Safe sameFlag forgetToken.
Proof. unfold forgetToken. safe; try apply loadGitHubSettings_sameFlag; done. Qed.

Lemma clearCompletedJobs_sameFlag : Safe sameFlag clearCompletedJobs.
Proof. unfold clearCompletedJobs. safe; done. Qed.

Lemma runCallback_sameFlag cb : Safe sameFlag (runCallback cb).
Proof. unfold runCallback. safe; done. Qed.

Lemma handleOffline_sameFlag : Safe sameFlag handleOffline.
Proof. unfold handleOffline. safe; done. Qed.

(** *** The first turn of a drain *)

Lemma processSyncQueue_first_turn s :
  advance processSyncQueue s = (s, inl (Normal tt)) \/
  (isSyncing s = false /\ onLine s = true /\
   match snd (advance processSyncQueue s) with
   | inl _ => True
   | inr q => isSyncing (fst (advance processSyncQueue s)) = true /\ Holding q
   end).
Proof.
  unfold processSyncQueue. cbn [advance].
  destruct (isSyncing s) eqn:Hf; [by left|]. destruct (onLine s) eqn:Ho; [|by left].
  cbn [orb negb]. destruct (length _ =? 0)%nat; [by left|].
  right. split; [done|]. split; [done|].
  set (rest := (updateSyncIndicator "syncing" ;; _)).
  change (advance (modify (set_isSyncing true) ;; rest) s)
    with (advance rest (set_isSyncing true s)).
  apply holding_advance; [|done]. subst rest.
  apply holding_bind; [by apply Safe_modify | done | intros _].
  apply Holding_bind; [apply Safe_forOf, syncOne_sameFlag | intros _].
  apply Holding_bind; [by apply Safe_modify | intros _].
  intros s1 Hs1. simpl. done.
Qed.

Lemma processSyncQueue_guard s :
  isSyncing s = true \/ onLine s = false ->
  advance processSyncQueue s = (s, inl (Normal tt)).
Proof.
  intros Hg. unfold processSyncQueue. cbn [advance].
  destruct (isSyncing s); [done|]. destruct (onLine s); [|done]. by destruct Hg.
Qed.

End GuardFacts.

(** ** The event loop keeps the guard *)

Section LoopFacts.
Context `{Platform}.

Lemma getFile_sameFlag svc t o r p b : Safe sameFlag (getFile svc t o r p b).
Proof. eapply Safe_weaken; [apply worldOnly_sameFlag | apply getFile_worldOnly]. Qed.

Lemma saveGitHubSettings_sameFlag : Safe sameFlag saveGitHubSettings.
Proof. unfold saveGitHubSettings. safe; try apply getFile_sameFlag; done. Qed.

Lemma guarded_updApp f sys :
  (forall s, isSyncing (f s) = isSyncing s) -> guarded sys -> guarded (updApp f sys).
Proof.
  intros Hf [Hs Hd]. split; [done|]. destruct Hd as [Hd | (q & Hq & Hflag & Hh)]; [by left|].
  right. exists q. simpl. by rewrite Hf.
Qed.

Lemma guarded_runNow p sys :
  Safe sameFlag p -> guarded sys -> guarded (runNow p sys).
Proof.
  intros Hp [Hs Hd]. split; [done|]. destruct Hd as [Hd | (q & Hq & Hflag & Hh)]; [by left|].
  right. exists q. simpl. split; [done|]. split; [|done].
  pose proof (Safe_run sameFlag p (state sys) (Hp _)) as Hsame. red in Hsame. congruence.
Qed.

Lemma guarded_startSave p sys :
  Safe sameFlag p -> guarded sys -> guarded (startSave p sys).
Proof.
  intros Hp [Hs Hd]. unfold startSave.
  generalize (Safe_advance sameFlag p (state sys) (Hp _)). unfold sameFlag.
  destruct (advance p (state sys)) as [s' [c|q']]; simpl; intros [Hsame Hq].
  - split; [done|]. destruct Hd as [Hd | (q & Hq' & Hflag & Hh)]; [by left|].
    right. exists q. split; [done|]. split; [simpl; congruence | done].
  - split; [apply Forall_app; split; [done | by constructor]|].
    destruct Hd as [Hd | (q & Hq' & Hflag & Hh)]; [by left|].
    right. exists q. split; [done|]. split; [simpl; congruence | done].
Qed.

(** An invocation of [processSyncQueue], after a handler prefix that leaves
    the flag alone. *)
Lemma guarded_startDrain_at s sys :
  isSyncing s = isSyncing (state sys) -> guarded sys ->
  guarded (match advance processSyncQueue s with
           | (s', inl _) => mkSys s' (drains sys) (saves sys)
           | (s', inr q) => mkSys s' (drains sys ++ [q]) (saves sys)
           end).
Proof.
  intros Hsame [Hs Hd].
  destruct (processSyncQueue_first_turn s) as [-> | (Hf & Ho & Hq)].
  - split; [done|]. destruct Hd as [Hd | (q & Hq' & Hflag & Hh)]; [by left|].
    right. exists q. simpl. split; [done|]. split; [simpl; congruence | done].
  - assert (drains sys = []) as Hnil.
    { destruct Hd as [Hd | (q & Hq' & Hflag & Hh)]; [done | congruence]. }
    revert Hq. destruct (advance processSyncQueue s) as [s' [c|q']]; simpl; intros Hq.
    + split; [done|]. by left.
    + split; [done|]. right. exists q'. rewrite Hnil. by destruct Hq.
Qed.

Lemma guarded_step ev sys sys' : guarded sys -> step ev sys = Some sys' -> guarded sys'.
Proof.
  intros Hg. destruct ev; simpl.
  - (* online *) intros [= <-]. unfold startDrain, handleOnline.
    change (advance (updateSyncIndicator "online" ;; processSyncQueue) (state (updApp (set_onLine true) sys)))
      with (advance processSyncQueue (set_syncIndicator (lit "online") (set_onLine true (state sys)))).
    by apply (guarded_startDrain_at _ (updApp (set_onLine true) sys)), guarded_updApp.
  - (* offline *) intros [= <-]. apply guarded_runNow; [apply handleOffline_sameFlag|].
    by apply guarded_updApp.
  - (* sync now *) intros [= <-]. unfold startDrain, syncNow.
    change (advance (s ← gets id; _) (state sys))
      with (advance (if negb (onLine (state sys))
                     then showNotification (lit "No internet connection") "error"
                     else processSyncQueue) (state sys)).
    destruct (onLine (state sys)); simpl negb; cbv iota.
    + by apply (guarded_startDrain_at _ sys).
    + by apply (guarded_runNow (showNotification _ _)); [unfold showNotification; safe|].
  - (* startup timer *) intros [= <-]. by apply (guarded_startDrain_at _ sys).
  - (* a drain resumes *)
    destruct (drains sys !! i) as [p|] eqn:Hi; [|done].
    destruct Hg as [Hs Hd]. destruct Hd as [Hd | (q & Hq & Hflag & Hh)].
    { by rewrite Hd in Hi. }
    rewrite Hq in Hi. destruct i as [|i]; [|done]. injection Hi as <-.
    generalize (holding_advance q (state sys) (Hh _ Hflag) Hflag).
    destruct (advance q (state sys)) as [s' [c|q']]; simpl; intros Hadv [= <-].
    + split; [done|]. left. by rewrite Hq.
    + split; [done|]. right. exists q'. rewrite Hq. by destruct Hadv.
  - (* save to GitHub *) intros [= <-]. apply guarded_startSave; [apply saveToGitHub_sameFlag | done].
  - (* a save resumes *)
    destruct (saves sys !! i) as [p|] eqn:Hi; [|done].
    destruct Hg as [Hs Hd].
    assert (Safe sameFlag p) as Hp.
    { rewrite Forall_forall in Hs. apply Hs. by eapply list_elem_of_lookup_2. }
    generalize (Safe_advance sameFlag p (state sys) (Hp _)). unfold sameFlag.
    destruct (advance p (state sys)) as [s' [c|q']]; simpl; intros [Hsame Hq] [= <-].
    + split; [simpl; by apply Forall_delete|].
      destruct Hd as [Hd | (q & Hq' & Hflag & Hh)]; [by left|].
      right. exists q. split; [done|]. split; [simpl; congruence | done].
    + split; [simpl; by apply Forall_insert|].
      destruct Hd as [Hd | (q & Hq' & Hflag & Hh)]; [by left|].
      right. exists q. split; [done|]. split; [simpl; congruence | done].
  - (* an IndexedDB success event *)
    destruct (callbacks (state sys) !! i) as [cb|]; [|done]. intros [= <-].
    apply guarded_runNow; [apply runCallback_sameFlag|]. by apply guarded_updApp.
  - (* purge *) intros [= <-]. apply guarded_runNow; [apply clearCompletedJobs_sameFlag | done].
  - (* forget token *) intros [= <-]. apply guarded_runNow; [apply forgetToken_sameFlag | done].
  - (* save settings *) intros [= <-].
    apply guarded_startSave; [apply saveGitHubSettings_sameFlag | done].
  - intros [= <-]. by apply guarded_updApp.
  - intros [= <-]. by apply guarded_updApp.
  - intros [= <-]. by apply guarded_updApp.
  - intros [= <-]. by apply guarded_updApp.
Qed.

Lemma reachable_guarded sys : reachable sys -> guarded sys.
Proof.
  induction 1 as [s | sys ev sys' _ IH Hstep].
  - split; [constructor | by left].
  - by eapply guarded_step.
Qed.

Lemma startDrain_noop sys :
  isSyncing (state sys) = true \/ onLine (state sys) = false ->
  startDrain processSyncQueue sys = sys.
Proof.
  intros Hg. unfold startDrain. rewrite processSyncQueue_guard by done. by destruct sys.
Qed.

End LoopFacts.

(** ** A drain that fails *)

Section ErrorPath.
Context `{Platform}.

Lemma run_updateQueueJob_missing s v k updates :
  Idb.validKey v = Some k -> queueStore s !! k = None ->
  run (updateQueueJob v updates) s = (s, Throw jobNotFound).
Proof. intros Hv Hk. unfold updateQueueJob. cbn [run]. by rewrite Hv, Hk. Qed.

(** When the record of a selected job is gone from the store, the pass ends
    with the rejection of [updateQueueJob] and the flag still up. *)
Lemma drain_error_leaves_flag_set s job rest k :
  isSyncing s = false -> onLine s = true ->
  List.filter isPending (syncQueue s) = job :: rest ->
  Idb.keyOf job = Some k -> queueStore s !! k = None ->
  snd (run processSyncQueue s) = Throw jobNotFound /\
  isSyncing (fst (run processSyncQueue s)) = true.
Proof.
  intros Hf Ho Hjobs Hkey Hk.
  cut (exists s', run processSyncQueue s = (s', Throw jobNotFound) /\ isSyncing s' = true).
  { intros (s' & -> & Hs'). by split. }
  unfold processSyncQueue. cbn [run].
  rewrite Hf, Ho, Hjobs. cbn [orb negb length Nat.eqb].
  rewrite run_bind, run_modify, run_bind. unfold updateSyncIndicator at 1.
  rewrite run_modify, run_bind, run_forOf_cons.
  unfold syncOne, logCommit. rewrite run_bind, run_modify, run_bind.
  set (s1 := set_commitLog _ _).
  destruct (commitToGitHub_run job s1) as (w & r & Hrun & _). rewrite Hrun.
  destruct (success r); rewrite run_bind;
    (rewrite (run_updateQueueJob_missing _ _ k); [|exact Hkey|exact Hk]);
    by eexists.
Qed.

End ErrorPath.

(** ** Running a body step by step *)

Section RunFacts.
Context `{Platform}.

Lemma run_awaitFetch req (s : App) w out :
  fetch (world s) req = (w, out) ->
  run (awaitFetch req) s =
  (set_world w s, match out with FetchRejected e => Throw e | FetchResolved r => Normal r end).
Proof. intros Hf. unfold awaitFetch. cbn [run]. rewrite Hf. by destruct out. Qed.

Lemma run_liftC' {A} (c : Completion A) (s : App) : run (liftC c) s = (s, c).
Proof. done. Qed.

Lemma run_mret' {A} (a : A) (s : App) : run (mret a) s = (s, Normal a).
Proof. done. Qed.

Lemma run_throw' {A} e (s : App) : run (@throw _ A e) s = (s, Throw e).
Proof. done. Qed.

Lemma run_awaitJson' r (s : App) : run (awaitJson r) s = (s, resp_json r).
Proof. done. Qed.

End RunFacts.

(** Evaluate the straight-line part of a body. *)
Ltac runs :=
  repeat first
    [ rewrite run_bind | rewrite run_tryCatch | rewrite run_liftC' | rewrite run_mret'
    | rewrite run_throw' | rewrite run_awaitJson'
    | progress cbn [toStr toStringV cbind cmap tokenHeader repoUrl negb fst snd] ].

Ltac job_fields Hjob :=
  destruct Hjob as (Htoken & Howner & Hrepo & Hpath & Hcontent & Hmessage);
  unfold repoUrl, tokenHeader;
  rewrite ?Htoken, ?Howner, ?Hrepo, ?Hpath, ?Hcontent, ?Hmessage.

(** ** The exchanges of a run *)

Section TraceFacts.
Context `{P : Platform}.

Lemma untraced_traced (s : @App P) : untraced (traced s) = s.
Proof. by destruct s. Qed.

Lemma sim_run {A} (p : @Proc P A) : forall (p' : @Proc (tracing P) A) s',
  sim p p' -> run p (untraced s') = (untraced (fst (run p' s')), snd (run p' s')).
Proof.
  induction p as [c | f IH | s0 q IH | q IH]; intros [c' | f' | s0' q' | q'] s' Hs;
    simpl in Hs; try done.
  - by subst.
  - simpl. apply IH, Hs.
  - destruct Hs as [-> Hq]. simpl. by apply IH.
  - simpl. by apply IH.
Qed.

Lemma sim_bind {A B} (m : @Proc P A) : forall (m' : @Proc (tracing P) A)
    (k : A -> @Proc P B) (k' : A -> @Proc (tracing P) B),
  sim m m' -> (forall a, sim (k a) (k' a)) -> sim (m ≫= k) (m' ≫= k').
Proof.
  unfold mbind, proc_bind.
  induction m as [c | f IH | s0 q IH | q IH]; intros [c' | f' | s0' q' | q'] k k' Hm Hk;
    simpl in Hm; try done; simpl.
  - subst c'. destruct c; [apply Hk | done].
  - intros s'. by apply IH.
  - destruct Hm as [-> Hq]. split; [done|]. by apply IH.
  - by apply IH.
Qed.

Lemma sim_tryCatch {A} (p : @Proc P A) : forall (p' : @Proc (tracing P) A)
    (h : JsError -> @Proc P A) (h' : JsError -> @Proc (tracing P) A),
  sim p p' -> (forall e, sim (h e) (h' e)) -> sim (tryCatch p h) (tryCatch p' h').
Proof.
  induction p as [c | f IH | s0 q IH | q IH]; intros [c' | f' | s0' q' | q'] h h' Hp Hh;
    simpl in Hp; try done; simpl.
  - subst c'. destruct c; [done | apply Hh].
  - intros s'. by apply IH.
  - destruct Hp as [-> Hq]. split; [done|]. by apply IH.
  - by apply IH.
Qed.

Lemma sim_awaitFetch req : sim (@awaitFetch P req) (@awaitFetch (tracing P) req).
Proof.
  unfold awaitFetch. simpl. intros s'.
  destruct (@fetch P (fst (@world (tracing P) s')) req) as [w out]. simpl.
  split; [done|]. by destruct out.
Qed.

Lemma sim_commitToGitHub job :
  sim (@commitToGitHub P job) (@commitToGitHub (tracing P) job).
Proof.
  unfold commitToGitHub, callUtf8ToBase64. cbn [script tracing].
  apply sim_tryCatch; [|done].
  repeat first
    [ done
    | apply sim_awaitFetch
    | apply sim_bind; [|intros ?]
    | match goal with |- sim (if ?b then _ else _) _ => destruct b end ].
Qed.

#[local] Instance onlyGets_refl : Reflexive (@onlyGets P).
Proof. intros s. exists []. by rewrite app_nil_r. Qed.

#[local] Instance onlyGets_trans : Transitive (@onlyGets P).
Proof.
  intros s1 s2 s3 (ex1 & H1 & G1) (ex2 & H2 & G2). exists (ex1 ++ ex2).
  split; [by rewrite H2, H1, app_assoc | by apply Forall_app].
Qed.

Lemma run_awaitFetch_tracing req (s : @App (tracing P)) w out :
  @fetch P (fst (@world (tracing P) s)) req = (w, out) ->
  run (@awaitFetch (tracing P) req) s =
  (set_world ((w, exchanges s ++ [(req, out)]) : @World (tracing P)) s,
   match out with FetchRejected e => Throw e | FetchResolved r => Normal r end).
Proof.
  intros Hf. unfold awaitFetch. cbn [run]. cbn [fetch tracing]. rewrite Hf. by destruct out.
Qed.

Lemma Safe_awaitFetch_get req :
  req_method req = "GET"%string -> Safe onlyGets (@awaitFetch (tracing P) req).
Proof.
  intros Hget s. simpl. intros s1.
  destruct (@fetch P (fst (@world (tracing P) s1)) req) as [w out]. simpl.
  split; [|by destruct out]. exists [(req, out)]. split; [done|]. by constructor.
Qed.

(** One step of a body that has sent nothing but GETs so far. *)
Lemma step_gets {A B} (m : @Proc (tracing P) A) (k : A -> @Proc (tracing P) B)
    (h : JsError -> @Proc (tracing P) B) (Q : @App (tracing P) * Completion B -> Prop) s0 s :
  onlyGets s0 s -> Safe onlyGets m ->
  (forall s1 e, onlyGets s0 s1 -> Q (run (h e) s1)) ->
  (forall s1 a, onlyGets s0 s1 -> Q (run (tryCatch (k a) h) s1)) ->
  Q (run (tryCatch (m ≫= k) h) s).
Proof.
  intros H0 Hm Hthrow Hk. rewrite run_tryCatch, run_bind.
  pose proof (Safe_run onlyGets m s (Hm s)) as H1.
  destruct (run m s) as [s1 [a|e]]; cbn [fst] in H1.
  - specialize (Hk s1 a). rewrite run_tryCatch in Hk. apply Hk. by etrans.
  - apply Hthrow. by etrans.
Qed.

Lemma last_gets_not_put (ex : list (Request * FetchOutcome)) body :
  Forall (fun x => req_method (fst x) = "GET"%string) ex -> ~ acceptedPut (last ex) body.
Proof.
  intros Hg (req & resp & Hl & Hput & _).
  apply last_Some_elem_of in Hl. rewrite Forall_forall in Hg.
  apply Hg in Hl. simpl in Hl. congruence.
Qed.

(** What a run of [commitToGitHub] on the tracing remote side returns, read
    off its last exchange. *)
Lemma commitToGitHub_traced job (s : @App (tracing P)) :
  exists r ex,
    snd (run (@commitToGitHub (tracing P) job) s) = Normal r /\
    exchanges (fst (run (@commitToGitHub (tracing P) job) s)) = exchanges s ++ ex /\
    (forall body, acceptedPut (last ex) body -> r = mkResult true (Some body) None) /\
    (success r = true -> exists body, acceptedPut (last ex) body).
Proof.
  set (Q := fun res : @App (tracing P) * Completion CommitResult =>
    exists r ex, snd res = Normal r /\ exchanges (fst res) = exchanges s ++ ex /\
      (forall body, acceptedPut (last ex) body -> r = mkResult true (Some body) None) /\
      (success r = true -> exists body, acceptedPut (last ex) body)).
  change (Q (run (@commitToGitHub (tracing P) job) s)).
  assert (forall s1 e, onlyGets s s1 ->
            Q (run (mret (mkResult false None (Some (err_message e)))) s1)) as Hthrow.
  { intros s1 e (ex & Hex & Hg). exists (mkResult false None (Some (err_message e))), ex.
    split; [done|]. split; [done|]. split; [|done].
    intros body Hb. by apply last_gets_not_put in Hb. }
  unfold commitToGitHub.
  apply (step_gets _ _ _ Q s); [reflexivity | | exact Hthrow | intros s1 branch H1].
  { destruct (negb _); [|apply Safe_ret].
    repeat (apply Safe_bind; [|intros ?]); try apply Safe_liftC.
    - by apply Safe_awaitFetch_get.
    - destruct (resp_ok _); [|apply Safe_ret].
      apply Safe_bind; [apply Safe_awaitJson | intros ?; apply Safe_liftC]. }
  do 4 (apply (step_gets _ _ _ Q s); [done | apply Safe_liftC | exact Hthrow | clear s1 H1; intros s1 ? H1]).
  apply (step_gets _ _ _ Q s); [done | by apply Safe_awaitFetch_get | exact Hthrow
                   | clear s1 H1; intros s1 fileResponse H1].
  apply (step_gets _ _ _ Q s); [done | | exact Hthrow | clear s1 H1; intros s1 sha H1].
  { destruct (resp_ok _); [|apply Safe_ret].
    apply Safe_bind; [apply Safe_awaitJson | intros ?; apply Safe_liftC]. }
  do 4 (apply (step_gets _ _ _ Q s); [done | apply Safe_liftC | exact Hthrow | clear s1 H1; intros s1 ? H1]).
  destruct H1 as (ex & Hex & Hg).
  rewrite run_tryCatch, run_bind.
  match goal with |- context [awaitFetch ?req] => set (put := req) end.
  destruct (@fetch P (fst (@world (tracing P) s1)) put) as [w out] eqn:Hf.
  rewrite (run_awaitFetch_tracing put s1 w out Hf).
  set (s2 := set_world _ s1).
  assert (exchanges s2 = exchanges s ++ (ex ++ [(put, out)])) as Hex2.
  { subst s2. unfold exchanges in *. cbn [world set_world snd]. by rewrite Hex, app_assoc. }
  assert (last (ex ++ [(put, out)]) = Some (put, out)) as Hlast by apply last_snoc.
  destruct out as [e|resp].
  { exists (mkResult false None (Some (err_message e))), (ex ++ [(put, FetchRejected e)]).
    split; [done|]. split; [done|]. split; [|done].
    intros body (req & resp & Hl & _). rewrite Hlast in Hl. congruence. }
  destruct (resp_ok resp) eqn:Hok.
  - rewrite run_bind. cbn [awaitJson run liftC].
    destruct (resp_json resp) as [body|e] eqn:Hjson; cbn [run mret proc_ret].
    + exists (mkResult true (Some body) None), (ex ++ [(put, FetchResolved resp)]).
      split; [done|]. split; [done|]. split.
      * intros body' (req & resp' & Hl & _ & _ & Hj). rewrite Hlast in Hl.
        injection Hl as <- <-. congruence.
      * intros _. exists body, put, resp. by rewrite Hlast.
    + exists (mkResult false None (Some (err_message e))), (ex ++ [(put, FetchResolved resp)]).
      split; [done|]. split; [done|]. split; [|done].
      intros body' (req & resp' & Hl & _ & _ & Hj). rewrite Hlast in Hl.
      injection Hl as <- <-. congruence.
  - assert (forall c : Completion CommitResult,
              (forall r, c <> Normal r) ->
              Q (match c with
                 | Normal a => (s2, Normal a)
                 | Throw e => run (mret (mkResult false None (Some (err_message e)))) s2
                 end)) as Hfail.
    { intros [r|e] Hc; [by destruct (Hc r)|].
      exists (mkResult false None (Some (err_message e))), (ex ++ [(put, FetchResolved resp)]).
      split; [done|]. split; [done|]. split; [|done].
      intros body' (req & resp' & Hl & _ & Hok' & _). rewrite Hlast in Hl.
      injection Hl as <- <-. congruence. }
    rewrite run_bind. cbn [awaitJson run liftC].
    destruct (resp_json resp) as [err|e]; [|by apply (Hfail (Throw e))].
    rewrite run_bind. cbn [run liftC].
    destruct (getProp err "message") as [m|e]; [|by apply (Hfail (Throw e))].
    rewrite run_bind. cbn [run liftC].
    match goal with |- context [match ?c with Normal _ => _ | Throw _ => _ end] =>
      destruct c as [msg|e] end; [|by apply (Hfail (Throw e))].
    by apply (Hfail (Throw (mkError ErrorE msg))).
Qed.

End TraceFacts.

(** ** The publisher (C10) *)

Section Publisher.
Context `{P : Platform}.

(** C10.  Whatever the HTTP calls do (a request rejects, a response is not
    OK, a body does not parse, the job has no usable content),
    [commitToGitHub] never throws, at any suspension point and in any
    interleaving: it returns [{ success: true, data }] or
    [{ success: false, error }] with a message string.  Which of the two is
    read off the exchanges of the run, noted by running the same call on
    [tracing P]: the result is [{ success: true, data }] exactly when the last
    exchange is the PUT, answered OK with a body that parses, and [data] is
    then that body; in every other case, a rejected request, a response that
    is not OK, a body that does not parse, a failure before the PUT, it is
    [{ success: false, error }].  The last part says that the PUT is reached
    and an accepted commit is reported as a success: for a job with string
    fields and a branch on a page that loaded the UTF-8 safe script, once the
    probe [r1] is answered (with the file's [sha], or not OK) and the PUT is
    answered OK with the body [result]. *)
Theorem commitToGitHub_never_throws (job : JsObj) :
  always (fun c => exists r, c = Normal r /\ isResultRecord r) (commitToGitHub job) /\
  (forall s : App,
     let noted := run (@commitToGitHub (tracing P) job) (traced s) in
     exists r,
       snd (run (commitToGitHub job) s) = Normal r /\ isResultRecord r /\
       snd noted = Normal r /\ untraced (fst noted) = fst (run (commitToGitHub job) s) /\
       (forall body, acceptedPut (last (exchanges (fst noted))) body ->
          r = mkResult true (Some body) None) /\
       (success r = true -> exists body, acceptedPut (last (exchanges (fst noted))) body) /\
       (success r = false -> exists msg, error r = Some msg /\ data r = None)) /\
  (forall (token owner repo path content message branch encoded : jsstr) (s : App)
          w1 r1 (sha : option JsVal) w2 r2 result,
     script = Utf8Variant ->
     hasJobFields job token owner repo path content message ->
     job !! "branch"%string = Some (VStr branch) -> branch <> [] ->
     fetch (world s) (commitProbeRequest token owner repo path branch)
       = (w1, FetchResolved r1) ->
     (resp_ok r1 = false /\ sha = Some VNull) \/
     (resp_ok r1 = true /\
      exists fileData, resp_json r1 = Normal fileData /\ getProp fileData "sha" = Normal sha) ->
     utf8ToBase64 content = Normal encoded ->
     fetch w1 (commitPutRequest token owner repo path encoded message
                 (Some (VStr branch)) sha) = (w2, FetchResolved r2) ->
     resp_ok r2 = true -> resp_json r2 = Normal result ->
     run (commitToGitHub job) s = (set_world w2 s, Normal (mkResult true (Some result) None))).
Proof.
  split; [apply commitToGitHub_always|]. split.
  - intros s noted.
    pose proof (sim_run _ _ (traced s) (sim_commitToGitHub job)) as Hsim.
    rewrite untraced_traced in Hsim. fold noted in Hsim.
    destruct (commitToGitHub_traced job (traced s)) as (r & ex & Hr & Hex & Hacc & Hsucc).
    fold noted in Hr, Hex. change (exchanges (traced s)) with (@nil (Request * FetchOutcome)) in Hex.
    rewrite app_nil_l in Hex. rewrite Hex.
    pose proof (always_run _ _ s (commitToGitHub_always job)) as (r' & Hr' & Hshape).
    rewrite Hsim in Hr'. cbn [snd] in Hr'. rewrite Hr in Hr'. injection Hr' as <-.
    exists r. rewrite Hsim. cbn [fst snd].
    split; [done|]. split; [done|]. split; [done|]. split; [done|].
    split; [done|]. split; [done|].
    intros Hf. destruct Hshape as [(Hs & _)|(_ & [msg Hm] & Hd)]; [congruence | eauto].
  - intros token owner repo path content message branch encoded s w1 r1 sha w2 r2 result
      Hs Hjob Hbranch Hne Hf1 Hprobe Henc Hf2 Hok2 Hjson2.
    unfold commitToGitHub, callUtf8ToBase64. rewrite Hs, Hbranch.
    assert (truthy (Some (VStr branch)) = true) as -> by (by destruct branch).
    job_fields Hjob. runs.
    rewrite (run_awaitFetch _ _ w1 (FetchResolved r1)); [|exact Hf1].
    unfold commitPutRequest in Hf2.
    destruct Hprobe as [[Hok1 ->]|(Hok1 & fileData & Hjson1 & Hsha)]; rewrite Hok1; runs.
    + rewrite Henc. runs. cbn [truthy].
      rewrite (run_awaitFetch _ _ w2 (FetchResolved r2)); [|exact Hf2].
      rewrite Hok2. runs. by rewrite Hjson2.
    + rewrite Hjson1. runs. rewrite Hsha. runs. rewrite Henc. runs.
      rewrite (run_awaitFetch _ _ w2 (FetchResolved r2)); [|exact Hf2].
      rewrite Hok2. runs. by rewrite Hjson2.
Qed.

End Publisher.

(** ** The attempts of a pass *)

Section AttemptFacts.
Context `{Platform}.

Lemma syncOne_attempt job k s :
  Idb.keyOf job = Some k -> queueStore s !! k = Some job ->
  exists r s',
    run (syncOne job) s = (s', Normal tt) /\
    snd (run (logCommit job ;; commitToGitHub job) s) = Normal r /\
    queueStore s' = <[k := settle r job]> (queueStore s).
Proof.
  intros Hkey Hk. unfold syncOne, logCommit.
  rewrite (run_bind (modify _) (fun _ => commitToGitHub job)), run_modify.
  rewrite run_bind, run_modify, run_bind.
  set (s1 := set_commitLog _ s).
  destruct (commitToGitHub_run job s1) as (w & r & Hrun & Hshape).
  rewrite Hrun. exists r.
  assert (Idb.keyOf (settle r job) = Some k) as Hk' by (by rewrite IdbFacts.keyOf_settle).
  unfold settle in Hk'. destruct (success r) eqn:Hs.
  - rewrite run_bind.
    erewrite run_updateQueueJob; [|exact Hkey|exact Hk|exact Hk'].
    unfold showNotification. rewrite run_modify. eexists. split; [done|].
    split; [done|]. unfold settle. rewrite Hs. simpl. done.
  - rewrite run_bind.
    erewrite run_updateQueueJob; [|exact Hkey|exact Hk|exact Hk'].
    rewrite run_bind.
    assert (exists m, toStr (VStr <$> error r) = Normal m) as [m Hm].
    { destruct (error r); simpl; eauto. }
    unfold liftC. rewrite Hm. cbn [run].
    unfold showNotification. rewrite run_modify. eexists. split; [done|].
    split; [done|]. unfold settle. rewrite Hs. simpl. done.
Qed.

(** The loop of a drain pass settles each job by the outcome of its own
    attempt, made in the state the loop had reached. *)
Lemma drain_loop_attempts jobs : forall s i job k,
  Idb.wf (queueStore s) ->
  NoDup (Idb.keyOf <$> jobs) ->
  (forall job, job ∈ jobs -> exists k, Idb.keyOf job = Some k /\ queueStore s !! k = Some job) ->
  jobs !! i = Some job -> Idb.keyOf job = Some k ->
  exists r,
    snd (run (logCommit job ;; commitToGitHub job)
           (fst (run (forOf (take i jobs) syncOne) s))) = Normal r /\
    queueStore (fst (run (forOf jobs syncOne) s)) !! k = Some (settle r job).
Proof.
  induction jobs as [|j rest IH]; intros s i job k Hwf Hnd Hin Hi Hkey; [done|].
  rewrite fmap_cons, NoDup_cons in Hnd. destruct Hnd as [Hj Hnd].
  destruct (Hin j) as (kj & Hkj & Hsj); [left|].
  destruct (syncOne_attempt j kj s Hkj Hsj) as (r & s1 & Hrun & Hatt & Hst).
  assert (forall job, job ∈ rest -> Idb.keyOf job <> Some kj) as Hne.
  { intros job' Hjob E. apply Hj. rewrite Hkj, <- E. apply list_elem_of_fmap. eauto. }
  assert (Idb.wf (queueStore s1)) as Hwf1.
  { rewrite Hst. apply IdbFacts.wf_insert; [done|]. by rewrite IdbFacts.keyOf_settle. }
  assert (forall job, job ∈ rest ->
            exists k, Idb.keyOf job = Some k /\ queueStore s1 !! k = Some job) as Hin1.
  { intros job' Hjob. destruct (Hin job') as (k' & Hkey' & Hk'); [by right|].
    exists k'. split; [done|]. rewrite Hst, lookup_insert_ne; [done|].
    intros ->. by apply (Hne job'). }
  rewrite run_forOf_cons, Hrun.
  destruct i as [|i].
  - injection Hi as <-. assert (kj = k) as -> by congruence.
    exists r. split; [exact Hatt|].
    destruct (drain_loop rest s1 Hwf1 Hnd Hin1) as (s' & Hrun' & _ & _ & _ & Hframe & _).
    rewrite Hrun'. cbn [fst]. rewrite Hframe by done. by rewrite Hst, lookup_insert_eq.
  - cbn [take]. rewrite run_forOf_cons, Hrun.
    by apply IH.
Qed.

Lemma attempt_settles s :
  isSyncing s = false -> onLine s = true -> coherent s ->
  forall i job k,
    List.filter isPending (syncQueue s) !! i = Some job -> Idb.keyOf job = Some k ->
    exists r, attempt s i job = Normal r /\
      queueStore (fst (run processSyncQueue s)) !! k = Some (settle r job).
Proof.
  intros Hf Ho Hco i job k Hi Hkey.
  destruct (coherent_jobs s Hco) as (Hnd & Hmem & Hkeys).
  set (jobs := List.filter isPending (syncQueue s)) in *.
  set (s0 := set_syncIndicator (lit "syncing") (set_isSyncing true s)).
  assert (Idb.wf (queueStore s0)) as Hwf by apply Hco.
  assert (NoDup (Idb.keyOf <$> jobs)) as Hnd' by (by apply NoDup_fmap_filter_bool).
  assert (forall job, job ∈ jobs ->
            exists k, Idb.keyOf job = Some k /\ queueStore s0 !! k = Some job) as Hin.
  { intros job' Hjob. apply elem_of_filter_bool in Hjob as [Hjob _].
    apply Hmem in Hjob as [k' Hk']. exists k'. split; [by apply Hkeys | done]. }
  destruct (drain_loop_attempts jobs s0 i job k Hwf Hnd' Hin Hi Hkey) as (r & Hatt & Hst).
  exists r. split.
  - unfold attempt, passState. fold jobs.
    replace (fst (run (modify (set_isSyncing true) ;; updateSyncIndicator "syncing" ;;
                       forOf (take i jobs) syncOne) s))
      with (fst (run (forOf (take i jobs) syncOne) s0)); [exact Hatt|].
    rewrite run_bind, run_modify, run_bind. unfold updateSyncIndicator.
    by rewrite run_modify.
  - destruct (drain_loop jobs s0 Hwf Hnd' Hin) as (s1 & Hrun & _).
    rewrite Hrun in Hst. cbn [fst] in Hst.
    unfold processSyncQueue. cbn [run]. rewrite Hf, Ho. cbn [orb negb].
    fold jobs. destruct jobs as [|j rest] eqn:Ej; [done|].
    cbn [length Nat.eqb].
    rewrite run_bind, run_modify, run_bind. unfold updateSyncIndicator at 1.
    rewrite run_modify. fold s0. rewrite run_bind, Hrun, run_bind. unfold loadSyncQueue.
    rewrite run_modify, run_bind, run_modify. cbn [run]. unfold updateSyncIndicator.
    rewrite run_modify. exact Hst.
Qed.

End AttemptFacts.

(** ** The drain pass (C3, C4, C5) *)

Section DrainPass.
Context `{Platform}.

Lemma pass_or_skip s :
  isSyncing s = false -> onLine s = true -> coherent s ->
  exists s',
    run processSyncQueue s = (s', Normal tt) /\
    commitLog s' = commitLog s ++ List.filter isPending (syncQueue s) /\
    Idb.wf (queueStore s') /\
    (forall job k, job ∈ List.filter isPending (syncQueue s) -> Idb.keyOf job = Some k ->
       exists r, publishes job r /\ queueStore s' !! k = Some (settle r job)) /\
    (forall k, (forall job, job ∈ List.filter isPending (syncQueue s) -> Idb.keyOf job <> Some k) ->
       queueStore s' !! k = queueStore s !! k) /\
    isSyncing s' = false /\
    (List.filter isPending (syncQueue s) <> [] ->
     callbacks s' = callbacks s ++ [CbReload (Idb.getAll (queueStore s'))]).
Proof.
  intros Hf Ho Hco.
  destruct (decide (List.filter isPending (syncQueue s) = [])) as [He|Hne].
  - exists s. rewrite processSyncQueue_skip by auto. rewrite He, app_nil_r.
    split; [done|]. split; [done|]. split; [apply Hco|].
    split; [intros job k Hj; by apply elem_of_nil in Hj|]. done.
  - destruct (processSyncQueue_pass s Hf Ho Hco Hne)
      as (s' & Hrun & Hlog & Hwf & Hdone & Hframe & Hf' & _ & _ & Hcb).
    exists s'. repeat split; done.
Qed.

Lemma settled_dom s s' :
  coherent s ->
  (forall job k, job ∈ List.filter isPending (syncQueue s) -> Idb.keyOf job = Some k ->
     exists r, publishes job r /\ queueStore s' !! k = Some (settle r job)) ->
  (forall k, (forall job, job ∈ List.filter isPending (syncQueue s) -> Idb.keyOf job <> Some k) ->
     queueStore s' !! k = queueStore s !! k) ->
  dom (queueStore s') = dom (queueStore s).
Proof.
  intros Hco Hdone Hframe. destruct (coherent_jobs s Hco) as (Hnd & Hmem & Hkeys).
  apply set_eq. intros k. rewrite !elem_of_dom.
  destruct (decide (Some k ∈ Idb.keyOf <$> List.filter isPending (syncQueue s))) as [Hin|Hout].
  - apply list_elem_of_fmap in Hin as (job & Hkey & Hjob).
    destruct (Hdone job k Hjob) as (r & _ & ->); [done|].
    apply elem_of_filter_bool in Hjob as [Hjob _]. apply Hmem in Hjob as [k' Hk'].
    assert (k' = k) as -> by (apply Hkeys in Hk'; congruence).
    rewrite Hk'. split; eauto.
  - rewrite Hframe; [done|]. intros job Hjob E. apply Hout. apply list_elem_of_fmap. eauto.
Qed.

(** C3.  From an idle, online page whose in-memory queue is the store's
    content, one drain pass against a publisher that succeeds on every
    pending job returns normally, hands exactly the pending jobs to the
    publisher one after the other in selection order, stores each of them
    with status 'completed', leaves the other records and the set of keys
    untouched, and leaves no record with status 'pending'. *)
Theorem drain_completes_all_pending (s : App) :
  isSyncing s = false -> onLine s = true -> coherent s ->
  (forall job r, job ∈ List.filter isPending (syncQueue s) -> publishes job r ->
     success r = true) ->
  let pendingJobs := List.filter isPending (syncQueue s) in
  let s' := fst (run processSyncQueue s) in
  snd (run processSyncQueue s) = Normal tt /\
  commitLog s' = commitLog s ++ pendingJobs /\
  (forall job k, job ∈ pendingJobs -> Idb.keyOf job = Some k ->
     queueStore s' !! k = Some (<["status"%string := VStr (lit "completed")]> job)) /\
  (forall k r, queueStore s' !! k = Some r -> isPending r = false) /\
  (forall k r, queueStore s !! k = Some r -> isPending r = false ->
     queueStore s' !! k = Some r) /\
  dom (queueStore s') = dom (queueStore s) /\
  isSyncing s' = false /\
  (pendingJobs <> [] ->
   callbacks s' = callbacks s ++ [CbReload (Idb.getAll (queueStore s'))]) /\
  Forall (fun r => isPending r = false) (Idb.getAll (queueStore s')).
Proof.
  intros Hf Ho Hco Hpub pendingJobs s'.
  destruct (pass_or_skip s Hf Ho Hco) as (s1 & Hrun & Hlog & Hwf & Hdone & Hframe & Hf' & Hcb).
  subst s'. rewrite Hrun. simpl.
  pose proof (no_pending_left s s1 Hco Hdone Hframe) as Hnone.
  destruct (coherent_jobs s Hco) as (Hnd & Hmem & Hkeys).
  split; [done|]. split; [done|]. split; [|split; [done|split; [|split; [|split; [done|split; [done|]]]]]].
  - intros job k Hjob Hkey. destruct (Hdone job k Hjob Hkey) as (r & Hr & ->).
    f_equal. apply settle_success. by eapply Hpub.
  - intros k r Hk Hp. rewrite Hframe; [done|]. intros job Hjob E.
    apply elem_of_filter_bool in Hjob as [Hjob Hpj]. apply Hmem in Hjob as [k' Hk'].
    assert (k' = k) as -> by (apply Hkeys in Hk'; congruence). congruence.
  - by eapply settled_dom.
  - apply Forall_forall. intros r Hr. apply IdbFacts.elem_of_getAll in Hr as [k Hk]. by eapply Hnone.
Qed.

(** C4.  In every pass from an idle, online page whose in-memory queue is the
    store's content: if the attempt the pass makes on its [i]-th selected job
    fails, the pass still returns normally, that job is stored with status
    'failed' and the message of that attempt as its 'error', every selected
    job was handed to the publisher in order, and each job after it was
    settled by the outcome of its own attempt, 'completed' or 'failed'. *)
Theorem drain_continues_after_failure (s : App) (i : nat) (failing : JsObj)
    (r : CommitResult) :
  isSyncing s = false -> onLine s = true -> coherent s ->
  List.filter isPending (syncQueue s) !! i = Some failing ->
  attempt s i failing = Normal r -> success r = false ->
  let pendingJobs := List.filter isPending (syncQueue s) in
  let s' := fst (run processSyncQueue s) in
  snd (run processSyncQueue s) = Normal tt /\
  (exists k e, Idb.keyOf failing = Some k /\ error r = Some e /\
     queueStore s' !! k =
     Some (<["error"%string := VStr e]> (<["status"%string := VStr (lit "failed")]> failing))) /\
  commitLog s' = commitLog s ++ pendingJobs /\
  (forall j job, (i < j)%nat -> pendingJobs !! j = Some job ->
     job ∈ commitLog s' /\
     exists k rj, Idb.keyOf job = Some k /\ attempt s j job = Normal rj /\
       queueStore s' !! k = Some (settle rj job) /\
       (settle rj job !! "status"%string = Some (VStr (lit "completed")) \/
        settle rj job !! "status"%string = Some (VStr (lit "failed")))) /\
  isSyncing s' = false.
Proof.
  intros Hf Ho Hco Hi Hatt Hfail pendingJobs s'.
  destruct (pass_or_skip s Hf Ho Hco) as (s1 & Hrun & Hlog & Hwf & Hdone & Hframe & Hf' & Hcb).
  pose proof (attempt_settles s Hf Ho Hco) as Hsettle.
  subst s'. rewrite Hrun in *. cbn [fst snd] in *.
  destruct (coherent_jobs s Hco) as (Hnd & Hmem & Hkeys).
  assert (forall job, job ∈ pendingJobs -> exists k, Idb.keyOf job = Some k) as Hkey.
  { intros job Hjob. apply elem_of_filter_bool in Hjob as [Hjob _].
    apply Hmem in Hjob as [k Hk]. exists k. by apply Hkeys. }
  split; [done|]. split; [|split; [done|split; [|done]]].
  - assert (failing ∈ pendingJobs) as Hin by (by eapply list_elem_of_lookup_2).
    destruct (Hkey _ Hin) as [k Hk].
    destruct (Hsettle i failing k Hi Hk) as (r' & Hr' & Hst).
    rewrite Hatt in Hr'. injection Hr' as <-.
    assert (exists e, error r = Some e) as [e He].
    { unfold attempt in Hatt. rewrite run_bind in Hatt. unfold logCommit in Hatt.
      rewrite run_modify in Hatt.
      match type of Hatt with snd (run _ ?s0) = _ =>
        destruct (commitToGitHub_run failing s0) as (w & r0 & Hr0 & Hshape) end.
      rewrite Hr0 in Hatt. injection Hatt as ->.
      destruct Hshape as [(Hs & _)|(_ & [e He] & _)]; [congruence | eauto]. }
    exists k, e. split; [done|]. split; [done|]. rewrite Hst. f_equal.
    by apply settle_failure.
  - intros j job Hij Hj.
    assert (job ∈ pendingJobs) as Hin by (by eapply list_elem_of_lookup_2).
    split; [rewrite Hlog; apply elem_of_app; by right|].
    destruct (Hkey _ Hin) as [k Hk].
    destruct (Hsettle j job k Hj Hk) as (rj & Hrj & Hst).
    exists k, rj. split; [done|]. split; [done|]. split; [done|].
    unfold settle, assign. destruct (success rj).
    + left. by rewrite <- insert_union_singleton_l, lookup_insert_eq.
    + right. unfold setField. destruct (error rj); simpl.
      * rewrite <- insert_union_l, lookup_insert_ne by done.
        by rewrite <- insert_union_singleton_l, lookup_insert_eq.
      * by rewrite <- insert_union_singleton_l, lookup_insert_eq.
Qed.

(** On a page that loaded [services/github.js] a drain pass publishes
    nothing: every pending job ends the pass with status 'failed'. *)
Lemma drain_without_helper_fails_every_job (s : App) :
  script = ServicesGithubJs ->
  isSyncing s = false -> onLine s = true -> coherent s ->
  forall job k, job ∈ List.filter isPending (syncQueue s) -> Idb.keyOf job = Some k ->
    exists r, queueStore (fst (run processSyncQueue s)) !! k = Some r /\
              r !! "status"%string = Some (VStr (lit "failed")).
Proof.
  intros Hs Hf Ho Hco job k Hjob Hkey.
  destruct (pass_or_skip s Hf Ho Hco) as (s1 & Hrun & _ & _ & Hdone & _).
  rewrite Hrun. simpl. destruct (Hdone job k Hjob Hkey) as (r & [s0 Hr] & Hk).
  pose proof (always_run _ _ s0 (commitToGitHub_unbound_helper job Hs)) as (r' & Hr' & Hfail).
  rewrite Hr in Hr'. injection Hr' as <-.
  eexists. split; [exact Hk|]. unfold settle. rewrite Hfail. unfold assign.
  apply lookup_union_Some_l. unfold setField.
  destruct (VStr <$> error r); [rewrite lookup_insert_ne by done|]; apply lookup_singleton_eq.
Qed.



End DrainPass.

(** ** Purge, at most one drain, and what is never written (C7, C8) *)

Section PurgeAndGuard.
Context `{Platform}.

Lemma foldl_deleteJob_lookup (l : list JsObj) : forall (store : gmap jsstr JsObj) k,
  foldl deleteJob store l !! k =
  if decide (Some k ∈ Idb.keyOf <$> l) then None else store !! k.
Proof.
  induction l as [|j l IH]; intros store k.
  - rewrite decide_False; [done|]. rewrite fmap_nil. apply not_elem_of_nil.
  - cbn [foldl]. rewrite fmap_cons, IH. unfold deleteJob.
    destruct (decide (Some k ∈ Idb.keyOf <$> l)) as [Hin|Hout].
    + rewrite decide_True; [done | by right].
    + destruct (Idb.keyOf j) as [kj|] eqn:Hj.
      * destruct (decide (kj = k)) as [->|Hne].
        -- rewrite decide_True by left. apply lookup_delete_eq.
        -- rewrite decide_False; [by apply lookup_delete_ne|].
           intros Hin. apply elem_of_cons in Hin as [[= ?]|?]; congruence.
      * rewrite decide_False; [done|].
        intros Hin. apply elem_of_cons in Hin as [?|?]; congruence.
Qed.

Lemma completed_keys (store : gmap jsstr JsObj) k :
  Idb.wf store ->
  Some k ∈ Idb.keyOf <$> Idb.indexGetAll "status" "completed" store <->
  exists r, store !! k = Some r /\ isCompleted r = true.
Proof.
  intros Hwf. unfold Idb.indexGetAll. rewrite list_elem_of_fmap. split.
  - intros (r & Hk & Hr). apply elem_of_filter_bool in Hr as [Hr Hc].
    apply IdbFacts.elem_of_getAll in Hr as [k' Hk']. exists r. split; [|done].
    pose proof (Hwf _ _ Hk'). assert (k' = k) as -> by congruence. done.
  - intros (r & Hk & Hc). exists r. split; [symmetry; by apply Hwf|].
    apply elem_of_filter_bool. split; [|done]. apply IdbFacts.elem_of_getAll. eauto.
Qed.

(** C8.  The purge returns normally, deletes every record whose status is
    'completed' and leaves every other record, in particular every 'pending'
    or 'failed' one, exactly as it was; no key is added.  No field of a
    record other than 'status' is read, so age plays no part. *)
Theorem purge_deletes_exactly_completed (s : App) :
  Idb.wf (queueStore s) ->
  let s' := fst (run clearCompletedJobs s) in
  snd (run clearCompletedJobs s) = Normal tt /\
  (forall k r, queueStore s !! k = Some r -> isCompleted r = true ->
     queueStore s' !! k = None) /\
  (forall k r, queueStore s !! k = Some r -> isCompleted r = false ->
     queueStore s' !! k = Some r) /\
  (forall k r, queueStore s !! k = Some r ->
     isPending r = true \/ strictEq (r !! "status"%string) "failed" = true ->
     queueStore s' !! k = Some r) /\
  (forall k, queueStore s !! k = None -> queueStore s' !! k = None).
Proof.
  intros Hwf s'. subst s'. unfold clearCompletedJobs. rewrite run_modify. simpl.
  assert (forall k r, queueStore s !! k = Some r -> isCompleted r = false ->
     foldl deleteJob (queueStore s) (Idb.indexGetAll "status" "completed" (queueStore s)) !! k
     = Some r) as Hkeep.
  { intros k r Hk Hc. rewrite foldl_deleteJob_lookup, decide_False; [done|].
    rewrite completed_keys by done. intros (r' & Hk' & Hc'). congruence. }
  split; [done|]. split; [|split; [done|split]].
  - intros k r Hk Hc. rewrite foldl_deleteJob_lookup, decide_True; [done|].
    apply completed_keys; eauto.
  - intros k r Hk Hst. apply Hkeep; [done|].
    unfold isCompleted, isPending, strictEq, jsstr_eqb in *.
    destruct (r !! "status"%string) as [[| | |x| |]|]; try done.
    destruct Hst as [Hst|Hst]; apply bool_decide_eq_true in Hst as ->; done.
  - intros k Hk. rewrite foldl_deleteJob_lookup. case_decide; done.
Qed.

Lemma guarded_drains sys :
  guarded sys -> (length (drains sys) <= 1)%nat /\
  (drains sys <> [] -> isSyncing (state sys) = true /\ length (drains sys) = 1%nat).
Proof.
  intros [_ [Hd | (q & Hq & Hflag & _)]].
  - rewrite Hd. simpl. split; [lia | done].
  - rewrite Hq. simpl. split; [lia | done].
Qed.

(** C7.  In every reachable state there is at most one suspended drain pass;
    invoking the drain while a pass is in progress or while offline changes
    nothing at all; of two invocations in a row the second is a no-op and
    exactly one pass is active; and while a pass is in progress none of the
    three triggers touches the passes, the store, the in-memory queue or the
    list of jobs handed to the publisher. *)
Theorem at_most_one_active_drain (sys : Sys) :
  reachable sys ->
  (length (drains sys) <= 1)%nat /\
  (drains sys <> [] \/ onLine (state sys) = false ->
   step EvStartupTimer sys = Some sys) /\
  (forall sys1 sys2,
     step EvStartupTimer sys = Some sys1 -> drains sys1 <> [] ->
     step EvStartupTimer sys1 = Some sys2 ->
     sys2 = sys1 /\ length (drains sys2) = 1%nat) /\
  (forall ev sys', ev = EvOnline \/ ev = EvSyncNow \/ ev = EvStartupTimer ->
     drains sys <> [] -> step ev sys = Some sys' ->
     drains sys' = drains sys /\ queueStore (state sys') = queueStore (state sys) /\
     syncQueue (state sys') = syncQueue (state sys) /\
     commitLog (state sys') = commitLog (state sys)).
Proof.
  intros Hr. pose proof (reachable_guarded sys Hr) as Hg.
  destruct (guarded_drains sys Hg) as [Hle Hact].
  split; [done|]. split; [|split].
  - intros Hc. simpl. f_equal. apply startDrain_noop.
    destruct Hc as [Hd|Ho]; [left; by apply Hact | by right].
  - intros sys1 sys2 H1 Hd1 H2.
    assert (reachable sys1) as Hr1 by (by eapply reach_step).
    destruct (guarded_drains sys1 (reachable_guarded sys1 Hr1)) as [_ Hact1].
    destruct (Hact1 Hd1) as [Hflag1 Hlen1].
    simpl in H2. rewrite startDrain_noop in H2 by auto. by injection H2 as <-.
  - intros ev sys' Hev Hd Hstep. destruct (Hact Hd) as [Hflag _].
    destruct Hev as [ -> | [ -> | -> ] ]; simpl in Hstep; injection Hstep as <-.
    + unfold startDrain, handleOnline.
      change (advance (updateSyncIndicator "online" ;; processSyncQueue)
                (state (updApp (set_onLine true) sys)))
        with (advance processSyncQueue
                (set_syncIndicator (lit "online") (set_onLine true (state sys)))).
      by rewrite processSyncQueue_guard by (by left).
    + unfold startDrain, syncNow.
      change (advance (s ← gets id; _) (state sys))
        with (advance (if negb (onLine (state sys))
                       then showNotification (lit "No internet connection") "error"
                       else processSyncQueue) (state sys)).
      destruct (onLine (state sys)); simpl negb; cbv iota.
      * by rewrite processSyncQueue_guard by (by left).
      * done.
    + by rewrite startDrain_noop by (by left).
Qed.

Lemma reachable_steps evs : forall sys,
  reachable sys -> reachable (default sys (steps evs sys)).
Proof.
  induction evs as [|ev evs IH]; intros sys Hr; [done|]. simpl.
  destruct (step ev sys) as [sys1|] eqn:Hs; [|done].
  assert (reachable sys1) as Hr1 by (by eapply reach_step).
  specialize (IH sys1 Hr1). by destruct (steps evs sys1).
Qed.

(** saveToGitHub never writes a job *)

Lemma addToSyncQueue_keyless (R : relation App) job :
  Idb.keyOf job = None -> Safe R (addToSyncQueue job).
Proof. intros Hk s. unfold addToSyncQueue. cbn [stepsIn]. unfold Idb.put. by rewrite Hk. Qed.

#[local] Instance sameStore_refl : Reflexive sameStore.
Proof. by intros s. Qed.

#[local] Instance sameStore_trans : Transitive sameStore.
Proof. unfold sameStore. intros s1 s2 s3 H1 H2. congruence. Qed.

Lemma saveToGitHub_sameStore : Safe sameStore saveToGitHub.
Proof.
  unfold saveToGitHub, openModal, loadGitHubSettings. safe; try done.
  all: first
    [ apply (stepsIn_weaken worldOnly);
        [by intros ? ? [w ->] | apply createOrUpdateFile_worldOnly]
    | by apply addToSyncQueue_keyless ].
Qed.

Lemma saveToGitHub_never_enqueues s :
  queueStore (fst (run saveToGitHub s)) = queueStore s.
Proof. apply (Safe_run sameStore). apply saveToGitHub_sameStore. Qed.

#[local] Instance sameSettingsKey_refl : Reflexive sameSettingsKey.
Proof. by intros s. Qed.

#[local] Instance sameSettingsKey_trans : Transitive sameSettingsKey.
Proof. unfold sameSettingsKey. intros s1 s2 s3 [? ?] [? ?]. split; congruence. Qed.

Lemma saveGitHubSettings_sameSettingsKey : Safe sameSettingsKey saveGitHubSettings.
Proof.
  unfold saveGitHubSettings. safe; try done.
  - apply (stepsIn_weaken worldOnly); [by intros ? ? [w ->] | apply getFile_worldOnly].
  - split; [simpl; by rewrite lookup_insert_ne | done].
Qed.

Lemma saveGitHubSettings_never_writes_restored_key s :
  let s' := fst (run saveGitHubSettings s) in
  localStorage s' !! "gitwrite-github"%string = localStorage s !! "gitwrite-github"%string /\
  sessionStorage s' = sessionStorage s.
Proof. apply (Safe_run sameSettingsKey). apply saveGitHubSettings_sameSettingsKey. Qed.

End PurgeAndGuard.

(** ** Sample pages *)

Lemma wf_storeOf jobs : Idb.wf (storeOf jobs).
Proof.
  induction jobs as [|j jobs IH]; simpl; [apply IdbFacts.wf_empty|].
  destruct (Idb.keyOf j) eqn:Hk; [by apply IdbFacts.wf_insert | done].
Qed.

Lemma coherent_pageWith P w online text jobs : coherent (pageWith P w online text jobs).
Proof. split; [apply wf_storeOf | done]. Qed.

Lemma lookup_storeOf jobs k job : storeOf jobs !! k = Some job -> job ∈ jobs.
Proof.
  induction jobs as [|j jobs IH]; simpl; [by rewrite lookup_empty|].
  destruct (Idb.keyOf j) as [kj|]; [|by right; apply IH].
  rewrite lookup_insert. case_decide; [intros [= <-]; by left | by right; apply IH].
Qed.

Lemma pending_pageWith P w online text jobs job :
  job ∈ List.filter isPending (syncQueue (pageWith P w online text jobs)) -> job ∈ jobs.
Proof.
  intros Hjob. apply elem_of_filter_bool in Hjob as [Hjob _].
  apply IdbFacts.elem_of_getAll in Hjob as [k Hk]. by eapply lookup_storeOf.
Qed.

(** ** Enqueueing (C1) *)

(** C1, at the failing input.  Offline, with "draft" in the editor, the
    publish fails with "Failed to fetch" and the catch block hands
    [{ type, content, timestamp }] to [addToSyncQueue]: the record has no 'id',
    [store.put] throws DataError, nothing is written, no reload is requested
    and "Added to sync queue" is never shown.  This holds whichever script
    the page loaded. *)
Theorem offline_save_writes_no_job (svc : ServiceFile) :
  onLine (offlineDraft svc) = false /\
  snd (run saveToGitHub (offlineDraft svc)) = Throw Idb.dataError /\
  queueStore (fst (run saveToGitHub (offlineDraft svc))) = ∅ /\
  callbacks (fst (run saveToGitHub (offlineDraft svc))) = [] /\
  notifications (fst (run saveToGitHub (offlineDraft svc))) =
    [(lit "Saving to GitHub...", lit "info");
     (lit "GitHub save failed: Failed to fetch", lit "error")].
Proof. destruct svc; repeat split; vm_compute; reflexivity. Qed.

(** The second half of C1 on a sample: a publish that fails while online is
    reported and not enqueued. *)
Lemma online_failure_is_reported (svc : ServiceFile) :
  onLine (conflictDraft svc) = true /\
  snd (run saveToGitHub (conflictDraft svc)) = Normal tt /\
  queueStore (fst (run saveToGitHub (conflictDraft svc))) = ∅ /\
  notifications (fst (run saveToGitHub (conflictDraft svc))) =
    [(lit "Saving to GitHub...", lit "info");
     (lit "GitHub save failed: Conflict", lit "error")].
Proof. destruct svc; repeat split; vm_compute; reflexivity. Qed.

(** ** Publish encoding (C2) *)

(** C2, at the failing input: a page that loaded [services/github.js].
    Interactive path: the content is encoded with [btoa(content)]; for "é"
    the request carries "6Q==", the base64 of the single octet E9 and not of
    the UTF-8 octets C3 A9, so decoding it as UTF-8 fails; for "café ☕" [btoa]
    throws and nothing is published (only the probe for the existing file was
    sent).  Queued path: [utf8ToBase64] is unbound, the ReferenceError is
    caught, the job is reported as failed and no PUT is sent. *)
Theorem interactive_publish_corrupts_non_ascii :
  putContent (world (fst (run (publishTo ServicesGithubJs [0xE9])
                              (recordingPage ServicesGithubJs))))
    = Some (VStr (lit "6Q==")) /\
  Encoding.atob (lit "6Q==") = Normal [0xE9] /\
  Encoding.utf8Encode 0xE9 = [0xC3; 0xA9] /\
  base64ToUtf8 (lit "6Q==") = Throw uriMalformed /\
  snd (run (publishTo ServicesGithubJs cafe) (recordingPage ServicesGithubJs))
    = Throw invalidCharacter /\
  req_method <$> world (fst (run (publishTo ServicesGithubJs cafe)
                                 (recordingPage ServicesGithubJs)))
    = ["GET"%string] /\
  snd (run (commitToGitHub (<["content"%string := VStr cafe]> jobA))
           (recordingPage ServicesGithubJs))
    = Normal (mkResult false None (Some (lit "utf8ToBase64 is not defined"))) /\
  req_method <$> world (fst (run (commitToGitHub (<["content"%string := VStr cafe]> jobA))
                                 (recordingPage ServicesGithubJs)))
    = ["GET"%string].
Proof. repeat split; vm_compute; reflexivity. Qed.

(** The same page drains a queue of one pending job: the job is stored as
    failed and its error names the unbound helper. *)
Lemma queued_job_fails_on_services_script :
  (fun r => (r !! "status"%string, r !! "error"%string)) <$>
    Idb.getAll (queueStore (fst (run processSyncQueue
                                   (pageWith (accepting ServicesGithubJs) tt true "" [jobA]))))
  = [(Some (VStr (lit "failed")), Some (VStr (lit "utf8ToBase64 is not defined")))].
Proof. vm_compute. reflexivity. Qed.

(** On a page that loaded the other script both paths publish "café ☕"
    intact. *)
Lemma utf8_paths_publish_cafe :
  putContent (world (fst (run (publishTo Utf8Variant cafe) (recordingPage Utf8Variant))))
    = Some (VStr (lit "Y2Fmw6kg4piV")) /\
  putContent (world (fst (run (commitToGitHub (<["content"%string := VStr cafe]> jobA))
                              (recordingPage Utf8Variant))))
    = Some (VStr (lit "Y2Fmw6kg4piV")) /\
  base64ToUtf8 (lit "Y2Fmw6kg4piV") = Normal cafe.
Proof. repeat split; vm_compute; reflexivity. Qed.

Lemma run_liftC `{Platform} {A} (c : Completion A) s : run (liftC c) s = (s, c).
Proof. done. Qed.

Lemma run_mret `{Platform} {A} (a : A) s : run (mret a) s = (s, Normal a).
Proof. done. Qed.

Lemma run_throw `{Platform} {A} e s : run (@throw _ A e) s = (s, Throw e).
Proof. done. Qed.

Lemma run_awaitJson `{Platform} r s : run (awaitJson r) s = (s, resp_json r).
Proof. done. Qed.

Lemma run_awaitFetch_recording svc req (s : @App (recording svc)) :
  run (awaitFetch req) s =
  (set_world ((req :: (world s : list Request)) : @World (recording svc)) s, Normal okResponse).
Proof. done. Qed.

(** Evaluate a body on the recording remote side, splitting on everything
    that depends on the arguments. *)
Ltac exec :=
  repeat first
    [ rewrite run_bind
    | rewrite run_tryCatch
    | rewrite run_liftC
    | rewrite run_awaitFetch_recording
    | rewrite run_awaitJson
    | rewrite run_mret
    | rewrite run_throw
    | progress cbn [resp_ok resp_json okResponse negb]
    | match goal with
      | |- context [match ?c with Normal _ => _ | Throw _ => _ end] =>
        lazymatch c with
        | run _ _ => fail
        | _ => destruct c eqn:?
        end
      | |- context [if ?b then _ else _] => destruct b eqn:?
      | |- context [match ?o with Some _ => _ | None => _ end] =>
        lazymatch o with
        | _ !! _ => fail
        | _ => destruct o eqn:?
        end
      end ].

Lemma lookup_setField_ne k k' v (o : JsObj) : k <> k' -> setField k v o !! k' = o !! k'.
Proof. intros Hk. destruct v; simpl; [by apply lookup_insert_ne | done]. Qed.

Lemma lookup_setField_eq k x (o : JsObj) : setField k (Some x) o !! k = Some x.
Proof. apply lookup_insert_eq. Qed.

Lemma commitToGitHub_payload (job : JsObj) (s : @App (recording Utf8Variant)) :
  match run (commitToGitHub job) s with
  | (s', Normal r) =>
    success r = true ->
    exists b, cbind (toStr (job !! "content"%string)) utf8ToBase64 = Normal b /\
      putContent (world s') = Some (VStr b)
  | (_, Throw _) => True
  end.
Proof.
  unfold commitToGitHub, callUtf8ToBase64. cbn [script recording].
  exec; try done; intros _; eexists; (split; [reflexivity|]);
    unfold putContent; cbn [head world set_world mbind option_bind req_body];
    rewrite ?(lookup_setField_ne "sha") by done;
    rewrite (lookup_setField_ne "message") by done;
    apply lookup_setField_eq.
Qed.

(** On the queued path of a page that loaded the UTF-8 safe script, the
    content sent is the UTF-8 safe base64 of the job's text and decodes back
    to it. *)
Lemma queued_publish_round_trips (job : JsObj) (text : jsstr)
    (s : @App (recording Utf8Variant)) r :
  job !! "content"%string = Some (VStr text) -> isJsString text ->
  snd (run (commitToGitHub job) s) = Normal r -> success r = true ->
  exists b, putContent (world (fst (run (commitToGitHub job) s))) = Some (VStr b) /\
            base64ToUtf8 b = Normal text.
Proof.
  intros Hc Hs Hr Hok. pose proof (commitToGitHub_payload job s) as Hp.
  destruct (run (commitToGitHub job) s) as [s' c]. simpl in *. subst c.
  destruct (Hp Hok) as (b & Hb & Hput).
  rewrite Hc in Hb. exists b. split; [done|].
  by apply utf8ToBase64_roundtrip.
Qed.

Lemma createOrUpdateFile_payload svc t o r p content m b (s : @App (recording svc)) :
  match run (createOrUpdateFile Utf8Variant t o r p content m b) s with
  | (s', Normal _) =>
    exists e, utf8ToBase64 content = Normal e /\ putContent (world s') = Some (VStr e)
  | (_, Throw _) => True
  end.
Proof.
  unfold createOrUpdateFile, getFile. exec; try done;
    eexists; (split; [eassumption|]);
    unfold putContent; cbn [head world set_world mbind option_bind req_body];
    rewrite (lookup_setField_ne "message") by done;
    apply lookup_setField_eq.
Qed.

(** On the interactive path of the UTF-8 safe script the content sent decodes
    back to the text published. *)
Lemma utf8_variant_publish_round_trips svc t o r p (content : jsstr) m b
    (s : @App (recording svc)) v :
  isJsString content ->
  snd (run (createOrUpdateFile Utf8Variant t o r p content m b) s) = Normal v ->
  exists e, putContent (world (fst (run (createOrUpdateFile Utf8Variant t o r p content m b) s)))
              = Some (VStr e) /\
            base64ToUtf8 e = Normal content.
Proof.
  intros Hs Hr. pose proof (createOrUpdateFile_payload svc t o r p content m b s) as Hp.
  destruct (run (createOrUpdateFile Utf8Variant t o r p content m b) s) as [s' c].
  simpl in *. subst c. destruct Hp as (e & He & Hput). exists e. split; [done|].
  by apply utf8ToBase64_roundtrip.
Qed.

(** ** Failed jobs (C5) *)



(** ** The guard flag (C6) *)

(** C6, at the failing input.  First run: the queue is loaded, a drain starts
    on job "a", the token is forgotten (which clears the store) while the
    drain awaits the publisher; [updateQueueJob] then rejects with "Job not
    found", the drain is gone and the flag is still up.  Second run: from
    there on neither regained connectivity nor "Sync Now" starts a drain.
    Third run: an undisturbed drain lowers the flag while the success event of
    its reload is still pending and the in-memory queue still shows the job as
    pending.  Fourth run: "Sync Now" at that point hands the completed job to
    the publisher again. *)
Theorem guard_flag_stays_set_after_error :
  observe <$> steps ([EvCallback 0; EvStartupTimer; EvForgetToken]
                       ++ replicate 5 (EvResumeDrain 0))
                (drainOf (accepting Utf8Variant) tt [jobA])
    = Some (0%nat, true, 1%nat, [true], [], 1%nat) /\
  observe <$> steps ([EvCallback 0; EvStartupTimer; EvForgetToken]
                       ++ replicate 5 (EvResumeDrain 0)
                       ++ [EvCallback 0; EvOffline; EvOnline; EvSyncNow])
                (drainOf (accepting Utf8Variant) tt [jobA])
    = Some (0%nat, true, 0%nat, [], [], 1%nat) /\
  observe <$> steps ([EvCallback 0; EvStartupTimer] ++ replicate 5 (EvResumeDrain 0))
                (drainOf (accepting Utf8Variant) tt [jobA])
    = Some (0%nat, false, 1%nat, [true], [false], 1%nat) /\
  observe <$> steps ([EvCallback 0; EvStartupTimer] ++ replicate 5 (EvResumeDrain 0)
                       ++ [EvSyncNow])
                (drainOf (accepting Utf8Variant) tt [jobA])
    = Some (1%nat, true, 1%nat, [true], [false], 2%nat).
Proof. repeat split; vm_compute; reflexivity. Qed.

(** ** Settings (C9) *)

(** C9, at the failing input.  The dialog is filled in with "remember" ticked
    and saved: [this.github] takes the values, the storage entry
    'github-settings' gets them with an empty token, the entry
    'gitwrite-github' that [restoreNote] reads stays absent, and after a reload
    or a restart [this.github] holds the defaults again.  This holds
    whichever script the page loaded. *)
Theorem saved_settings_are_not_restored (svc : ServiceFile) :
  snd (run saveGitHubSettings (settingsPage svc)) = Normal tt /\
  (fun k => github (fst (run saveGitHubSettings (settingsPage svc))) !! k)
    <$> settingsFields =
    [Some (VStr (lit "t0k3n")); Some (VStr (lit "alice")); Some (VStr (lit "notes"));
     Some (VStr (lit "main")); Some (VStr (lit "journal/{{date}}.md"));
     Some (VStr (lit "Journal {{date}}"))] /\
  (fun k => localStorage (fst (run saveGitHubSettings (settingsPage svc)))
              !! "github-settings"%string ≫= (.!! k)) <$> settingsFields =
    [Some (VStr []); Some (VStr (lit "alice")); Some (VStr (lit "notes"));
     Some (VStr (lit "main")); Some (VStr (lit "journal/{{date}}.md"));
     Some (VStr (lit "Journal {{date}}"))] /\
  localStorage (fst (run saveGitHubSettings (settingsPage svc)))
    !! "gitwrite-github"%string = None /\
  (fun k => github (restart (fst (run saveGitHubSettings (settingsPage svc)))) !! k)
    <$> settingsFields = (fun k => defaultGithub !! k) <$> settingsFields /\
  (fun k => github (startPage (fst (run saveGitHubSettings (settingsPage svc)))) !! k)
    <$> settingsFields =
    [Some (VStr []); Some (VStr []); Some (VStr []); Some (VStr []);
     Some (VStr (lit "notes/{{date}}.md")); Some (VStr (lit "Add note {{date}}"))].
Proof. destruct svc; repeat split; vm_compute; reflexivity. Qed.

(** ** The general theorems on sample pages *)

Lemma drain_completes_all_pending_witness :
  isSyncing pageAB = false /\ onLine pageAB = true /\ coherent pageAB /\
  (forall job r, job ∈ List.filter isPending (syncQueue pageAB) ->
     @publishes (accepting Utf8Variant) job r -> success r = true) /\
  snd (run processSyncQueue pageAB) = Normal tt /\
  commitLog (fst (run processSyncQueue pageAB))
    = commitLog pageAB ++ List.filter isPending (syncQueue pageAB) /\
  Forall (fun r => isPending r = false)
         (Idb.getAll (queueStore (fst (run processSyncQueue pageAB)))).
Proof.
  assert (forall job r, job ∈ List.filter isPending (syncQueue pageAB) ->
            @publishes (accepting Utf8Variant) job r -> success r = true) as Hpub.
  { intros job r Hjob [s0 Hs0]. apply pending_pageWith in Hjob.
    repeat (apply elem_of_cons in Hjob as [->|Hjob]);
      [vm_compute in Hs0; injection Hs0 as <-; reflexivity ..|].
    by apply elem_of_nil in Hjob. }
  pose proof (drain_completes_all_pending pageAB eq_refl eq_refl
                (coherent_pageWith _ _ _ _ _) Hpub)
    as (Hn & Hlog & _ & _ & _ & _ & _ & _ & Hall).
  split; [reflexivity|]. split; [reflexivity|]. split; [apply coherent_pageWith|].
  split; [exact Hpub|]. split; [exact Hn|]. split; [exact Hlog | exact Hall].
Defined.

Lemma drain_continues_after_failure_witness :
  isSyncing pageFlaky = false /\ onLine pageFlaky = true /\ coherent pageFlaky /\
  List.filter isPending (syncQueue pageFlaky) !! 0%nat = Some jobA /\
  attempt pageFlaky 0 jobA = Normal (mkResult false None (Some (lit "Failed to fetch"))) /\
  snd (run processSyncQueue pageFlaky) = Normal tt /\
  commitLog (fst (run processSyncQueue pageFlaky))
    = commitLog pageFlaky ++ List.filter isPending (syncQueue pageFlaky) /\
  (exists k, Idb.keyOf jobA = Some k /\
     queueStore (fst (run processSyncQueue pageFlaky)) !! k =
     Some (<["error"%string := VStr (lit "Failed to fetch")]>
             (<["status"%string := VStr (lit "failed")]> jobA))) /\
  (exists k rb, Idb.keyOf jobB = Some k /\ attempt pageFlaky 1 jobB = Normal rb /\
     queueStore (fst (run processSyncQueue pageFlaky)) !! k = Some (settle rb jobB)).
Proof.
  assert (List.filter isPending (syncQueue pageFlaky) !! 0%nat = Some jobA) as Hi
    by (vm_compute; reflexivity).
  assert (attempt pageFlaky 0 jobA
          = Normal (mkResult false None (Some (lit "Failed to fetch")))) as Hatt
    by (vm_compute; reflexivity).
  pose proof (drain_continues_after_failure pageFlaky 0 jobA _
                eq_refl eq_refl (coherent_pageWith _ _ _ _ _) Hi Hatt eq_refl)
    as (Hn & (k & e & Hk & He & Hst) & Hlog & Hlater & _).
  split; [reflexivity|]. split; [reflexivity|]. split; [apply coherent_pageWith|].
  split; [exact Hi|]. split; [exact Hatt|]. split; [exact Hn|].
  split; [exact Hlog|]. split.
  - exists k. split; [exact Hk|]. cbn [error] in He. injection He as <-. exact Hst.
  - destruct (Hlater 1%nat jobB) as (_ & kb & rb & Hkb & Hrb & Hsb & _);
      [lia | vm_compute; reflexivity |].
    exists kb, rb. split; [exact Hkb|]. split; [exact Hrb | exact Hsb].
Defined.

(** On that page the first job is stored as failed and the second as
    completed. *)
Lemma flaky_pass_fails_then_completes :
  (fun r => (r !! "id"%string, r !! "status"%string, r !! "error"%string)) <$>
    Idb.getAll (queueStore (fst (run processSyncQueue pageFlaky)))
  = [(Some (VStr (lit "a")), Some (VStr (lit "failed")), Some (VStr (lit "Failed to fetch")));
     (Some (VStr (lit "b")), Some (VStr (lit "completed")), None)].
Proof. vm_compute. reflexivity. Qed.

(** The same when the remote side refuses the first job for good: its
    message is recorded and the second job is completed. *)
Lemma conflict_pass_fails_then_completes :
  (fun r => (r !! "id"%string, r !! "status"%string, r !! "error"%string)) <$>
    Idb.getAll (queueStore (fst (run processSyncQueue pageConflict)))
  = [(Some (VStr (lit "a")), Some (VStr (lit "failed")), Some (VStr (lit "Conflict")));
     (Some (VStr (lit "b")), Some (VStr (lit "completed")), None)].
Proof. vm_compute. reflexivity. Qed.

Lemma commitToGitHub_never_throws_witness :
  run (commitToGitHub jobA) (idlePage (accepting Utf8Variant) tt)
    = (idlePage (accepting Utf8Variant) tt, Normal (mkResult true (Some (VObj [])) None)) /\
  acceptedPut
    (last (exchanges (fst (run (@commitToGitHub (tracing (accepting Utf8Variant)) jobA)
                             (traced (idlePage (accepting Utf8Variant) tt))))))
    (VObj []).
Proof.
  destruct (commitToGitHub_never_throws (P := accepting Utf8Variant) jobA)
    as (_ & Hnoted & Haccepted).
  assert (run (commitToGitHub jobA) (idlePage (accepting Utf8Variant) tt)
          = (idlePage (accepting Utf8Variant) tt,
             Normal (mkResult true (Some (VObj [])) None))) as Hrun.
  { apply (Haccepted (lit "t") (lit "o") (lit "r") (lit "notes/a.md") (lit "first")
             (lit "Add note") (lit "main") (lit "Zmlyc3Q=")
             (idlePage (accepting Utf8Variant) tt) tt okResponse None tt okResponse (VObj [])).
    - reflexivity.
    - repeat split; vm_compute; reflexivity.
    - vm_compute. reflexivity.
    - discriminate.
    - reflexivity.
    - right. split; [reflexivity|]. exists (VObj []). split; reflexivity.
    - vm_compute. reflexivity.
    - reflexivity.
    - reflexivity.
    - reflexivity. }
  split; [exact Hrun|].
  destruct (Hnoted (idlePage (accepting Utf8Variant) tt))
    as (r & Hr & _ & _ & _ & Hacc & Hsucc & _).
  rewrite Hrun in Hr. injection Hr as <-.
  destruct (Hsucc eq_refl) as [body Hbody].
  pose proof (Hacc body Hbody) as Heq. injection Heq as <-. exact Hbody.
Defined.

Lemma at_most_one_active_drain_witness :
  reachable sysDraining /\ length (drains sysDraining) = 1%nat /\
  step EvStartupTimer sysDraining = Some sysDraining.
Proof.
  assert (reachable sysDraining) as Hr by apply reachable_steps, reach_loaded.
  destruct (at_most_one_active_drain sysDraining Hr) as (Hle & Hnoop & _ & _).
  assert (length (drains sysDraining) = 1%nat) as Hlen by (vm_compute; reflexivity).
  split; [exact Hr|]. split; [exact Hlen|]. apply Hnoop. left.
  intros Hnil. rewrite Hnil in Hlen. discriminate Hlen.
Defined.

Lemma purge_deletes_exactly_completed_witness :
  Idb.wf (queueStore pageACF) /\
  snd (run clearCompletedJobs pageACF) = Normal tt /\
  queueStore (fst (run clearCompletedJobs pageACF)) !! lit "c" = None /\
  (forall k r, queueStore pageACF !! k = Some r -> isCompleted r = false ->
     queueStore (fst (run clearCompletedJobs pageACF)) !! k = Some r).
Proof.
  pose proof (purge_deletes_exactly_completed pageACF (wf_storeOf _))
    as (Hn & Hdel & Hkeep & _ & _).
  split; [apply wf_storeOf|]. split; [exact Hn|]. split; [|exact Hkeep].
  apply (Hdel (lit "c") jobC); [|vm_compute; reflexivity].
  change (queueStore pageACF)
    with (<[lit "a" := jobA]> (<[lit "c" := jobC]> (<[lit "f" := jobF]> (∅ : gmap jsstr JsObj)))).
  rewrite lookup_insert_ne by (by vm_compute). apply lookup_insert_eq.
Defined.

(* ================================================================== *)
(** * Further properties of the code *)
(* ================================================================== *)

Lemma encodeURIComponent_lone_surrogate s :
  isWellFormed s = false -> Encoding.encodeURIComponent s = Throw uriMalformed.
Proof.
  assert (forall c, Encoding.uriUnescaped c = true ->
            Encoding.isTrail c = false /\ Encoding.isLead c = false) as Hu.
  { intros c Hc. apply EncodingFacts.uriUnescaped_ascii in Hc as [Hc _].
    unfold Encoding.isTrail, Encoding.isLead, Encoding.inRange.
    split; apply andb_false_iff; left; apply N.leb_gt; lia. }
  induction s as [| c | c d rest IH2 IH1] using EncodingFacts.list_ind2; intros Hw.
  - done.
  - rewrite EncodingFacts.encodeURIComponent_cons. cbn [isWellFormed] in Hw.
    destruct (Encoding.uriUnescaped c) eqn:Eu.
    { destruct (Hu c Eu) as [Et El]. by rewrite Et, El in Hw. }
    destruct (Encoding.isTrail c); [done|]. destruct (Encoding.isLead c); done.
  - rewrite EncodingFacts.encodeURIComponent_cons.
    assert (isWellFormed (c :: d :: rest) =
            if Encoding.isTrail c then false
            else if Encoding.isLead c then Encoding.isTrail d && isWellFormed rest
            else isWellFormed (d :: rest)) as Hw' by done.
    rewrite Hw' in Hw. clear Hw'.
    destruct (Encoding.uriUnescaped c) eqn:Eu.
    { destruct (Hu c Eu) as [Et El]. rewrite Et, El in Hw. by rewrite (IH1 Hw). }
    destruct (Encoding.isTrail c); [done|]. destruct (Encoding.isLead c).
    { destruct (Encoding.isTrail d); [|done]. by rewrite (IH2 Hw). }
    by rewrite (IH1 Hw).
Qed.

(** X1.  [utf8ToBase64] followed by [base64ToUtf8] is the identity on every
    string without a lone surrogate: the first returns, and the second gives
    the string back. *)
Theorem utf8ToBase64_then_base64ToUtf8 (s : jsstr) :
  isJsString s -> isWellFormed s = true ->
  exists b, utf8ToBase64 s = Normal b /\ base64ToUtf8 b = Normal s.
Proof.
  intros Hs Hw. destruct (EncodingFacts.encodeURIComponent_total s Hw) as [e He].
  destruct (EncodingFacts.uri_roundtrip s Hs e He) as [Hoct _].
  assert (utf8ToBase64 s = Normal (Encoding.b64enc (Encoding.unescape e))) as Hb.
  { unfold utf8ToBase64. rewrite He. cbn [cbind]. unfold Encoding.btoa.
    replace (forallb _ _) with true; [done|]. symmetry. apply forallb_forall.
    intros c Hc. apply N.ltb_lt. rewrite Forall_forall in Hoct. apply Hoct.
    by apply list_elem_of_In. }
  eexists. split; [exact Hb|]. by apply utf8ToBase64_roundtrip.
Qed.

Lemma utf8ToBase64_then_base64ToUtf8_witness :
  exists b, utf8ToBase64 cafe = Normal b /\ base64ToUtf8 b = Normal cafe.
Proof.
  apply (utf8ToBase64_then_base64ToUtf8 cafe).
  - repeat constructor.
  - reflexivity.
Defined.

(** X2.  On a string with a lone surrogate [utf8ToBase64] throws URIError. *)
Theorem utf8ToBase64_lone_surrogate (s : jsstr) :
  isWellFormed s = false -> utf8ToBase64 s = Throw uriMalformed.
Proof.
  intros Hw. unfold utf8ToBase64. by rewrite (encodeURIComponent_lone_surrogate s Hw).
Qed.

Lemma utf8ToBase64_lone_surrogate_witness :
  utf8ToBase64 [104; 0xD83D; 105] = Throw uriMalformed.
Proof. apply (utf8ToBase64_lone_surrogate [104; 0xD83D; 105]). reflexivity. Defined.

Section ServiceFacts.
Context `{Platform}.

Lemma run_getFile svc (token owner repo path : jsstr) (branch : option jsstr) (s : App) :
  run (getFile svc (Some (VStr token)) (Some (VStr owner)) (Some (VStr repo))
         (Some (VStr path)) (VStr <$> branch)) s =
  run (response ← awaitFetch
         (getFileRequest token owner repo path (default (lit "main") branch));
       if negb (resp_ok response) then throw (mkError ErrorE (lit "File not found"))
       else
         data ← awaitJson response;
         match svc with
         | ServicesGithubJs => mret data
         | Utf8Variant =>
           content ← liftC (getProp data "content");
           if truthy content then
             match content with
             | Some c =>
               stripped ← liftC (stripNewlines c);
               decoded ← liftC (base64ToUtf8 stripped);
               mret (setDecodedContent decoded data)
             | None => mret data
             end
           else mret data
         end) s.
Proof. by destruct branch. Qed.

(** X3.  [getFile] on a response that is not OK rejects with "File not found",
    whatever the status and the body; the one request sent is the GET of the
    file at the branch, "main" when none is given. *)
Theorem getFile_not_found svc (token owner repo path : jsstr) (branch : option jsstr)
    (s : App) w r :
  fetch (world s) (getFileRequest token owner repo path (default (lit "main") branch))
    = (w, FetchResolved r) ->
  resp_ok r = false ->
  run (getFile svc (Some (VStr token)) (Some (VStr owner)) (Some (VStr repo))
         (Some (VStr path)) (VStr <$> branch)) s
  = (set_world w s, Throw (mkError ErrorE (lit "File not found"))).
Proof.
  intros Hf Hok. rewrite run_getFile, run_bind, (run_awaitFetch _ _ _ _ Hf).
  by rewrite Hok.
Qed.


Lemma filter_filter_implied {A} (f g : A -> bool) (l : list A) :
  (forall x, f x = true -> g x = true) -> List.filter f (List.filter g l) = List.filter f l.
Proof.
  intros Hfg. induction l as [|x l IH]; [done|]. simpl.
  destruct (g x) eqn:Eg; simpl; [by rewrite IH|].
  destruct (f x) eqn:Ef; [|done]. apply Hfg in Ef. congruence.
Qed.

Lemma base64ToUtf8_wrapped (c : jsstr) :
  base64ToUtf8 (List.filter (fun x => negb (x =? 10)) c) =
  base64ToUtf8 (List.filter (fun x => negb (Encoding.isAsciiWhitespace x)) c).
Proof.
  unfold base64ToUtf8, Encoding.atob. rewrite !filter_filter_implied; [done| |].
  - done.
  - intros x. unfold Encoding.isAsciiWhitespace. destruct (x =? 10); [|done].
    by rewrite !orb_true_r.
Qed.

(** X4.  The variant's [getFile] decodes what its [createOrUpdateFile]
    encodes: when the body's 'content' is the [utf8ToBase64] of a text, broken
    into lines in any way, 'decodedContent' is that text. *)
Theorem getFile_decodes_published_text (token owner repo path : jsstr)
    (branch : option jsstr) (s : App) w r data (c text b : jsstr) :
  fetch (world s) (getFileRequest token owner repo path (default (lit "main") branch))
    = (w, FetchResolved r) ->
  resp_ok r = true -> resp_json r = Normal data ->
  getProp data "content" = Normal (Some (VStr c)) -> c <> [] ->
  isJsString text -> utf8ToBase64 text = Normal b ->
  List.filter (fun x => negb (Encoding.isAsciiWhitespace x)) c = b ->
  run (getFile Utf8Variant (Some (VStr token)) (Some (VStr owner)) (Some (VStr repo))
         (Some (VStr path)) (VStr <$> branch)) s
  = (set_world w s, Normal (setDecodedContent text data)).
Proof.
  intros Hf Hok Hjson Hc Hne Hs Hb Hwrap.
  rewrite run_getFile, run_bind, (run_awaitFetch _ _ _ _ Hf), Hok. cbn [negb].
  rewrite run_bind, run_awaitJson', Hjson, run_bind, run_liftC', Hc.
  assert (truthy (Some (VStr c)) = true) as -> by (by destruct c).
  rewrite run_bind, run_liftC'. cbn [stripNewlines].
  rewrite run_bind, run_liftC', base64ToUtf8_wrapped, Hwrap.
  by rewrite (utf8ToBase64_roundtrip text b Hs Hb).
Qed.

(** The probe of [createOrUpdateFile]: [getFile], and 'sha' of what it
    returns; any failure leaves the sha undefined. *)
Lemma run_probe svc t o r p b (s : App) :
  exists w,
    run (tryCatch (existing ← getFile svc t o r p b; liftC (getProp existing "sha"))
                  (fun _ => mret None)) s
    = (set_world w s,
       Normal match snd (run (getFile svc t o r p b) s) with
              | Normal existing =>
                match getProp existing "sha" with Normal v => v | Throw _ => None end
              | Throw _ => None
              end) /\
    fst (run (getFile svc t o r p b) s) = set_world w s.
Proof.
  pose proof (Safe_run worldOnly (getFile svc t o r p b) s (getFile_worldOnly _ _ _ _ _ _ s))
    as [w Hw].
  exists w. rewrite run_tryCatch, run_bind.
  destruct (run (getFile svc t o r p b) s) as [s1 [existing|e]]; cbn [fst snd] in *; subst s1.
  - split; [|done]. rewrite run_liftC'. by destruct (getProp existing "sha").
  - done.
Qed.

(** X5.  [createOrUpdateFile] sends the sha that its probe found, and none
    when the probe failed in any way; when the PUT is answered OK it returns
    the parsed body. *)
Theorem createOrUpdateFile_puts_probed_sha svc (token owner repo path content message : jsstr)
    (branch : option jsstr) (s : App) encoded w r :
  let b := default (lit "main") branch in
  let probe := run (getFile svc (Some (VStr token)) (Some (VStr owner)) (Some (VStr repo))
                      (Some (VStr path)) (Some (VStr b))) s in
  let sha := match snd probe with
             | Normal existing =>
               match getProp existing "sha" with Normal v => v | Throw _ => None end
             | Throw _ => None
             end in
  encodeContent svc content = Normal encoded ->
  fetch (world (fst probe)) (putFileRequest token owner repo path encoded message b sha)
    = (w, FetchResolved r) ->
  resp_ok r = true ->
  run (createOrUpdateFile svc (Some (VStr token)) (Some (VStr owner)) (Some (VStr repo))
         (Some (VStr path)) content (Some (VStr message)) (VStr <$> branch)) s
  = (set_world w s, resp_json r).
Proof.
  intros b probe sha Henc Hput Hok. subst probe.
  unfold createOrUpdateFile.
  assert (orMain (VStr <$> branch) = Some (VStr b)) as -> by (by destruct branch).
  destruct (run_probe svc (Some (VStr token)) (Some (VStr owner)) (Some (VStr repo))
              (Some (VStr path)) (Some (VStr b)) s) as (w1 & Hprobe & Hw1).
  rewrite Hw1 in Hput. cbn [world set_world] in Hput.
  rewrite run_tryCatch, run_bind, Hprobe. fold sha.
  rewrite run_bind, run_liftC'. cbn [contentsUrl toStr toStringV cbind].
  rewrite run_bind, run_liftC'. cbn [tokenHeader toStr toStringV cmap cbind].
  rewrite run_bind, run_liftC', Henc.
  rewrite run_bind, (run_awaitFetch _ _ w (FetchResolved r)); [|exact Hput].
  rewrite Hok. cbn [negb]. rewrite run_awaitJson'. cbn [fst snd].
  by destruct (resp_json r).
Qed.

(** X6.  When the PUT is not answered OK, [createOrUpdateFile] rejects with
    an Error whose message is the 'message' of the response body. *)
Theorem createOrUpdateFile_rejects_with_api_message svc
    (token owner repo path content message : jsstr) (branch : option jsstr)
    (s : App) encoded w r body (msg : jsstr) :
  let b := default (lit "main") branch in
  let probe := run (getFile svc (Some (VStr token)) (Some (VStr owner)) (Some (VStr repo))
                      (Some (VStr path)) (Some (VStr b))) s in
  let sha := match snd probe with
             | Normal existing =>
               match getProp existing "sha" with Normal v => v | Throw _ => None end
             | Throw _ => None
             end in
  encodeContent svc content = Normal encoded ->
  fetch (world (fst probe)) (putFileRequest token owner repo path encoded message b sha)
    = (w, FetchResolved r) ->
  resp_ok r = false -> resp_json r = Normal body ->
  getProp body "message" = Normal (Some (VStr msg)) ->
  run (createOrUpdateFile svc (Some (VStr token)) (Some (VStr owner)) (Some (VStr repo))
         (Some (VStr path)) content (Some (VStr message)) (VStr <$> branch)) s
  = (set_world w s, Throw (mkError ErrorE msg)).
Proof.
  intros b probe sha Henc Hput Hok Hjson Hmsg. subst probe.
  unfold createOrUpdateFile.
  assert (orMain (VStr <$> branch) = Some (VStr b)) as -> by (by destruct branch).
  destruct (run_probe svc (Some (VStr token)) (Some (VStr owner)) (Some (VStr repo))
              (Some (VStr path)) (Some (VStr b)) s) as (w1 & Hprobe & Hw1).
  rewrite Hw1 in Hput. cbn [world set_world] in Hput.
  rewrite run_tryCatch, run_bind, Hprobe. fold sha.
  rewrite run_bind, run_liftC'. cbn [contentsUrl toStr toStringV cbind].
  rewrite run_bind, run_liftC'. cbn [tokenHeader toStr toStringV cmap cbind].
  rewrite run_bind, run_liftC', Henc.
  rewrite run_bind, (run_awaitFetch _ _ w (FetchResolved r)); [|exact Hput].
  rewrite Hok. cbn [negb]. rewrite run_bind, run_awaitJson', Hjson.
  rewrite run_bind, run_liftC', Hmsg. by rewrite run_bind, run_liftC'.
Qed.


(** X7.  When the first request of [commitToGitHub] is rejected (no network
    path), the result is [{ success: false, error }] with the message of the
    rejection, and nothing else is sent. *)
Theorem commitToGitHub_network_failure (job : JsObj)
    (token owner repo path content message branch : jsstr) (s : App) w e :
  hasJobFields job token owner repo path content message ->
  job !! "branch"%string = Some (VStr branch) -> branch <> [] ->
  fetch (world s) (commitProbeRequest token owner repo path branch) = (w, FetchRejected e) ->
  run (commitToGitHub job) s
  = (set_world w s, Normal (mkResult false None (Some (err_message e)))).
Proof.
  intros Hjob Hbranch Hne Hf. unfold commitToGitHub. rewrite Hbranch.
  assert (truthy (Some (VStr branch)) = true) as -> by (by destruct branch).
  job_fields Hjob. runs.
  by rewrite (run_awaitFetch _ _ w (FetchRejected e)); [|exact Hf].
Qed.

(** X8.  When the PUT of [commitToGitHub] is not answered OK, whether the
    file exists or not, the result is [{ success: false, error }] where the
    error is the 'message' of the response body, and "HTTP <status>" when the
    body has no message or an empty one.  [sha] is what the probe gave: the
    'sha' of its body when it was answered OK, [null] when it was not. *)
Theorem commitToGitHub_reports_api_failure (job : JsObj)
    (token owner repo path content message branch encoded : jsstr) (s : App)
    w1 r1 (sha : option JsVal) w2 r2 body (msg : option jsstr) :
  script = Utf8Variant ->
  hasJobFields job token owner repo path content message ->
  job !! "branch"%string = Some (VStr branch) -> branch <> [] ->
  fetch (world s) (commitProbeRequest token owner repo path branch) = (w1, FetchResolved r1) ->
  (resp_ok r1 = false /\ sha = Some VNull) \/
  (resp_ok r1 = true /\
   exists fileData, resp_json r1 = Normal fileData /\ getProp fileData "sha" = Normal sha) ->
  utf8ToBase64 content = Normal encoded ->
  fetch w1 (commitPutRequest token owner repo path encoded message (Some (VStr branch)) sha)
    = (w2, FetchResolved r2) ->
  resp_ok r2 = false -> resp_json r2 = Normal body ->
  getProp body "message" = Normal (VStr <$> msg) ->
  run (commitToGitHub job) s
  = (set_world w2 s,
     Normal (mkResult false None
               (Some match msg with
                     | Some (c :: m) => c :: m
                     | _ => lit "HTTP " ++ decimal (resp_status r2)
                     end))).
Proof.
  intros Hs Hjob Hbranch Hne Hf1 Hprobe Henc Hf2 Hok2 Hjson Hmsg.
  unfold commitToGitHub, callUtf8ToBase64. rewrite Hs, Hbranch.
  assert (truthy (Some (VStr branch)) = true) as -> by (by destruct branch).
  job_fields Hjob. runs.
  rewrite (run_awaitFetch _ _ w1 (FetchResolved r1)); [|exact Hf1].
  unfold commitPutRequest in Hf2.
  destruct Hprobe as [[Hok1 ->]|(Hok1 & fileData & Hjson1 & Hsha)]; rewrite Hok1; runs.
  - rewrite Henc. runs. cbn [truthy].
    rewrite (run_awaitFetch _ _ w2 (FetchResolved r2)); [|exact Hf2].
    rewrite Hok2. runs. rewrite Hjson. runs. rewrite Hmsg. runs.
    by destruct msg as [[|c m]|].
  - rewrite Hjson1. runs. rewrite Hsha. runs. rewrite Henc. runs.
    rewrite (run_awaitFetch _ _ w2 (FetchResolved r2)); [|exact Hf2].
    rewrite Hok2. runs. rewrite Hjson. runs. rewrite Hmsg. runs.
    by destruct msg as [[|c m]|].
Qed.

(** X9.  When the file exists, [commitToGitHub] sends its sha with the PUT;
    when the PUT is answered OK the result is [{ success: true, data }] with
    the parsed body. *)
Theorem commitToGitHub_updates_existing_file (job : JsObj)
    (token owner repo path content message branch encoded sha : jsstr) (s : App)
    w1 r1 fileData w2 r2 result :
  script = Utf8Variant ->
  hasJobFields job token owner repo path content message ->
  job !! "branch"%string = Some (VStr branch) -> branch <> [] ->
  fetch (world s) (commitProbeRequest token owner repo path branch) = (w1, FetchResolved r1) ->
  resp_ok r1 = true -> resp_json r1 = Normal fileData ->
  getProp fileData "sha" = Normal (Some (VStr sha)) ->
  utf8ToBase64 content = Normal encoded ->
  fetch w1 (commitPutRequest token owner repo path encoded message (Some (VStr branch))
              (Some (VStr sha))) = (w2, FetchResolved r2) ->
  resp_ok r2 = true -> resp_json r2 = Normal result ->
  run (commitToGitHub job) s = (set_world w2 s, Normal (mkResult true (Some result) None)).
Proof.
  intros Hs Hjob Hbranch Hne Hf1 Hok1 Hjson1 Hsha Henc Hf2 Hok2 Hjson2.
  unfold commitToGitHub, callUtf8ToBase64. rewrite Hs, Hbranch.
  assert (truthy (Some (VStr branch)) = true) as -> by (by destruct branch).
  job_fields Hjob. runs.
  rewrite (run_awaitFetch _ _ w1 (FetchResolved r1)); [|exact Hf1]. rewrite Hok1. runs.
  rewrite Hjson1. runs. rewrite Hsha. runs. rewrite Henc. runs.
  rewrite (run_awaitFetch _ _ w2 (FetchResolved r2)); [|exact Hf2].
  rewrite Hok2. runs. by rewrite Hjson2.
Qed.

(** X10.  A job without a branch is committed to the repository's default
    branch: once the repository has been asked, [commitToGitHub] goes on as
    it does for the same job with 'branch' set to the 'default_branch' of the
    answer. *)
Theorem commitToGitHub_default_branch (job : JsObj) (token owner repo db : jsstr)
    (s : App) w r repoData :
  job !! "token"%string = Some (VStr token) -> job !! "owner"%string = Some (VStr owner) ->
  job !! "repo"%string = Some (VStr repo) ->
  truthy (job !! "branch"%string) = false ->
  fetch (world s) (repoRequest token owner repo) = (w, FetchResolved r) ->
  resp_ok r = true -> resp_json r = Normal repoData ->
  getProp repoData "default_branch" = Normal (Some (VStr db)) -> db <> [] ->
  run (commitToGitHub job) s
  = run (commitToGitHub (<["branch"%string := VStr db]> job)) (set_world w s).
Proof.
  intros Htoken Howner Hrepo Hbranch Hf Hok Hjson Hdb Hne.
  unfold commitToGitHub, repoUrl, tokenHeader. rewrite Hbranch.
  rewrite lookup_insert_eq, !lookup_insert_ne by done.
  assert (truthy (Some (VStr db)) = true) as -> by (by destruct db).
  rewrite Htoken, Howner, Hrepo. cbn [negb].
  rewrite !run_tryCatch. f_equal.
  runs.
  rewrite (run_awaitFetch _ _ w (FetchResolved r)); [|exact Hf]. rewrite Hok. runs.
  rewrite Hjson. runs.
  rewrite Hdb. runs. reflexivity.
Qed.

End ServiceFacts.

Lemma getFile_not_found_witness :
  run (getFile ServicesGithubJs (Some (VStr (lit "t"))) (Some (VStr (lit "o")))
         (Some (VStr (lit "r"))) (Some (VStr (lit "README.md"))) None)
      (pageWith (missing ServicesGithubJs) tt true "" [])
  = (pageWith (missing ServicesGithubJs) tt true "" [],
     Throw (mkError ErrorE (lit "File not found"))).
Proof.
  apply (getFile_not_found (H := missing ServicesGithubJs) ServicesGithubJs
           (lit "t") (lit "o") (lit "r") (lit "README.md") None
           (pageWith (missing ServicesGithubJs) tt true "" []) tt notFoundResponse);
    reflexivity.
Defined.

Section SaveFacts.
Context `{Platform}.

(** X11.  Without a token [saveToGitHub] sends nothing and writes nothing: its
    only effect is to open the GitHub dialog, filled with the current
    settings. *)
Theorem saveToGitHub_without_token (s : App) (owner repo branch path message : jsstr) :
  stringSettings (github s) [] owner repo branch path message ->
  run saveToGitHub s
  = (set_modal (Some "github-modal"%string)
       (set_form (mkForm [] owner repo branch path message
                    (truthy (github s !! "rememberToken"%string))) s),
     Normal tt).
Proof.
  intros (Ht & Ho & Hr & Hb & Hp & Hm). unfold saveToGitHub.
  rewrite run_tryCatch, run_bind. cbn [gets run mret proc_ret id]. rewrite Ht. cbn [truthy negb].
  unfold openModal. cbn [String.eqb Ascii.eqb Bool.eqb].
  unfold loadGitHubSettings, setInput.
  rewrite !run_bind. cbn [gets run mret proc_ret id]. rewrite Ht, Ho, Hr, Hb, Hp, Hm.
  cbn. done.
Qed.

(** X12.  [saveGitHubSettings] with the token, the owner or the repository left
    empty shows "Please fill in required GitHub settings" and changes nothing
    else: no request, no setting, no storage entry. *)
Theorem saveGitHubSettings_requires_fields (s : App) :
  f_token (form s) = [] \/ f_owner (form s) = [] \/ f_repo (form s) = [] ->
  run saveGitHubSettings s
  = (set_notifications
       (notifications s ++ [(lit "Please fill in required GitHub settings", lit "error")]) s,
     Normal tt).
Proof.
  intros Hempty. unfold saveGitHubSettings.
  rewrite run_bind. cbn [gets run mret proc_ret id].
  assert (negb (truthy (Some (VStr (f_token (form s)))))
          || negb (truthy (Some (VStr (f_owner (form s)))))
          || negb (truthy (Some (VStr (f_repo (form s))))) = true) as ->.
  { destruct Hempty as [-> | [-> | ->]]; cbn [truthy negb]; by rewrite ?orb_true_r. }
  unfold showNotification. by rewrite run_modify.
Qed.

Lemma run_connection_test svc t o r p b (s : App) :
  exists w, run (tryCatch (getFile svc t o r p b ;; mret tt) (fun _ => mret tt)) s
            = (set_world w s, Normal tt).
Proof.
  pose proof (Safe_run worldOnly (getFile svc t o r p b) s (getFile_worldOnly _ _ _ _ _ _ s))
    as [w Hw].
  exists w. rewrite run_tryCatch, run_bind.
  destruct (run (getFile svc t o r p b) s) as [s1 [existing|e]]; cbn [fst snd] in *; by subst s1.
Qed.

(** X13.  The connection test of [saveGitHubSettings] decides nothing: with the
    token, the owner and the repository filled in, the settings are taken
    over, stored under 'github-settings' with an empty token, and "GitHub
    settings saved" is shown, whatever the remote side answers. *)
Theorem saveGitHubSettings_saves_whatever_the_test_gives (s : App) :
  f_token (form s) <> [] -> f_owner (form s) <> [] -> f_repo (form s) <> [] ->
  let f := form s in
  let g : JsObj :=
    list_to_map
      [("token"%string, VStr (f_token f)); ("owner"%string, VStr (f_owner f));
       ("repo"%string, VStr (f_repo f)); ("branch"%string, VStr (orElse (f_branch f) "main"));
       ("pathTemplate"%string, VStr (orElse (f_path f) "notes/{{date}}.md"));
       ("commitMessage"%string, VStr (orElse (f_message f) "Add note {{date}}"))] in
  let s' := fst (run saveGitHubSettings s) in
  snd (run saveGitHubSettings s) = Normal tt /\
  github s' = g /\
  localStorage s' = <["github-settings"%string := <["token"%string := VStr []]> g]> (localStorage s) /\
  modal s' = None /\
  notifications s' = notifications s ++ [(lit "GitHub settings saved", lit "success")].
Proof.
  intros Ht Ho Hr f g s'. subst s'. unfold saveGitHubSettings.
  rewrite run_bind. cbn [gets run mret proc_ret id]. fold f.
  assert (negb (truthy (Some (VStr (f_token f)))) || negb (truthy (Some (VStr (f_owner f))))
          || negb (truthy (Some (VStr (f_repo f)))) = false) as ->.
  { subst f. destruct (f_token (form s)), (f_owner (form s)), (f_repo (form s)); done. }
  rewrite run_tryCatch, run_bind.
  destruct (run_connection_test script (Some (VStr (f_token f))) (Some (VStr (f_owner f)))
              (Some (VStr (f_repo f))) (Some (VStr (lit "README.md")))
              (Some (VStr (orElse (f_branch f) "main"))) s) as [w ->].
  rewrite run_bind, run_modify, run_bind. cbn [gets run mret proc_ret id github set_github].
  fold g. rewrite run_bind, run_modify, run_bind. unfold closeModal, showNotification.
  rewrite !run_modify. cbn [fst snd].
  assert (g !! "rememberToken"%string = None) as Hg by done.
  rewrite Hg. cbn [truthy].
  repeat split.
Qed.

End SaveFacts.

(** ** Templates *)

Lemma startsWith_head p pat c s : c <> p -> startsWith (p :: pat) (c :: s) = false.
Proof. intros Hc. simpl. destruct (N.eqb_spec p c); [congruence | done]. Qed.

Lemma replaceAll_skip p pat rep (pre rest : jsstr) :
  Forall (fun c => c <> p) pre ->
  replaceAllFrom (p :: pat) rep 0 (pre ++ rest) = pre ++ replaceAllFrom (p :: pat) rep 0 rest.
Proof.
  induction 1 as [|c pre Hc _ IH]; [done|].
  cbn [app replaceAllFrom]. rewrite (startsWith_head p pat c _ Hc). by rewrite IH.
Qed.

Lemma replaceAll_none p pat rep (s : jsstr) :
  Forall (fun c => c <> p) s -> replaceAll (p :: pat) rep s = s.
Proof.
  intros Hs. unfold replaceAll. rewrite <- (app_nil_r s) at 1.
  rewrite replaceAll_skip by done. simpl. by rewrite app_nil_r.
Qed.

Lemma beforeT_noBrace (iso : jsstr) :
  Forall (fun c => c <> 123) iso -> Forall (fun c => c <> 123) (beforeT iso).
Proof.
  induction 1 as [|c iso Hc _ IH]; [constructor|]. simpl.
  destruct (c =? 84); [constructor | by constructor].
Qed.

Lemma replaceAll_date rep (pre post : jsstr) :
  Forall (fun c => c <> 123) pre -> Forall (fun c => c <> 123) post ->
  replaceAll (lit "{{date}}") rep (pre ++ lit "{{date}}" ++ post) = pre ++ rep ++ post.
Proof.
  intros Hpre Hpost. unfold replaceAll.
  change (lit "{{date}}") with [123; 123; 100; 97; 116; 101; 125; 125].
  rewrite replaceAll_skip by done. f_equal.
  cbn [app replaceAllFrom startsWith N.eqb Pos.eqb andb length Nat.sub]. f_equal.
  by apply (replaceAll_none 123).
Qed.

Lemma replaceAll_timestamp rep (pre post : jsstr) :
  Forall (fun c => c <> 123) pre -> Forall (fun c => c <> 123) post ->
  replaceAll (lit "{{timestamp}}") rep (pre ++ lit "{{timestamp}}" ++ post) = pre ++ rep ++ post.
Proof.
  intros Hpre Hpost. unfold replaceAll.
  change (lit "{{timestamp}}")
    with [123; 123; 116; 105; 109; 101; 115; 116; 97; 109; 112; 125; 125].
  rewrite replaceAll_skip by done. f_equal.
  cbn [app replaceAllFrom startsWith N.eqb Pos.eqb andb length Nat.sub]. f_equal.
  by apply (replaceAll_none 123).
Qed.

Lemma replaceAll_date_keeps_timestamp rep (pre post : jsstr) :
  Forall (fun c => c <> 123) pre -> Forall (fun c => c <> 123) post ->
  replaceAll (lit "{{date}}") rep (pre ++ lit "{{timestamp}}" ++ post)
  = pre ++ lit "{{timestamp}}" ++ post.
Proof.
  intros Hpre Hpost. unfold replaceAll.
  change (lit "{{date}}") with [123; 123; 100; 97; 116; 101; 125; 125].
  change (lit "{{timestamp}}")
    with [123; 123; 116; 105; 109; 101; 115; 116; 97; 109; 112; 125; 125].
  rewrite replaceAll_skip by done. f_equal.
  cbn [app replaceAllFrom startsWith N.eqb Pos.eqb andb length Nat.sub].
  do 13 f_equal. by apply (replaceAll_none 123).
Qed.

(** X14.  [processTemplate] puts the date (the ISO time up to its "T") in the
    place of "{{date}}" and the ISO time with ":" and "." turned into "-" in
    the place of "{{timestamp}}", and leaves a template without braces as it
    is. *)
Theorem processTemplate_placeholders (iso pre post : jsstr) :
  Forall (fun c => c <> 123) pre -> Forall (fun c => c <> 123) post ->
  Forall (fun c => c <> 123 /\ c <> 36) iso ->
  processTemplate iso (Some (VStr (pre ++ post))) = Normal (pre ++ post) /\
  processTemplate iso (Some (VStr (pre ++ lit "{{date}}" ++ post)))
    = Normal (pre ++ beforeT iso ++ post) /\
  processTemplate iso (Some (VStr (pre ++ lit "{{timestamp}}" ++ post)))
    = Normal (pre ++ ((fun c => if (c =? 58) || (c =? 46) then 45 else c) <$> iso) ++ post).
Proof.
  intros Hpre Hpost Hiso.
  assert (Forall (fun c => c <> 123) iso) as Hiso'.
  { eapply Forall_impl; [exact Hiso|]. by intros c [? _]. }
  assert (Forall (fun c => c <> 123) (beforeT iso)) as Hdate by (by apply beforeT_noBrace).
  unfold processTemplate. split; [|split]; f_equal.
  - change (lit "{{date}}") with [123; 123; 100; 97; 116; 101; 125; 125].
    change (lit "{{timestamp}}")
      with [123; 123; 116; 105; 109; 101; 115; 116; 97; 109; 112; 125; 125].
    assert (Forall (fun c => c <> 123) (pre ++ post)) as Hall by (by apply Forall_app).
    by rewrite !(replaceAll_none 123 _ _ (pre ++ post)).
  - rewrite replaceAll_date by done.
    change (lit "{{timestamp}}")
      with [123; 123; 116; 105; 109; 101; 115; 116; 97; 109; 112; 125; 125].
    apply (replaceAll_none 123). by repeat (apply Forall_app; split).
  - rewrite replaceAll_date_keeps_timestamp by done. by apply replaceAll_timestamp.
Qed.

Lemma processTemplate_placeholders_witness :
  processTemplate (lit "2025-01-02T03:04:05.678Z") (Some (VStr (lit "notes/" ++ lit "{{date}}" ++ lit ".md")))
  = Normal (lit "notes/" ++ beforeT (lit "2025-01-02T03:04:05.678Z") ++ lit ".md").
Proof.
  apply (processTemplate_placeholders (lit "2025-01-02T03:04:05.678Z") (lit "notes/") (lit ".md")).
  - repeat constructor; done.
  - repeat constructor; done.
  - repeat constructor; done.
Defined.

Section QueueFacts.
Context `{Platform}.

(** X15.  A record with an id that goes through [addToSyncQueue] is stored
    under that id, the records under other ids stay, and once the reload it
    requested is dispatched the record is in [this.syncQueue]. *)
Theorem addToSyncQueue_then_reload (job : JsObj) (k : jsstr) (s : App) :
  Idb.keyOf job = Some k ->
  let s1 := fst (run (addToSyncQueue job) s) in
  snd (run (addToSyncQueue job) s) = Normal tt /\
  queueStore s1 !! k = Some job /\
  (forall k', k' <> k -> queueStore s1 !! k' = queueStore s !! k') /\
  exists cb, last (callbacks s1) = Some cb /\
             job ∈ syncQueue (fst (run (runCallback cb) s1)).
Proof.
  intros Hk s1. subst s1. unfold addToSyncQueue, Idb.put. cbn [run]. rewrite Hk.
  cbn [run]. unfold loadSyncQueue. rewrite run_modify. cbn [fst snd queueStore set_queueStore set_callbacks
    callbacks].
  split; [done|]. split; [apply lookup_insert_eq|].
  split; [intros k' Hk'; by apply lookup_insert_ne|].
  eexists. split; [apply last_snoc|]. cbn [runCallback]. rewrite run_modify.
  cbn [fst syncQueue set_syncQueue]. apply IdbFacts.elem_of_getAll. exists k.
  apply lookup_insert_eq.
Qed.

(** X16.  [updateQueueJob] on a stored job changes the fields named in the
    updates and nothing else: every other field of the record and every
    other record stay as they were. *)
Theorem updateQueueJob_merges (k : jsstr) (job updates : JsObj) (s : App) :
  queueStore s !! k = Some job -> Idb.keyOf job = Some k ->
  updates !! "id"%string = None ->
  let s' := fst (run (updateQueueJob (Some (VStr k)) updates) s) in
  snd (run (updateQueueJob (Some (VStr k)) updates) s) = Normal tt /\
  (exists job', queueStore s' !! k = Some job' /\
     (forall f v, updates !! f = Some v -> job' !! f = Some v) /\
     (forall f, updates !! f = None -> job' !! f = job !! f)) /\
  (forall k', k' <> k -> queueStore s' !! k' = queueStore s !! k').
Proof.
  intros Hk Hkey Hid s'. subst s'.
  rewrite (run_updateQueueJob s (Some (VStr k)) k job updates); [|done|done|].
  - cbn [fst snd queueStore set_queueStore]. split; [done|]. split.
    + exists (assign job updates). split; [apply lookup_insert_eq|]. unfold assign. split.
      * intros f v Hf. by apply lookup_union_Some_l.
      * intros f Hf. by apply lookup_union_r.
    + intros k' Hk'. by apply lookup_insert_ne.
  - unfold Idb.keyOf, assign in *. by rewrite lookup_union_r.
Qed.

(** X17.  In every reachable state, a drain pass that is suspended holds the
    flag: [isSyncing] is true while a pass is active. *)
Theorem active_drain_holds_flag (sys : Sys) :
  reachable sys -> drains sys <> [] -> isSyncing (state sys) = true.
Proof.
  intros Hr Hd. destruct (reachable_guarded sys Hr) as [_ [Hnil | (q & Hq & Hflag & _)]];
    [done | exact Hflag].
Qed.

#[local] Instance sameStores_refl : Reflexive sameStores.
Proof. by intros a. Qed.

#[local] Instance sameStores_trans : Transitive sameStores.
Proof. intros a b c (?&?&?&?) (?&?&?&?). repeat split; congruence. Qed.

(** X18.  [forgetToken] empties the queue store, pending jobs included, blanks
    the token, removes the 'gitwrite-github' entries and keeps the other
    settings. *)
Theorem forgetToken_clears_queue (s : App) :
  let s' := fst (run forgetToken s) in
  queueStore s' = ∅ /\
  github s' !! "token"%string = Some (VStr []) /\
  (forall f, f <> "token"%string -> github s' !! f = github s !! f) /\
  localStorage s' !! "gitwrite-github"%string = None /\
  sessionStorage s' !! "gitwrite-github"%string = None.
Proof.
  intros s'. subst s'. unfold forgetToken.
  rewrite run_bind, run_modify, run_bind, run_modify, run_bind, run_modify, run_bind, run_modify.
  set (s1 := set_queueStore _ _).
  assert (sameStores s1 (fst (run (loadGitHubSettings ;; loadSyncQueue ;;
            showNotification (lit "GitHub token forgotten") "success") s1)))
    as (Hq & Hg & Hl & Hs).
  { apply (Safe_run sameStores). unfold loadGitHubSettings. safe; done. }
  rewrite Hq, Hg, Hl, Hs. subst s1. cbn. split; [done|].
  split; [apply lookup_insert_eq|]. split; [intros f Hf; by apply lookup_insert_ne|].
  split; apply lookup_delete_eq.
Qed.

End QueueFacts.

Section NoticeFacts.
Context `{Platform}.

Lemma syncOne_notice job k s :
  Idb.keyOf job = Some k -> queueStore s !! k = Some job ->
  exists r s',
    run (syncOne job) s = (s', Normal tt) /\ publishes job r /\
    queueStore s' = <[k := settle r job]> (queueStore s) /\
    notifications s' = notifications s ++ [syncNotice r].
Proof.
  intros Hkey Hk. unfold syncOne, logCommit.
  rewrite run_bind, run_modify, run_bind.
  set (s1 := set_commitLog _ s).
  destruct (commitToGitHub_run job s1) as (w & r & Hrun & Hshape).
  rewrite Hrun. exists r.
  assert (publishes job r) as Hpub.
  { exists s1. by rewrite Hrun. }
  assert (Idb.keyOf (settle r job) = Some k) as Hk' by (by rewrite IdbFacts.keyOf_settle).
  unfold settle, syncNotice in *. destruct (success r) eqn:Hs.
  - rewrite run_bind.
    erewrite run_updateQueueJob; [|exact Hkey|exact Hk|exact Hk'].
    unfold showNotification. rewrite run_modify. eexists. split; [done|].
    split; [done|]. by split.
  - rewrite run_bind.
    erewrite run_updateQueueJob; [|exact Hkey|exact Hk|exact Hk'].
    rewrite run_bind.
    assert (toStr (VStr <$> error r) = Normal (default (lit "undefined") (error r))) as Hm.
    { by destruct (error r). }
    unfold liftC. rewrite Hm. cbn [run].
    unfold showNotification. rewrite run_modify. eexists. split; [done|].
    split; [done|]. by split.
Qed.

Lemma drain_loop_notices jobs : forall s,
  NoDup (Idb.keyOf <$> jobs) ->
  (forall job, job ∈ jobs -> exists k, Idb.keyOf job = Some k /\ queueStore s !! k = Some job) ->
  exists rs s',
    run (forOf jobs syncOne) s = (s', Normal tt) /\
    Forall2 publishes jobs rs /\
    notifications s' = notifications s ++ (syncNotice <$> rs) /\
    Forall2 (fun job r => exists k, Idb.keyOf job = Some k /\
                                    queueStore s' !! k = Some (settle r job)) jobs rs /\
    (forall k, (forall job, job ∈ jobs -> Idb.keyOf job <> Some k) ->
       queueStore s' !! k = queueStore s !! k).
Proof.
  induction jobs as [|j rest IH]; intros s Hnd Hin.
  - exists [], s. simpl. rewrite app_nil_r. repeat split; constructor.
  - rewrite fmap_cons, NoDup_cons in Hnd. destruct Hnd as [Hj Hnd].
    destruct (Hin j) as (k & Hkey & Hk); [left|].
    destruct (syncOne_notice j k s Hkey Hk) as (r & s1 & Hrun & Hpub & Hst & Hnote).
    assert (forall job, job ∈ rest -> Idb.keyOf job <> Some k) as Hne.
    { intros job Hjob E. apply Hj. rewrite Hkey, <- E. apply list_elem_of_fmap. eauto. }
    destruct (IH s1) as (rs & s' & Hrun' & Hpubs & Hnotes & Hdone & Hframe).
    + done.
    + intros job Hjob. destruct (Hin job) as (k' & Hkey' & Hk'); [by right|].
      exists k'. split; [done|]. rewrite Hst, lookup_insert_ne; [done|].
      intros ->. by apply (Hne job).
    + exists (r :: rs), s'. rewrite run_forOf_cons, Hrun. split; [done|].
      split; [by constructor|].
      split; [by rewrite Hnotes, Hnote, <- app_assoc|]. split.
      * constructor; [|done]. exists k. split; [done|].
        rewrite Hframe by done. by rewrite Hst, lookup_insert_eq.
      * intros k' Hk'. rewrite Hframe.
        -- rewrite Hst, lookup_insert_ne; [done|]. intros ->. apply (Hk' j); [left|done].
        -- intros job Hjob. apply Hk'. by right.
Qed.

(** X19.  A drain pass shows one notification for each job it attempts, in the
    order of the attempts, and the notification says what the pass stored:
    "Note synced to GitHub" for a job stored as completed, "Sync failed: "
    followed by the error for a job stored as failed. *)
Theorem drain_notifies_each_job (s : App) :
  isSyncing s = false -> onLine s = true -> coherent s ->
  let s' := fst (run processSyncQueue s) in
  exists rs,
    Forall2 publishes (List.filter isPending (syncQueue s)) rs /\
    notifications s' = notifications s ++ (syncNotice <$> rs) /\
    Forall2 (fun job r => exists k, Idb.keyOf job = Some k /\
                                    queueStore s' !! k = Some (settle r job))
            (List.filter isPending (syncQueue s)) rs.
Proof.
  intros Hf Ho Hco s'. subst s'.
  destruct (coherent_jobs s Hco) as (Hnd & Hmem & Hkeys).
  set (jobs := List.filter isPending (syncQueue s)) in *.
  destruct (drain_loop_notices jobs (set_syncIndicator (lit "syncing") (set_isSyncing true s)))
    as (rs & s1 & Hrun & Hpubs & Hnotes & Hdone & _).
  { by apply NoDup_fmap_filter_bool. }
  { intros job Hjob. apply elem_of_filter_bool in Hjob as [Hjob _].
    apply Hmem in Hjob as [k Hk]. exists k. split; [by apply Hkeys | done]. }
  cut (exists s2, run processSyncQueue s = (s2, Normal tt) /\
         queueStore s2 = queueStore s1 /\ notifications s2 = notifications s1).
  { intros (s2 & -> & Hq & Hn). exists rs. cbn [fst]. split; [done|].
    split; [by rewrite Hn|].
    eapply Forall2_impl; [exact Hdone|]. intros job r (k & Hk1 & Hk2). exists k.
    by rewrite Hq. }
  unfold processSyncQueue. cbn [run]. rewrite Hf, Ho. cbn [orb negb].
  fold jobs. destruct jobs as [|j rest] eqn:Ej.
  { cbn [length Nat.eqb run mret proc_ret]. cbn [forOf run mret proc_ret] in Hrun.
    injection Hrun as <-. by eexists. }
  cbn [length Nat.eqb].
  rewrite run_bind, run_modify, run_bind. unfold updateSyncIndicator at 1.
  rewrite run_modify, run_bind, Hrun, run_bind. unfold loadSyncQueue.
  rewrite run_modify, run_bind, run_modify. cbn [run]. unfold updateSyncIndicator.
  rewrite run_modify. by eexists.
Qed.

End NoticeFacts.

(** ** Titles and word counts *)

Module TextFacts.

Lemma trimStart_split (s : jsstr) :
  exists pre, s = pre ++ trimStart s /\ Forall (fun c => isJsWhitespace c = true) pre.
Proof.
  induction s as [|c s (pre & Hs & Hpre)]; [by exists []|]. simpl.
  destruct (isJsWhitespace c) eqn:Hc.
  - exists (c :: pre). split; [simpl; by f_equal | by constructor].
  - by exists [].
Qed.

Lemma trimEnd_split (s : jsstr) :
  exists suf, s = trimEnd s ++ suf /\ Forall (fun c => isJsWhitespace c = true) suf.
Proof.
  destruct (trimStart_split (rev s)) as (pre & Hs & Hpre). exists (rev pre). split.
  - unfold trimEnd. rewrite <- rev_app_distr, <- Hs. by rewrite rev_involutive.
  - by apply Forall_rev.
Qed.

Lemma trimStart_head (s : jsstr) c rest :
  trimStart s = c :: rest -> isJsWhitespace c = false.
Proof.
  induction s as [|x s IH]; [done|]. simpl. destruct (isJsWhitespace x) eqn:Hx; [done|].
  by intros [= <- _].
Qed.

Lemma trimStart_blank (s : jsstr) : trimStart s = [] <-> isBlank s = true.
Proof.
  unfold isBlank. induction s as [|c s IH]; [done|]. simpl.
  destruct (isJsWhitespace c); [done|]. split; discriminate.
Qed.

Lemma isBlank_app (a b : jsstr) : isBlank (a ++ b) = isBlank a && isBlank b.
Proof. unfold isBlank. apply forallb_app. Qed.

Lemma isBlank_rev (s : jsstr) : isBlank (rev s) = isBlank s.
Proof.
  unfold isBlank. induction s as [|c s IH]; [done|]. simpl.
  rewrite forallb_app, IH. simpl. rewrite andb_true_r. apply andb_comm.
Qed.

Lemma isBlank_Forall (s : jsstr) :
  Forall (fun c => isJsWhitespace c = true) s -> isBlank s = true.
Proof. intros Hs. unfold isBlank. apply forallb_forall. intros c Hc.
  rewrite Forall_forall in Hs. apply Hs. by apply list_elem_of_In. Qed.

Lemma trimStart_isBlank (s : jsstr) : isBlank (trimStart s) = isBlank s.
Proof.
  destruct (trimStart_split s) as (pre & Hs & Hpre).
  symmetry. etransitivity; [exact (f_equal isBlank Hs)|].
  by rewrite isBlank_app, (isBlank_Forall pre Hpre).
Qed.

(** [!text.trim()] is [isBlank text]. *)
Lemma trim_blank (s : jsstr) : trim s = [] <-> isBlank s = true.
Proof.
  unfold trim, trimEnd. split.
  - intros Ht. apply (f_equal (@rev N)) in Ht. rewrite rev_involutive in Ht. simpl in Ht.
    apply trimStart_blank in Ht. rewrite isBlank_rev in Ht. by rewrite trimStart_isBlank in Ht.
  - intros Hb. rewrite <- trimStart_isBlank, <- isBlank_rev in Hb.
    apply trimStart_blank in Hb. by rewrite Hb.
Qed.

Lemma countRuns_blank w (s : jsstr) :
  Forall (fun c => isJsWhitespace c = true) s -> countRuns w s = 0%nat.
Proof.
  intros Hs. revert w. induction Hs as [|c s Hc _ IH]; intros w; [done|].
  simpl. rewrite Hc. apply IH.
Qed.

Lemma countRuns_app_blank w (s suf : jsstr) :
  Forall (fun c => isJsWhitespace c = true) suf -> countRuns w (s ++ suf) = countRuns w s.
Proof.
  intros Hsuf. revert w. induction s as [|c s IH]; intros w.
  - by apply countRuns_blank.
  - simpl. destruct (isJsWhitespace c); by rewrite IH.
Qed.

Lemma countRuns_blank_app (pre s : jsstr) :
  Forall (fun c => isJsWhitespace c = true) pre ->
  countRuns false (pre ++ s) = countRuns false s.
Proof. induction 1 as [|c pre Hc _ IH]; [done|]. simpl. by rewrite Hc. Qed.

Lemma countRuns_trim (s : jsstr) : countRuns false (trim s) = countRuns false s.
Proof.
  destruct (trimStart_split s) as (pre & Hs & Hpre).
  destruct (trimEnd_split (trimStart s)) as (suf & Ht & Hsuf).
  symmetry. etransitivity; [exact (f_equal (countRuns false) Hs)|].
  rewrite countRuns_blank_app by done.
  etransitivity; [exact (f_equal (countRuns false) Ht)|].
  by rewrite countRuns_app_blank.
Qed.

Lemma splitWsFrom_count skipping (cur s : jsstr) :
  (skipping = true -> cur = []) ->
  length (List.filter (fun word => (0 <? length word)%nat) (splitWsFrom skipping cur s))
  = (countRuns (0 <? length cur)%nat s + if (0 <? length cur)%nat then 1 else 0)%nat.
Proof.
  revert skipping cur. induction s as [|c s IH]; intros skipping cur Hsk.
  - simpl. by destruct (0 <? length cur)%nat.
  - cbn [splitWsFrom countRuns]. destruct (isJsWhitespace c).
    + destruct skipping.
      * rewrite (Hsk eq_refl). rewrite (IH true []) by done. cbn [length].
        by rewrite Nat.ltb_irrefl.
      * cbn [List.filter]. destruct (0 <? length cur)%nat; cbn [length];
          rewrite (IH true []) by done; cbn [length]; rewrite Nat.ltb_irrefl; lia.
    + rewrite (IH false (cur ++ [c])) by done.
      assert ((0 <? length (cur ++ [c]))%nat = true) as ->.
      { apply Nat.ltb_lt. rewrite length_app. simpl. lia. }
      destruct (0 <? length cur)%nat; lia.
Qed.

Lemma countRuns_app w (a b : jsstr) sep :
  isJsWhitespace sep = true ->
  countRuns w (a ++ sep :: b) = (countRuns w a + countRuns false b)%nat.
Proof.
  intros Hsep. revert w. induction a as [|c a IH]; intros w.
  - simpl. by rewrite Hsep.
  - simpl. destruct (isJsWhitespace c); rewrite IH; lia.
Qed.

Lemma countRuns_pos (s : jsstr) : isBlank s = false -> (1 <= countRuns false s)%nat.
Proof.
  unfold isBlank. induction s as [|c s IH]; [done|]. simpl.
  destruct (isJsWhitespace c); simpl; [by apply IH | lia].
Qed.

Lemma wordCount_countRuns (text : jsstr) : wordCount text = countRuns false text.
Proof.
  unfold wordCount, splitWs. rewrite splitWsFrom_count by done. simpl.
  rewrite Nat.add_0_r. apply countRuns_trim.
Qed.

(** X20.  The word count of a text is the number of its maximal runs of
    characters that are not white space; it is zero exactly for a blank
    text. *)
Theorem wordCount_counts_runs (text : jsstr) :
  wordCount text = countRuns false text /\
  (wordCount text = 0%nat <-> isBlank text = true).
Proof.
  split; [apply wordCount_countRuns|]. rewrite wordCount_countRuns. split.
  - intros H0. destruct (isBlank text) eqn:Hb; [done|].
    apply countRuns_pos in Hb. lia.
  - intros Hb. apply countRuns_blank. unfold isBlank in Hb.
    apply Forall_forall. intros c Hc. rewrite forallb_forall in Hb. apply Hb.
    by apply list_elem_of_In.
Qed.

Lemma wordCount_pos (text : jsstr) : isBlank text = false -> (1 <= wordCount text)%nat.
Proof. intros Hb. rewrite wordCount_countRuns. by apply countRuns_pos. Qed.

(** X21.  Word counts add up: the count of two texts joined by a white space
    character is the sum of their counts. *)
Theorem wordCount_additive (a b : jsstr) (sep : N) :
  isJsWhitespace sep = true ->
  wordCount (a ++ sep :: b) = (wordCount a + wordCount b)%nat.
Proof. intros Hsep. rewrite !wordCount_countRuns. by apply countRuns_app. Qed.

Lemma firstLine_no_newline (s : jsstr) : Forall (fun c => c <> 10) (firstLine s).
Proof.
  induction s as [|c s IH]; [constructor|]. simpl.
  destruct (N.eqb_spec c 10); [constructor | by constructor].
Qed.

Lemma trimStart_sub (P : N -> Prop) (s : jsstr) : Forall P s -> Forall P (trimStart s).
Proof.
  induction 1 as [|c s Hc Hs IH]; [constructor|]. simpl.
  destruct (isJsWhitespace c); [done | by constructor].
Qed.

Lemma trim_sub (P : N -> Prop) (s : jsstr) : Forall P s -> Forall P (trim s).
Proof.
  intros Hs. unfold trim, trimEnd. apply Forall_rev, trimStart_sub, Forall_rev.
  by apply trimStart_sub.
Qed.

(** X22.  The title of a note is never empty, is at most 53 characters long
    and holds no line break. *)
Theorem generateTitle_shape (content : jsstr) :
  generateTitle content <> [] /\
  (length (generateTitle content) <= 53)%nat /\
  Forall (fun c => c <> 10) (generateTitle content).
Proof.
  unfold generateTitle.
  pose proof (trim_sub _ _ (firstLine_no_newline content)) as Hline.
  destruct (Nat.ltb_spec 50 (length (trim (firstLine content)))) as [Hlong|Hshort].
  - split; [|split].
    + intros Hnil. apply (f_equal length) in Hnil. rewrite length_app in Hnil.
      change (length (lit "...")) with 3%nat in Hnil. simpl in Hnil. lia.
    + rewrite length_app, length_take. change (length (lit "...")) with 3%nat. lia.
    + apply Forall_app. split; [by apply Forall_take|]. by repeat constructor.
  - destruct (trim (firstLine content)) as [|c line] eqn:Hl.
    + split; [done|]. split; [vm_compute; lia|]. by repeat constructor.
    + split; [done|]. split; [lia|done].
Qed.

End TextFacts.

(** ** The writing desk *)

Module DeskFacts.
Import Desk.

Lemma normalizeNewlines_no_cr (s : jsstr) : Forall (fun c => c <> 13) (normalizeNewlines s).
Proof.
  induction s as [| c | c d rest IH2 IH1] using EncodingFacts.list_ind2.
  - constructor.
  - simpl. destruct (N.eqb_spec c 13); repeat constructor; done.
  - cbn [normalizeNewlines]. destruct (N.eqb_spec c 13).
    + constructor; [done|]. by destruct (d =? 10).
    + by constructor.
Qed.

Lemma normalizeNewlines_id (s : jsstr) :
  Forall (fun c => c <> 13) s -> normalizeNewlines s = s.
Proof.
  induction 1 as [|c s Hc _ IH]; [done|]. simpl.
  destruct (N.eqb_spec c 13); [done|]. by rewrite IH.
Qed.

Lemma normalizeNewlines_idem (s : jsstr) :
  normalizeNewlines (normalizeNewlines s) = normalizeNewlines s.
Proof. apply normalizeNewlines_id, normalizeNewlines_no_cr. Qed.

Lemma noteRecord_id id content iso : noteRecord id content iso !! "id"%string = Some id.
Proof. done. Qed.

Lemma noteRecord_content id content iso :
  noteRecord id content iso !! "content"%string = Some (VStr content).
Proof. done. Qed.

(** What [autosaveNote] does with a text that is not blank. *)
Lemma autosaveNote_run iso newId d :
  isBlank (editor d) = false ->
  let note := noteRecord (noteId newId (currentNote d)) (editor d) iso in
  autosaveNote iso newId d =
  match Idb.validKey (Some (noteId newId (currentNote d))) with
  | Some k => (set_notes (<[k := note]> (notes d)) (set_currentNote note d), Normal tt)
  | None => (set_currentNote note d, Throw Idb.dataError)
  end.
Proof.
  intros Hb note. unfold autosaveNote. rewrite Hb. fold note.
  unfold Idb.put, Idb.keyOf. subst note. rewrite noteRecord_id.
  by destruct (Idb.validKey _).
Qed.

(** X23.  What [autosaveNote] stores, [loadNote] brings back: after an
    autosave the note is in the store under its id, and loading that id, now
    or later, puts the saved text in the editor and makes the note the
    current one. *)
Theorem autosaveNote_then_loadNote (iso newId : jsstr) (d d1 : State) :
  isBlank (editor d) = false -> normalizeNewlines (editor d) = editor d ->
  autosaveNote iso newId d = (d1, Normal tt) ->
  exists k note,
    currentNote d1 = note /\ notes d1 !! k = Some note /\
    note !! "content"%string = Some (VStr (editor d)) /\
    forall d2, notes d2 !! k = Some note ->
      loadNote (Some (VStr k)) d2
      = (closeSidebar (set_editor (editor d) (set_currentNote note d2)), Fulfilled note).
Proof.
  intros Hb Hnorm Hsave. rewrite (autosaveNote_run iso newId d Hb) in Hsave.
  destruct (Idb.validKey _) as [k|] eqn:Hk; [|done].
  injection Hsave as <-.
  exists k, (noteRecord (noteId newId (currentNote d)) (editor d) iso).
  split; [done|]. split; [apply lookup_insert_eq|]. split; [done|].
  intros d2 Hd2. unfold loadNote. cbn [Idb.validKey]. rewrite Hd2.
  unfold setEditorValue. rewrite noteRecord_content.
  cbn [inputValue toStr toStringV cmap cbind]. by rewrite Hnorm.
Qed.

(** X24.  Successive autosaves of the note being written go to one record:
    once a note has been saved, editing it and saving again adds no record. *)
Theorem autosaveNote_keeps_one_record (iso1 id1 iso2 id2 raw : jsstr) (d d1 d2 : State) :
  isBlank (editor d) = false -> id1 <> [] ->
  autosaveNote iso1 id1 d = (d1, Normal tt) ->
  autosaveNote iso2 id2 (handleEditorInput raw d1) = (d2, Normal tt) ->
  dom (notes d2) = dom (notes d1).
Proof.
  intros Hb Hid Hsave1 Hsave2. rewrite (autosaveNote_run iso1 id1 d Hb) in Hsave1.
  destruct (Idb.validKey _) as [k|] eqn:Hk; [|done].
  assert (noteId id1 (currentNote d) = VStr k) as Hidk.
  { revert Hk. unfold Idb.validKey. destruct (noteId id1 (currentNote d)); intros; by simplify_eq. }
  assert (truthy (Some (VStr k)) = true) as Hkt.
  { rewrite <- Hidk. unfold noteId. destruct (currentNote d !! "id"%string) as [v|].
    - destruct (truthy (Some v)) eqn:Hv; [done | by destruct id1].
    - by destruct id1. }
  injection Hsave1 as <-. rewrite Hidk in Hsave2. rewrite Hidk.
  set (d1 := set_notes _ _) in *.
  destruct (isBlank (editor (handleEditorInput raw d1))) eqn:Hb2.
  { unfold autosaveNote in Hsave2. rewrite Hb2 in Hsave2. by injection Hsave2 as <-. }
  rewrite (autosaveNote_run iso2 id2 _ Hb2) in Hsave2.
  assert (noteId id2 (currentNote (handleEditorInput raw d1)) = VStr k) as Hidk2.
  { unfold noteId, handleEditorInput. cbn [currentNote set_currentNote set_editor d1 set_notes].
    rewrite lookup_insert_ne by done. rewrite noteRecord_id. by rewrite Hkt. }
  rewrite Hidk2 in Hsave2. cbn [Idb.validKey] in Hsave2. injection Hsave2 as <-.
  cbn [notes set_notes set_currentNote handleEditorInput set_editor d1].
  rewrite !dom_insert_L. apply set_eq. intros x. rewrite !elem_of_union. tauto.
Qed.

(** X25.  [newNote] does not lose the text: a text that is not blank is in the
    store, as the content of a note, when the editor has been emptied. *)
Theorem newNote_saves_the_text (iso newId : jsstr) (d : State) :
  isBlank (editor d) = false ->
  (exists k, noteId newId (currentNote d) = VStr k) ->
  let d' := newNote iso newId d in
  editor d' = [] /\ currentNote d' = emptyNote /\
  exists k note, notes d' !! k = Some note /\
                 note !! "content"%string = Some (VStr (editor d)).
Proof.
  intros Hb [k Hk] d'. subst d'. unfold newNote. rewrite Hb. cbn [negb].
  rewrite (autosaveNote_run iso newId d Hb), Hk. cbn [Idb.validKey fst].
  split; [done|]. split; [done|]. exists k, (noteRecord (VStr k) (editor d) iso).
  split; [apply lookup_insert_eq | done].
Qed.

(** X26.  Deleting the note that is open does not detach the editor from it:
    the record is gone, and the next autosave writes the text back under the
    same id. *)
Theorem deleted_open_note_comes_back (iso newId k : jsstr) (d : State) :
  currentNote d !! "id"%string = Some (VStr k) -> k <> [] ->
  isBlank (editor d) = false ->
  let d1 := fst (deleteNote true (Some (VStr k)) d) in
  notes d1 !! k = None /\
  exists note, notes (fst (autosaveNote iso newId d1)) !! k = Some note /\
               note !! "content"%string = Some (VStr (editor d)).
Proof.
  intros Hid Hk Hb d1. subst d1. unfold deleteNote. cbn [negb Idb.validKey fst].
  split; [apply lookup_delete_eq|].
  set (d1 := showNotification _ _ _).
  assert (isBlank (editor d1) = false) as Hb1 by done.
  rewrite (autosaveNote_run iso newId d1 Hb1).
  assert (noteId newId (currentNote d1) = VStr k) as ->.
  { unfold noteId. cbn [d1 currentNote showNotification set_notes]. rewrite Hid.
    by destruct k. }
  cbn [Idb.validKey fst notes set_notes]. eexists. split; [apply lookup_insert_eq|done].
Qed.

Lemma tidy_autosaveNote iso newId d : tidy d -> tidy (fst (autosaveNote iso newId d)).
Proof.
  intros (Hst & Hn & Hc). destruct (isBlank (editor d)) eqn:Hb.
  { unfold autosaveNote. by rewrite Hb. }
  rewrite (autosaveNote_run iso newId d Hb).
  destruct (Idb.validKey _) as [k|] eqn:Hk; cbn [fst].
  - split; [|by split]. cbn [notes set_notes]. intros k' note.
    rewrite lookup_insert. case_decide as Hkk; [|apply Hst].
    intros [= <-]. subst k'. exists (editor d), iso. split; [|done].
    revert Hk. unfold Idb.validKey. destruct (noteId newId (currentNote d)); intros; by simplify_eq.
  - by split.
Qed.

Lemma tidy_step ev d : tidy d -> tidy (step ev d).
Proof.
  intros Hinv. destruct ev as [raw|iso newId|iso newId|noteId|confirmed noteId|iso| |iso newId];
    cbn [step].
  - destruct Hinv as (Hst & _ & _). split; [done|]. split.
    + apply normalizeNewlines_idem.
    + cbn. apply lookup_insert_eq.
  - by apply tidy_autosaveNote.
  - unfold newNote.
    assert (tidy (if negb (isBlank (editor d)) then fst (autosaveNote iso newId d) else d))
      as (Hst & _ & _).
    { destruct (negb _); [by apply tidy_autosaveNote | done]. }
    by split.
  - unfold loadNote. destruct (Idb.validKey noteId) as [k|]; [|done].
    destruct (notes d !! k) as [note|] eqn:Hk; [|done].
    destruct Hinv as (Hst & Hn & Hc).
    destruct (Hst k note Hk) as (content & iso & -> & Hb & Hnorm).
    unfold setEditorValue. rewrite noteRecord_content.
    cbn [inputValue toStr toStringV cmap cbind fst]. rewrite Hnorm.
    split; [done|]. by split.
  - unfold deleteNote. destruct confirmed; [|done]. cbn [negb].
    destruct (Idb.validKey noteId) as [k|]; [|done]. cbn [fst].
    destruct Hinv as (Hst & Hn & Hc). split; [|by split].
    cbn [notes showNotification set_notes]. intros k' note Hk'.
    apply lookup_delete_Some in Hk' as [_ Hk']. by apply Hst.
  - unfold saveLocal. by destruct (negb _).
  - unfold toggleTimer. by destruct (isRunning d).
  - destruct (ticking d); [|done]. unfold tick, timerFinished.
    destruct (_ <=? 0)%Z; [|done].
    set (d1 := showNotification _ _ _). assert (tidy d1) as Hinv1 by done.
    destruct (negb _); [by apply tidy_autosaveNote | done].
Qed.

Lemma reachable_tidy store duration d :
  savedStore store -> reachable store duration d -> tidy d.
Proof.
  intros Hst. induction 1 as [|d ev _ IH]; [by split | by apply tidy_step].
Qed.

(** X27.  In every state the desk can reach, the notes store holds only notes
    as [autosaveNote] writes them: each sits under its own id, its content is
    not blank, its title is the title of its content and its word count is
    the count of its content, which is at least one. *)
Theorem notes_store_holds_saved_notes store duration (d : State) :
  savedStore store -> reachable store duration d ->
  forall k note, notes d !! k = Some note ->
    exists content,
      note !! "id"%string = Some (VStr k) /\
      note !! "content"%string = Some (VStr content) /\ isBlank content = false /\
      note !! "title"%string = Some (VStr (generateTitle content)) /\
      note !! "wordCount"%string = Some (VNum (Z.of_nat (wordCount content))) /\
      (1 <= wordCount content)%nat.
Proof.
  intros Hst Hr k note Hk.
  destruct (reachable_tidy store duration d Hst Hr) as (Hsaved & _ & _).
  destruct (Hsaved k note Hk) as (content & iso & -> & Hb & _).
  exists content. repeat split; try done. by apply TextFacts.wordCount_pos.
Qed.

(** X28.  [handleBeforeUnload] never holds up leaving the page: in every state
    the desk can reach, the content of the current note is the text of the
    editor, since every input event copies it there. *)
Theorem beforeunload_never_holds store duration (d : State) :
  savedStore store -> reachable store duration d -> handleBeforeUnload d = false.
Proof.
  intros Hst Hr. destruct (reachable_tidy store duration d Hst Hr) as (_ & _ & Hc).
  unfold handleBeforeUnload. rewrite Hc. unfold jsstr_eqb.
  rewrite bool_decide_eq_true_2 by done. apply andb_false_r.
Qed.

End DeskFacts.

Module TimerFacts.
Import Desk.

Lemma autosaveNote_timer iso newId d :
  let d' := fst (autosaveNote iso newId d) in
  isRunning d' = isRunning d /\ ticking d' = ticking d /\ timeLeft d' = timeLeft d /\
  timerText d' = timerText d /\ notices d' = notices d /\ timerDuration d' = timerDuration d.
Proof.
  unfold autosaveNote. destruct (isBlank (editor d)); [done|].
  cbn zeta. by destruct (Idb.put _ _).
Qed.

Lemma ticks_S n iso newId d : ticks (S n) iso newId d = step (Tick iso newId) (ticks n iso newId d).
Proof. done. Qed.

Lemma ticks_running iso newId d (n : nat) :
  (Z.of_nat n < timerDuration d * 60)%Z ->
  ticks n iso newId (startTimer d)
  = set_timerText (timerDisplay (timerDuration d * 60 - Z.of_nat n))
      (set_timer true (timerDuration d * 60 - Z.of_nat n) true d).
Proof.
  induction n as [|n IH]; intros Hn.
  - cbn [ticks Nat.iter]. unfold startTimer, updateTimerDisplay.
    cbn [timeLeft set_timer]. by rewrite Z.sub_0_r.
  - rewrite ticks_S, IH by lia. cbn [step ticking set_timerText set_timer].
    unfold tick, updateTimerDisplay. cbn [timeLeft isRunning ticking set_timerText set_timer].
    replace (timerDuration d * 60 - Z.of_nat n - 1)%Z
      with (timerDuration d * 60 - Z.of_nat (S n))%Z by lia.
    destruct (Z.leb_spec (timerDuration d * 60 - Z.of_nat (S n)) 0); [lia | done].
Qed.

(** X29.  A timer started, while none is running, for [timerDuration]
    minutes runs for exactly that many times sixty ticks: before the last
    tick it is running and shows the time left, the last tick stops it and
    shows "Timer finished! Great job writing!" once, and a tick after that
    changes nothing. *)
Theorem timer_runs_for_its_duration (iso newId : jsstr) (d : State) :
  (0 < timerDuration d)%Z -> isRunning d = false -> ticking d = false ->
  let total := Z.to_nat (timerDuration d * 60) in
  (forall n, (n < total)%nat ->
     let dn := ticks n iso newId (toggleTimer d) in
     isRunning dn = true /\ ticking dn = true /\
     timeLeft dn = (timerDuration d * 60 - Z.of_nat n)%Z /\
     timerText dn = timerDisplay (timeLeft dn) /\ notices dn = notices d) /\
  let dend := ticks total iso newId (toggleTimer d) in
  isRunning dend = false /\ ticking dend = false /\ timeLeft dend = 0%Z /\
  notices dend = notices d ++ [(lit "Timer finished! Great job writing!", lit "success")] /\
  step (Tick iso newId) dend = dend.
Proof.
  intros Hdur Hrun _ total. unfold toggleTimer. rewrite Hrun. split.
  - intros n Hn. subst total. by rewrite ticks_running by lia.
  - assert (total = S (Z.to_nat (timerDuration d * 60 - 1))) as -> by (subst total; lia).
    rewrite ticks_S, ticks_running by lia.
    rewrite Z2Nat.id by lia.
    replace (timerDuration d * 60 - (timerDuration d * 60 - 1))%Z with 1%Z by lia.
    cbn [step ticking set_timerText set_timer]. unfold tick, updateTimerDisplay.
    cbn [timeLeft isRunning ticking set_timerText set_timer].
    change (1 - 1)%Z with 0%Z. change (0 <=? 0)%Z with true. cbn iota.
    unfold timerFinished. set (d1 := showNotification _ _ _).
    assert (isRunning d1 = false /\ ticking d1 = false /\ timeLeft d1 = 0%Z /\
            notices d1 = notices d ++ [(lit "Timer finished! Great job writing!", lit "success")])
      as (H1 & H2 & H3 & H4) by done.
    clearbody d1. destruct (negb (isBlank (editor d1))).
    + pose proof (autosaveNote_timer iso newId d1) as HE. cbn zeta in HE.
      destruct HE as (E1 & E2 & E3 & _ & E5 & _).
      rewrite E1, E3, E5. cbn [step]. rewrite !E2, H2. by repeat split.
    + cbn [step]. rewrite H2. by repeat split.
Qed.

Lemma trim_ends (s : jsstr) :
  (forall c rest, trim s = c :: rest -> isJsWhitespace c = false) /\
  (forall c init, trim s = init ++ [c] -> isJsWhitespace c = false).
Proof.
  unfold trim, trimEnd. set (t := trimStart s).
  destruct (TextFacts.trimStart_split (rev t)) as (pre & Hrev & Hpre).
  split.
  - intros c rest Hc.
    assert (exists rest', t = c :: rest') as [rest' Ht].
    { apply (f_equal (@rev N)) in Hrev. rewrite rev_involutive, rev_app_distr, Hc in Hrev.
      eauto. }
    by apply (TextFacts.trimStart_head s c rest').
  - intros c init Hc. apply (f_equal (@rev N)) in Hc.
    rewrite rev_involutive, rev_app_distr in Hc. simpl in Hc.
    by apply (TextFacts.trimStart_head (rev t) c (rev init)).
Qed.

(** X30.  [saveLocal] of a text that is not blank hands one file to the
    browser: its name is "note-", the time with ":" and "." turned into "-",
    and ".md", so that it holds no colon; its content is the text without the
    white space around it. *)
Theorem saveLocal_downloads_trimmed_text (iso : jsstr) (d : State) :
  isBlank (editor d) = false ->
  let name := lit "note-" ++ fileStamp iso ++ lit ".md" in
  let text := trim (editor d) in
  downloads (saveLocal iso d) = downloads d ++ [(name, text)] /\
  Forall (fun c => c <> 58) name /\
  text <> [] /\
  (forall c rest, text = c :: rest -> isJsWhitespace c = false) /\
  (forall c init, text = init ++ [c] -> isJsWhitespace c = false) /\
  notices (saveLocal iso d) = notices d ++ [(lit "Note downloaded successfully", lit "success")].
Proof.
  intros Hb name text.
  assert (text <> []) as Hne.
  { intros Ht. apply TextFacts.trim_blank in Ht. congruence. }
  unfold saveLocal. fold text.
  assert (truthy (Some (VStr text)) = true) as -> by (by destruct text).
  cbn [negb]. split; [done|]. split.
  - subst name. apply Forall_app. split; [by repeat constructor|].
    apply Forall_app. split; [|by repeat constructor].
    unfold fileStamp. apply Forall_fmap, Forall_forall. intros c _. simpl.
    destruct (N.eqb_spec c 58); [done|]. by destruct (c =? 46).
  - split; [done|]. destruct (trim_ends (editor d)) as [Hh Hl]. by repeat split.
Qed.

End TimerFacts.

(** ** The further theorems on sample inputs *)

Lemma hasJobFields_jobA :
  hasJobFields jobA (lit "t") (lit "o") (lit "r") (lit "notes/a.md") (lit "first")
    (lit "Add note").
Proof. repeat split; vm_compute; reflexivity. Qed.

Lemma getFile_decodes_published_text_witness :
  run (getFile Utf8Variant (Some (VStr (lit "t"))) (Some (VStr (lit "o")))
         (Some (VStr (lit "r"))) (Some (VStr (lit "notes/a.md"))) None)
      (idlePage (serving Utf8Variant fileBody) tt)
  = (idlePage (serving Utf8Variant fileBody) tt, Normal (setDecodedContent cafe fileBody)).
Proof.
  apply (getFile_decodes_published_text (H := serving Utf8Variant fileBody)
           (lit "t") (lit "o") (lit "r") (lit "notes/a.md") None
           (idlePage (serving Utf8Variant fileBody) tt) tt
           (mkResponse true 200 (Normal fileBody)) fileBody wrappedCafe cafe
           (lit "Y2Fmw6kg4piV")).
  - reflexivity.
  - reflexivity.
  - reflexivity.
  - reflexivity.
  - discriminate.
  - repeat constructor.
  - vm_compute. reflexivity.
  - vm_compute. reflexivity.
Defined.

Lemma createOrUpdateFile_puts_probed_sha_witness :
  run (createOrUpdateFile ServicesGithubJs (Some (VStr (lit "t"))) (Some (VStr (lit "o")))
         (Some (VStr (lit "r"))) (Some (VStr (lit "notes/a.md"))) (lit "hello")
         (Some (VStr (lit "Add note"))) None)
      (idlePage (serving ServicesGithubJs shaBody) tt)
  = (idlePage (serving ServicesGithubJs shaBody) tt, Normal shaBody).
Proof.
  apply (createOrUpdateFile_puts_probed_sha (H := serving ServicesGithubJs shaBody)
           ServicesGithubJs (lit "t") (lit "o") (lit "r") (lit "notes/a.md") (lit "hello")
           (lit "Add note") None (idlePage (serving ServicesGithubJs shaBody) tt)
           (lit "aGVsbG8=") tt (mkResponse true 200 (Normal shaBody))).
  - vm_compute. reflexivity.
  - reflexivity.
  - reflexivity.
Defined.

Lemma createOrUpdateFile_rejects_with_api_message_witness :
  run (createOrUpdateFile ServicesGithubJs (Some (VStr (lit "t"))) (Some (VStr (lit "o")))
         (Some (VStr (lit "r"))) (Some (VStr (lit "notes/a.md"))) (lit "hello")
         (Some (VStr (lit "Add note"))) None)
      (idlePage (missing ServicesGithubJs) tt)
  = (idlePage (missing ServicesGithubJs) tt, Throw (mkError ErrorE (lit "Not Found"))).
Proof.
  apply (createOrUpdateFile_rejects_with_api_message (H := missing ServicesGithubJs)
           ServicesGithubJs (lit "t") (lit "o") (lit "r") (lit "notes/a.md") (lit "hello")
           (lit "Add note") None (idlePage (missing ServicesGithubJs) tt)
           (lit "aGVsbG8=") tt notFoundResponse
           (VObj [("message"%string, VStr (lit "Not Found"))]) (lit "Not Found")).
  - vm_compute. reflexivity.
  - reflexivity.
  - reflexivity.
  - reflexivity.
  - reflexivity.
Defined.

Lemma commitToGitHub_network_failure_witness :
  run (commitToGitHub jobA) (idlePage (unreachable Utf8Variant) tt)
  = (idlePage (unreachable Utf8Variant) tt,
     Normal (mkResult false None (Some (lit "Failed to fetch")))).
Proof.
  apply (commitToGitHub_network_failure (H := unreachable Utf8Variant) jobA
           (lit "t") (lit "o") (lit "r") (lit "notes/a.md") (lit "first") (lit "Add note")
           (lit "main") (idlePage (unreachable Utf8Variant) tt) tt failedToFetch).
  - exact hasJobFields_jobA.
  - vm_compute. reflexivity.
  - discriminate.
  - reflexivity.
Defined.

Lemma commitToGitHub_reports_api_failure_witness :
  run (commitToGitHub jobA) (idlePage (conflictAt Utf8Variant urlA) tt)
  = (idlePage (conflictAt Utf8Variant urlA) tt,
     Normal (mkResult false None (Some (lit "Conflict")))).
Proof.
  apply (commitToGitHub_reports_api_failure (H := conflictAt Utf8Variant urlA) jobA
           (lit "t") (lit "o") (lit "r") (lit "notes/a.md") (lit "first") (lit "Add note")
           (lit "main") (lit "Zmlyc3Q=") (idlePage (conflictAt Utf8Variant urlA) tt)
           tt okResponse None tt conflictResponse
           (VObj [("message"%string, VStr (lit "Conflict"))]) (Some (lit "Conflict"))).
  - reflexivity.
  - exact hasJobFields_jobA.
  - vm_compute. reflexivity.
  - discriminate.
  - reflexivity.
  - right. split; [reflexivity|]. exists (VObj []). split; reflexivity.
  - vm_compute. reflexivity.
  - vm_compute. reflexivity.
  - reflexivity.
  - reflexivity.
  - reflexivity.
Defined.

Lemma commitToGitHub_updates_existing_file_witness :
  run (commitToGitHub jobA) (idlePage (serving Utf8Variant shaBody) tt)
  = (idlePage (serving Utf8Variant shaBody) tt,
     Normal (mkResult true (Some shaBody) None)).
Proof.
  apply (commitToGitHub_updates_existing_file (H := serving Utf8Variant shaBody) jobA
           (lit "t") (lit "o") (lit "r") (lit "notes/a.md") (lit "first") (lit "Add note")
           (lit "main") (lit "Zmlyc3Q=") (lit "abc") (idlePage (serving Utf8Variant shaBody) tt)
           tt (mkResponse true 200 (Normal shaBody)) shaBody
           tt (mkResponse true 200 (Normal shaBody)) shaBody).
  - reflexivity.
  - exact hasJobFields_jobA.
  - vm_compute. reflexivity.
  - discriminate.
  - reflexivity.
  - reflexivity.
  - reflexivity.
  - reflexivity.
  - vm_compute. reflexivity.
  - reflexivity.
  - reflexivity.
  - reflexivity.
Defined.

Lemma commitToGitHub_default_branch_witness :
  run (commitToGitHub jobNoBranch) (idlePage (serving Utf8Variant repoBody) tt)
  = run (commitToGitHub (<["branch"%string := VStr (lit "trunk")]> jobNoBranch))
        (idlePage (serving Utf8Variant repoBody) tt).
Proof.
  apply (commitToGitHub_default_branch (H := serving Utf8Variant repoBody) jobNoBranch
           (lit "t") (lit "o") (lit "r") (lit "trunk")
           (idlePage (serving Utf8Variant repoBody) tt) tt
           (mkResponse true 200 (Normal repoBody)) repoBody).
  - vm_compute. reflexivity.
  - vm_compute. reflexivity.
  - vm_compute. reflexivity.
  - vm_compute. reflexivity.
  - reflexivity.
  - reflexivity.
  - reflexivity.
  - reflexivity.
  - discriminate.
Defined.

Lemma saveToGitHub_without_token_witness :
  run saveToGitHub unconfiguredPage
  = (set_modal (Some "github-modal"%string)
       (set_form (mkForm [] [] [] [] (lit "notes/{{date}}.md") (lit "Add note {{date}}") false)
          unconfiguredPage),
     Normal tt).
Proof.
  apply (saveToGitHub_without_token (H := accepting Utf8Variant) unconfiguredPage
           [] [] [] (lit "notes/{{date}}.md") (lit "Add note {{date}}")).
  repeat split; vm_compute; reflexivity.
Defined.

Lemma saveGitHubSettings_requires_fields_witness :
  run saveGitHubSettings unconfiguredPage
  = (set_notifications
       (notifications unconfiguredPage
          ++ [(lit "Please fill in required GitHub settings", lit "error")]) unconfiguredPage,
     Normal tt).
Proof.
  apply (saveGitHubSettings_requires_fields (H := accepting Utf8Variant) unconfiguredPage).
  left. reflexivity.
Defined.

Lemma saveGitHubSettings_saves_whatever_the_test_gives_witness :
  snd (run saveGitHubSettings (set_form filledForm (idlePage (missing ServicesGithubJs) tt)))
    = Normal tt /\
  notifications (fst (run saveGitHubSettings
                        (set_form filledForm (idlePage (missing ServicesGithubJs) tt))))
    = [(lit "GitHub settings saved", lit "success")].
Proof.
  destruct (saveGitHubSettings_saves_whatever_the_test_gives (H := missing ServicesGithubJs)
              (set_form filledForm (idlePage (missing ServicesGithubJs) tt)))
    as (Hn & _ & _ & _ & Hnote); [discriminate | discriminate | discriminate |].
  split; [exact Hn | exact Hnote].
Defined.

Lemma addToSyncQueue_then_reload_witness :
  exists cb, last (callbacks (fst (run (addToSyncQueue jobA) (idlePage (accepting Utf8Variant) tt))))
               = Some cb /\
    jobA ∈ syncQueue (fst (run (runCallback cb)
                             (fst (run (addToSyncQueue jobA)
                                     (idlePage (accepting Utf8Variant) tt))))).
Proof.
  destruct (addToSyncQueue_then_reload (H := accepting Utf8Variant) jobA (lit "a")
              (idlePage (accepting Utf8Variant) tt)) as (_ & _ & _ & Hcb).
  - vm_compute. reflexivity.
  - exact Hcb.
Defined.

Lemma updateQueueJob_merges_witness :
  snd (run (updateQueueJob (Some (VStr (lit "a")))
              {[ "status"%string := VStr (lit "completed") ]}) pageAB) = Normal tt.
Proof.
  destruct (updateQueueJob_merges (H := accepting Utf8Variant) (lit "a") jobA
              {[ "status"%string := VStr (lit "completed") ]} pageAB) as (Hn & _).
  - change (queueStore pageAB)
      with (<[lit "a" := jobA]> (<[lit "b" := jobB]> (<[lit "f" := jobF]>
              (∅ : gmap jsstr JsObj)))).
    apply lookup_insert_eq.
  - vm_compute. reflexivity.
  - vm_compute. reflexivity.
  - exact Hn.
Defined.

Lemma active_drain_holds_flag_witness : isSyncing (state sysDraining) = true.
Proof.
  apply (active_drain_holds_flag (H := accepting Utf8Variant) sysDraining).
  - apply reachable_steps, reach_loaded.
  - assert (length (drains sysDraining) = 1%nat) as Hlen by (vm_compute; reflexivity).
    intros Hnil. rewrite Hnil in Hlen. discriminate Hlen.
Defined.

Lemma drain_notifies_each_job_witness :
  exists rs,
    length rs = length (List.filter isPending (syncQueue pageAB)) /\
    notifications (fst (run processSyncQueue pageAB))
      = notifications pageAB ++ (syncNotice <$> rs).
Proof.
  destruct (drain_notifies_each_job (H := accepting Utf8Variant) pageAB)
    as (rs & Hpub & Hnote & _).
  - reflexivity.
  - reflexivity.
  - apply coherent_pageWith.
  - exists rs. split; [symmetry; exact (Forall2_length _ _ _ Hpub) | exact Hnote].
Defined.

Lemma wordCount_additive_witness :
  wordCount (lit "two words" ++ 32 :: lit "more")
  = (wordCount (lit "two words") + wordCount (lit "more"))%nat.
Proof. apply (TextFacts.wordCount_additive (lit "two words") (lit "more") 32). reflexivity. Defined.

Lemma deskTyped_not_blank : isBlank (Desk.editor deskTyped) = false.
Proof. vm_compute. reflexivity. Qed.

Lemma autosaveNote_then_loadNote_witness :
  exists k note,
    Desk.currentNote deskSaved = note /\ Desk.notes deskSaved !! k = Some note /\
    note !! "content"%string = Some (VStr (lit "Hello world")) /\
    forall d2, Desk.notes d2 !! k = Some note ->
      Desk.loadNote (Some (VStr k)) d2
      = (Desk.closeSidebar (Desk.set_editor (lit "Hello world") (Desk.set_currentNote note d2)),
         Fulfilled note).
Proof.
  apply (DeskFacts.autosaveNote_then_loadNote sampleTime (lit "m1abc") deskTyped deskSaved).
  - exact deskTyped_not_blank.
  - vm_compute. reflexivity.
  - unfold deskSaved. rewrite (DeskFacts.autosaveNote_run _ _ _ deskTyped_not_blank).
    reflexivity.
Defined.

Lemma autosaveNote_keeps_one_record_witness :
  dom (Desk.notes (fst (Desk.autosaveNote sampleTime (lit "m2xyz")
                          (Desk.handleEditorInput (lit "Hello world, again") deskSaved))))
  = dom (Desk.notes deskSaved).
Proof.
  apply (DeskFacts.autosaveNote_keeps_one_record sampleTime (lit "m1abc") sampleTime
           (lit "m2xyz") (lit "Hello world, again") deskTyped deskSaved).
  - exact deskTyped_not_blank.
  - discriminate.
  - unfold deskSaved. rewrite (DeskFacts.autosaveNote_run _ _ _ deskTyped_not_blank).
    reflexivity.
  - assert (isBlank (Desk.editor (Desk.handleEditorInput (lit "Hello world, again") deskSaved))
            = false) as Hb by (vm_compute; reflexivity).
    rewrite (DeskFacts.autosaveNote_run _ _ _ Hb). reflexivity.
Defined.

Lemma newNote_saves_the_text_witness :
  Desk.editor (Desk.newNote sampleTime (lit "m1abc") deskTyped) = [] /\
  exists k note, Desk.notes (Desk.newNote sampleTime (lit "m1abc") deskTyped) !! k = Some note /\
                 note !! "content"%string = Some (VStr (lit "Hello world")).
Proof.
  destruct (DeskFacts.newNote_saves_the_text sampleTime (lit "m1abc") deskTyped)
    as (He & _ & Hnote).
  - exact deskTyped_not_blank.
  - exists (lit "m1abc"). reflexivity.
  - split; [exact He | exact Hnote].
Defined.

Lemma deleted_open_note_comes_back_witness :
  Desk.notes (fst (Desk.deleteNote true (Some (VStr (lit "m1abc"))) deskSaved)) !! lit "m1abc"
    = None /\
  exists note,
    Desk.notes (fst (Desk.autosaveNote sampleTime (lit "m2xyz")
                       (fst (Desk.deleteNote true (Some (VStr (lit "m1abc"))) deskSaved))))
      !! lit "m1abc" = Some note /\
    note !! "content"%string = Some (VStr (Desk.editor deskSaved)).
Proof.
  apply (DeskFacts.deleted_open_note_comes_back sampleTime (lit "m2xyz") (lit "m1abc") deskSaved).
  - unfold deskSaved. rewrite (DeskFacts.autosaveNote_run _ _ _ deskTyped_not_blank).
    reflexivity.
  - discriminate.
  - unfold deskSaved. rewrite (DeskFacts.autosaveNote_run _ _ _ deskTyped_not_blank).
    reflexivity.
Defined.

Lemma savedStore_empty : Desk.savedStore ∅.
Proof. intros k note Hk. by rewrite lookup_empty in Hk. Qed.

Lemma reachable_deskSaved : Desk.reachable ∅ 1 deskSaved.
Proof.
  apply (Desk.reach_step ∅ 1 deskTyped (Desk.Autosave sampleTime (lit "m1abc"))).
  apply (Desk.reach_step ∅ 1 (Desk.fresh ∅ 1) (Desk.Input (lit "Hello world"))).
  apply Desk.reach_fresh.
Qed.

Lemma notes_store_holds_saved_notes_witness :
  exists content,
    Desk.currentNote deskSaved !! "id"%string = Some (VStr (lit "m1abc")) /\
    Desk.currentNote deskSaved !! "content"%string = Some (VStr content) /\
    isBlank content = false /\
    Desk.currentNote deskSaved !! "title"%string = Some (VStr (generateTitle content)) /\
    Desk.currentNote deskSaved !! "wordCount"%string
      = Some (VNum (Z.of_nat (wordCount content))) /\
    (1 <= wordCount content)%nat.
Proof.
  apply (DeskFacts.notes_store_holds_saved_notes ∅ 1 deskSaved).
  - exact savedStore_empty.
  - exact reachable_deskSaved.
  - vm_compute. reflexivity.
Defined.

Lemma beforeunload_never_holds_witness : Desk.handleBeforeUnload deskSaved = false.
Proof.
  apply (DeskFacts.beforeunload_never_holds ∅ 1 deskSaved).
  - exact savedStore_empty.
  - exact reachable_deskSaved.
Defined.

Lemma timer_runs_for_its_duration_witness :
  Desk.isRunning (Desk.ticks 59 sampleTime (lit "m1abc") (Desk.toggleTimer deskTyped)) = true /\
  Desk.isRunning (Desk.ticks 60 sampleTime (lit "m1abc") (Desk.toggleTimer deskTyped)) = false.
Proof.
  destruct (TimerFacts.timer_runs_for_its_duration sampleTime (lit "m1abc") deskTyped)
    as (Hbefore & Hend & _).
  - reflexivity.
  - reflexivity.
  - reflexivity.
  - split; [|exact Hend]. apply (Hbefore 59%nat). vm_compute. lia.
Defined.

Lemma saveLocal_downloads_trimmed_text_witness :
  Desk.downloads (Desk.saveLocal sampleTime deskTyped)
  = [(lit "note-" ++ fileStamp sampleTime ++ lit ".md", trim (lit "Hello world"))].
Proof.
  destruct (TimerFacts.saveLocal_downloads_trimmed_text sampleTime deskTyped) as (Hd & _).
  - exact deskTyped_not_blank.
  - exact Hd.
Defined.
